(** * Ledger master reconciliation: a shallow embedding of [main.py]

    The development follows the source file top to bottom: the helpers
    ([norm], [safe_decimal], [download_csv]), the key extractors,
    [sum_field], and the two reconciliation passes of [main].

    Modelling conventions.
    - A cell value is [option string]: [None] is Python's [None] (what
      [csv.DictReader] stores for a short row, and what [dict.get] returns
      for a missing header).
    - A raw row is a [gmap string (option string)], a Python [dict] keyed by
      header name.  The [None] key under which [csv.DictReader] files surplus
      fields is never looked up by the program and is left out.
    - Text is [string] restricted to ASCII: [str.strip], [str.upper] and
      [str.lower] are modelled on the ASCII range (bytes above 127 are kept
      as they are and are not white space).
    - Exceptions are values of [result]; [try]/[except] is a match on them.
    - [decimal.Decimal] is modelled with the default context of the module:
      precision 28, ROUND_HALF_EVEN, Emax 999999, Emin -999999, traps on
      InvalidOperation, DivisionByZero and Overflow. *)

From Stdlib Require Import ZArith NArith Ascii String Lia.
From stdpp Require Import gmap strings list fin_maps sorting.

Local Open Scope string_scope.
Local Open Scope list_scope.

(** ** Exceptions *)

Inductive exn : Type :=
  | InvalidOperation   (* decimal.InvalidOperation *)
  | Overflow           (* decimal.Overflow *)
  | CsvError           (* csv.Error *)
  | URLError.          (* anything raised by urllib.request.urlopen *)

Inductive result (A : Type) : Type :=
  | Ok (a : A)
  | Raise (e : exn).
Arguments Ok {A} a.
Arguments Raise {A} e.

Global Instance result_ret : MRet result := fun A a => Ok a.

Global Instance result_bind : MBind result := fun A B k r =>
  match r with
  | Ok a => k a
  | Raise e => Raise e
  end.

Definition is_ok {A} (r : result A) : bool :=
  match r with Ok _ => true | Raise _ => false end.

(** ** Text *)

Module Str.

Definition code (c : ascii) : N := N_of_ascii c.

(** [str.isspace] on the ASCII range: TAB, LF, VT, FF, CR, FS, GS, RS, US
    and the blank. *)
Definition is_space (c : ascii) : bool :=
  let n := code c in
  ((9 <=? n) && (n <=? 13) || (28 <=? n) && (n <=? 32))%N.

Fixpoint lstrip (s : string) : string :=
  match s with
  | EmptyString => EmptyString
  | String c s' => if is_space c then lstrip s' else s
  end.

Fixpoint rstrip (s : string) : string :=
  match s with
  | EmptyString => EmptyString
  | String c s' =>
      match rstrip s' with
      | EmptyString => if is_space c then EmptyString else String c EmptyString
      | r => String c r
      end
  end.

(** [s.strip()] *)
Definition strip (s : string) : string := rstrip (lstrip s).

Definition upper_char (c : ascii) : ascii :=
  let n := code c in
  if ((97 <=? n) && (n <=? 122))%N then ascii_of_N (n - 32) else c.

Definition lower_char (c : ascii) : ascii :=
  let n := code c in
  if ((65 <=? n) && (n <=? 90))%N then ascii_of_N (n + 32) else c.

Fixpoint map_chars (f : ascii -> ascii) (s : string) : string :=
  match s with
  | EmptyString => EmptyString
  | String c s' => String (f c) (map_chars f s')
  end.

(** [s.upper()] and [s.lower()] *)
Definition upper : string -> string := map_chars upper_char.
Definition lower : string -> string := map_chars lower_char.

(** [s.replace(c, "")] for a one-character pattern *)
Fixpoint remove_char (x : ascii) (s : string) : string :=
  match s with
  | EmptyString => EmptyString
  | String c s' =>
      if Ascii.eqb c x then remove_char x s' else String c (remove_char x s')
  end.

(** [s.split(c)] for a one-character separator: always at least one field *)
Fixpoint split_on (x : ascii) (s : string) : list string :=
  match s with
  | EmptyString => [EmptyString]
  | String c s' =>
      if Ascii.eqb c x then EmptyString :: split_on x s'
      else match split_on x s' with
           | [] => [String c EmptyString]
           | f :: fs => String c f :: fs
           end
  end.

Definition is_empty (s : string) : bool :=
  match s with EmptyString => true | String _ _ => false end.

End Str.

(** ** Helpers *)

(** A cell: a string, or Python's [None]. *)
Abbreviation value := (option string).

(** A raw row, header name to cell. *)
Abbreviation Row := (gmap string (option string)).

(** [norm(value)]: [""] for [None], else the stripped text. *)
Definition norm (v : value) : string :=
  match v with
  | None => ""
  | Some s => Str.strip s
  end.

(** [row.get(k)]: [None] when the header is missing. *)
Definition dict_get (row : Row) (k : string) : value :=
  match row !! k with
  | Some v => v
  | None => None
  end.

(** Truth value of a cell: [None] and [""] are false. *)
Definition truthy (v : value) : bool :=
  match v with
  | Some (String _ _) => true
  | _ => false
  end.

(** [a or b] *)
Definition py_or (a b : value) : value := if truthy a then a else b.

(** ** Key extractors *)

Definition ledger_invoice_key (row : Row) : string :=
  Str.upper (norm
    (py_or (dict_get row "Invoice Number")
       (py_or (dict_get row "Invoice number")
          (dict_get row "Invoice")))).

Definition invoice_guid_key (row : Row) : string :=
  Str.lower (norm
    (py_or (dict_get row "Invoice ID")
       (py_or (dict_get row "InvoiceId")
          (dict_get row "Invoice_GUID")))).

Definition invoice_number_key (row : Row) : string :=
  Str.upper (norm
    (py_or (dict_get row "Xero number")
       (py_or (dict_get row "Invoice Number")
          (py_or (dict_get row "Invoice number")
             (dict_get row "Invoice"))))).

Definition manifest_guid_key (row : Row) : string :=
  Str.lower (norm
    (py_or (dict_get row "Invoice ID")
       (py_or (dict_get row "InvoiceId")
          (dict_get row "Invoice_GUID")))).

Definition manifest_pdf_path (row : Row) : string :=
  norm
    (py_or (dict_get row "PDF_Path")
       (py_or (dict_get row "PdfPath")
          (py_or (dict_get row "FilePath")
             (dict_get row "Path")))).

(** ** [decimal.Decimal] *)

Module Dec.

(** A decimal number is a sign, a coefficient and an exponent, or one of
    the special values.  [Finite s c e] stands for (-1)^s * c * 10^e. *)
Inductive Decimal : Type :=
  | Finite (sign : bool) (coef : N) (exp : Z)
  | Infinity (sign : bool)
  | NaN (sign : bool) (payload : N)
  | sNaN (sign : bool) (payload : N).

(** [Decimal("0")] *)
Definition zero : Decimal := Finite false 0 0.

(** The default context. *)
Definition prec : Z := 28.
Definition Emax : Z := 999999.
Definition Emin : Z := -999999.
Definition Etiny : Z := Emin - prec + 1.
Definition Etop : Z := Emax - prec + 1.

Definition pow10 (k : Z) : N := (10 ^ Z.to_N k)%N.

(** Number of decimal digits of a coefficient, [len(str(n))]. *)
Fixpoint ndigits_go (fuel : nat) (n : N) : nat :=
  match fuel with
  | O => 1%nat
  | S f => if (n <? 10)%N then 1%nat else S (ndigits_go f (n / 10)%N)
  end.

Definition ndigits (n : N) : Z := Z.of_nat (ndigits_go (S (N.to_nat (N.log2 n))) n).

(** [str(n)] *)
Definition digit_char (d : N) : ascii := ascii_of_N (48 + d).

Fixpoint str_of_N_go (fuel : nat) (n : N) (acc : string) : string :=
  let acc' := String (digit_char (n mod 10)%N) acc in
  match fuel with
  | O => acc'
  | S f => if (n <? 10)%N then acc' else str_of_N_go f (n / 10)%N acc'
  end.

Definition str_of_N (n : N) : string := str_of_N_go (S (N.to_nat (N.log2 n))) n "".

(** Rounding a coefficient to drop its last [drop] digits, ROUND_HALF_EVEN. *)
Definition round_half_even (c : N) (drop : Z) : N :=
  let p := pow10 drop in
  let q := (c / p)%N in
  let r := (c mod p)%N in
  match (2 * r ?= p)%N with
  | Gt => (q + 1)%N
  | Eq => if N.even q then q else (q + 1)%N
  | Lt => q
  end.

(** [d._rescale(exp, ROUND_HALF_EVEN)] *)
Definition rescale (d : Decimal) (exp : Z) : Decimal :=
  match d with
  | Finite s c e =>
      if (c =? 0)%N then Finite s 0 exp
      else if (exp <=? e)%Z then Finite s (c * pow10 (e - exp)) exp
      else Finite s (round_half_even c (exp - e)) exp
  | _ => d
  end.

(** [d._fix(context)]: round to the precision of the context; an
    exponent above the range raises Overflow, which the context traps. *)
Definition fix_ (d : Decimal) : result Decimal :=
  match d with
  | Finite s c e =>
      if (c =? 0)%N then Ok (Finite s 0 (Z.min (Z.max e Etiny) Emax))
      else
        let exp_min := (ndigits c + e - prec)%Z in
        if (Etop <? exp_min)%Z then Raise Overflow
        else
          let exp_min := Z.max exp_min Etiny in
          if (e <? exp_min)%Z then
            let c' := round_half_even c (exp_min - e) in
            let '(c'', e') :=
              if (prec <? ndigits c')%Z then ((c' / 10)%N, (exp_min + 1)%Z)
              else (c', exp_min) in
            if (Etop <? e')%Z then Raise Overflow else Ok (Finite s c'' e')
          else Ok d
  | NaN s p => Ok (NaN s (p mod pow10 prec))
  | _ => Ok d
  end.

(** [_normalize(op1, op2, prec)]: bring two non-zero operands to a
    common exponent; an operand too small to matter is replaced by a
    sticky unit. *)
Definition normalize (c1 : N) (e1 : Z) (c2 : N) (e2 : Z) : (N * N) * Z :=
  if (e1 <? e2)%Z then
    (* tmp = op2, other = op1 *)
    let exp := (e2 + Z.min (-1) (ndigits c2 - prec - 2))%Z in
    let '(c1, e1) :=
      if (ndigits c1 + e1 - 1 <? exp)%Z then (1%N, exp) else (c1, e1) in
    ((c1, (c2 * pow10 (e2 - e1))%N), e1)
  else
    let exp := (e1 + Z.min (-1) (ndigits c1 - prec - 2))%Z in
    let '(c2, e2) :=
      if (ndigits c2 + e2 - 1 <? exp)%Z then (1%N, exp) else (c2, e2) in
    (((c1 * pow10 (e1 - e2))%N, c2), e2).

Definition add_finite (s1 : bool) (c1 : N) (e1 : Z)
                      (s2 : bool) (c2 : N) (e2 : Z) : result Decimal :=
  let exp := Z.min e1 e2 in
  if ((c1 =? 0) && (c2 =? 0))%N then fix_ (Finite (s1 && s2) 0 exp)
  else if (c1 =? 0)%N then
    fix_ (rescale (Finite s2 c2 e2) (Z.max exp (e2 - prec - 1)))
  else if (c2 =? 0)%N then
    fix_ (rescale (Finite s1 c1 e1) (Z.max exp (e1 - prec - 1)))
  else
    let '((n1, n2), e) := normalize c1 e1 c2 e2 in
    if Bool.eqb s1 s2 then fix_ (Finite s1 (n1 + n2) e)
    else if (n1 =? n2)%N then fix_ (Finite false 0 exp)
    else if (n1 <? n2)%N then fix_ (Finite s2 (n2 - n1) e)
    else fix_ (Finite s1 (n1 - n2) e).

(** [a + b] in the default context. *)
Definition add (a b : Decimal) : result Decimal :=
  match a, b with
  | sNaN _ _, _ | _, sNaN _ _ => Raise InvalidOperation
  | NaN _ _, _ => fix_ a
  | _, NaN _ _ => fix_ b
  | Infinity s1, Infinity s2 =>
      if Bool.eqb s1 s2 then Ok a else Raise InvalidOperation
  | Infinity _, _ => Ok a
  | _, Infinity _ => Ok b
  | Finite s1 c1 e1, Finite s2 c2 e2 => add_finite s1 c1 e1 s2 c2 e2
  end.

(** [f"{d:.2f}"] *)
Definition sign_str (s : bool) : string := if s then "-" else "".

Definition pad2 (n : N) : string :=
  String (digit_char (n / 10)) (String (digit_char (n mod 10)) "").

Definition payload_str (p : N) : string :=
  if (p =? 0)%N then "" else str_of_N p.

Definition format_2f (d : Decimal) : string :=
  match rescale d (-2) with
  | Finite s q _ => sign_str s +:+ str_of_N (q / 100) +:+ "." +:+ pad2 (q mod 100)
  | Infinity s => sign_str s +:+ "Infinity"
  | NaN s p => sign_str s +:+ "NaN" +:+ payload_str p
  | sNaN s p => sign_str s +:+ "sNaN" +:+ payload_str p
  end.

(** *** [Decimal(text)] *)

Definition is_digit (c : ascii) : bool :=
  let n := Str.code c in ((48 <=? n) && (n <=? 57))%N.

Fixpoint span_digits (s : string) : string * string :=
  match s with
  | EmptyString => (EmptyString, EmptyString)
  | String c r =>
      if is_digit c then
        let '(d, t) := span_digits r in (String c d, t)
      else (EmptyString, s)
  end.

Fixpoint digits_value_go (acc : N) (s : string) : N :=
  match s with
  | EmptyString => acc
  | String c r => digits_value_go (10 * acc + (Str.code c - 48))%N r
  end.

(** [int(digits or "0")] *)
Definition digits_value (s : string) : N := digits_value_go 0 s.

Fixpoint strip_prefix (p s : string) : option string :=
  match p, s with
  | EmptyString, _ => Some s
  | String a p', String b s' => if Ascii.eqb a b then strip_prefix p' s' else None
  | String _ _, EmptyString => None
  end.

(** The exponent part: nothing, or [E], an optional sign and digits. *)
Definition parse_exp (s : string) : option Z :=
  match s with
  | EmptyString => Some 0%Z
  | String c t =>
      if Ascii.eqb c "e" then
        let '(neg, t') :=
          match t with
          | String "-" u => (true, u)
          | String "+" u => (false, u)
          | _ => (false, t)
          end in
        let '(ds, rest) := span_digits t' in
        if Str.is_empty ds || negb (Str.is_empty rest) then None
        else
          let n := Z.of_N (digits_value ds) in
          Some (if neg then (- n)%Z else n)
      else None
  end.

Definition parse_number (sign : bool) (body : string) : option Decimal :=
  let '(ip, r1) := span_digits body in
  let '(fp, r2) :=
    match r1 with
    | String "." t => span_digits t
    | _ => (EmptyString, r1)
    end in
  if Str.is_empty ip && Str.is_empty fp then None
  else
    match parse_exp r2 with
    | None => None
    | Some ex =>
        Some (Finite sign (digits_value (ip +:+ fp))
                (ex - Z.of_nat (String.length fp)))
    end.

Definition all_digits (s : string) : bool :=
  let '(_, rest) := span_digits s in Str.is_empty rest.

Definition parse_special (sign : bool) (body : string) : option Decimal :=
  if String.eqb body "inf" || String.eqb body "infinity" then Some (Infinity sign)
  else
    match strip_prefix "nan" body with
    | Some ds => if all_digits ds then Some (NaN sign (digits_value ds)) else None
    | None =>
        match strip_prefix "snan" body with
        | Some ds => if all_digits ds then Some (sNaN sign (digits_value ds)) else None
        | None => None
        end
    end.

(** The constructor converts exactly; a finite value that the widest
    context cannot hold is refused. *)
Definition max_Emax : Z := 999999999999999999.
Definition max_Etiny : Z := -1999999999999999997.

Definition representable (d : Decimal) : bool :=
  match d with
  | Finite _ c e =>
      (max_Etiny <=? e)%Z &&
      (if (c =? 0)%N then (e <=? max_Emax)%Z
       else (e + ndigits c - 1 <=? max_Emax)%Z)
  | _ => true
  end.

(** [Decimal(text)]: white space around the text and underscores are
    dropped, letters are matched without regard to case; text that is not
    a number raises InvalidOperation. *)
Definition of_str (text : string) : result Decimal :=
  let s := Str.lower (Str.remove_char "_" (Str.strip text)) in
  let '(sign, body) :=
    match s with
    | String "-" r => (true, r)
    | String "+" r => (false, r)
    | _ => (false, s)
    end in
  match parse_special sign body with
  | Some d => Ok d
  | None =>
      match parse_number sign body with
      | Some d => if representable d then Ok d else Raise InvalidOperation
      | None => Raise InvalidOperation
      end
  end.

End Dec.

Import Dec (Decimal, Finite, Infinity, NaN, sNaN).

(** [safe_decimal(value)] *)
Definition safe_decimal (v : value) : result Decimal :=
  let s := norm v in
  if Str.is_empty s then Ok Dec.zero
  else
    let s := Str.remove_char "," s in
    match Dec.of_str s with
    | Raise InvalidOperation => Ok Dec.zero
    | r => r
    end.

(** ** The tabular source loader *)

Module Loader.

Definition LF : ascii := "010"%char.
Definition CR : ascii := "013"%char.

(** Line boundaries of [str.splitlines] on the ASCII range: LF, VT, FF,
    CR, FS, GS, RS; CR LF counts once. *)
Definition is_linebreak (c : ascii) : bool :=
  let n := Str.code c in
  ((10 <=? n) && (n <=? 13) || (28 <=? n) && (n <=? 30))%N.

Fixpoint splitlines (s : string) : list string :=
  match s with
  | EmptyString => []
  | String c r =>
      if is_linebreak c then
        match r with
        | String c2 r2 =>
            if Ascii.eqb c CR && Ascii.eqb c2 LF then "" :: splitlines r2
            else "" :: splitlines r
        | EmptyString => [""]
        end
      else
        match splitlines r with
        | [] => [String c ""]
        | l :: ls => String c l :: ls
        end
  end.

(** [[p.strip() for p in ln.split(",")]] *)
Definition fields (ln : string) : list string :=
  Str.strip <$> Str.split_on "," ln.

(** [dict(zip(header, parts))]: a repeated header keeps its last cell. *)
Definition dict_zip (header parts : list string) : Row :=
  foldl (fun (m : Row) kv => <[kv.1 := Some kv.2]> m) ∅ (zip header parts).

(** The body of the fallback loop: a line whose field count differs from
    the header's is skipped. *)
Definition fallback_step (header : list string) (rows : list Row)
    (ln : string) : list Row :=
  let parts := fields ln in
  if decide (length parts ≠ length header) then rows
  else rows ++ [dict_zip header parts].

Definition fallback_parse (text : string) : list Row :=
  let lines :=
    filter (fun ln => Str.is_empty (Str.strip ln) = false) (splitlines text) in
  match lines with
  | [] => []
  | first :: rest => foldl (fallback_step (fields first)) [] rest
  end.

Section download.
(** The two collaborators of the loader: [urlopen(url).read()] decoded
    as UTF-8 with replacement, and [csv.DictReader] run to the end of
    the text.  Either may raise. *)
Variable urlopen : string -> result string.
Variable DictReader : string -> result (list Row).

Definition download_csv (url label : string) : result (list Row) :=
  if Str.is_empty url then Ok []
  else
    text ← urlopen url;
    match DictReader text with
    | Ok rows => Ok rows
    | Raise CsvError => Ok (fallback_parse text)
    | Raise e => Raise e
    end.
End download.

End Loader.

(** ** Summation of an amount column *)

(** The cell that [sum_field] adds for a row: the first candidate header
    that is in the row with a non-blank cell. *)
Fixpoint amount_cell (row : Row) (candidates : list string) : option value :=
  match candidates with
  | [] => None
  | col :: rest =>
      match row !! col with
      | Some v => if Str.is_empty (norm v) then amount_cell row rest else Some v
      | None => amount_cell row rest
      end
  end.

Definition sum_step (candidates : list string) (total : Decimal) (row : Row)
    : result Decimal :=
  match amount_cell row candidates with
  | Some v => d ← safe_decimal v; Dec.add total d
  | None => Ok total
  end.

Fixpoint sum_loop (candidates : list string) (total : Decimal)
    (rows : list Row) : result Decimal :=
  match rows with
  | [] => Ok total
  | row :: rest => t ← sum_step candidates total row; sum_loop candidates t rest
  end.

Definition sum_field (rows : list Row) (candidates : list string)
    : result Decimal :=
  sum_loop candidates Dec.zero rows.

(** ** Indices *)

Abbreviation Index := (gmap string (list Row)).

(** [index.setdefault(k, []).append(r)] *)
Definition setdefault_append (index : Index) (k : string) (r : Row) : Index :=
  <[k := default [] (index !! k) ++ [r]]> index.

Definition build_ledger_index (ledger_rows : list Row) : Index :=
  foldl (fun index r =>
           let k := ledger_invoice_key r in
           if Str.is_empty k then index else setdefault_append index k r)
        ∅ ledger_rows.

(** Both invoice indices are filled in one loop. *)
Definition build_invoice_indices (invoice_rows : list Row) : Index * Index :=
  foldl (fun '(by_guid, by_invnum) r =>
           let g := invoice_guid_key r in
           let n := invoice_number_key r in
           (if Str.is_empty g then by_guid else setdefault_append by_guid g r,
            if Str.is_empty n then by_invnum else setdefault_append by_invnum n r))
        (∅, ∅) invoice_rows.

Definition build_manifest_index (manifest_rows : list Row) : Index :=
  foldl (fun index r =>
           let g := manifest_guid_key r in
           if Str.is_empty g then index else setdefault_append index g r)
        ∅ manifest_rows.

(** ** Master records *)

Record MasterRecord : Type := {
  Year : string;
  Invoice_GUID : string;
  Invoice_Number : string;
  Invoice_Type : string;
  Invoice_Date : string;
  Invoice_Contact : string;
  Invoice_Description : string;
  Invoice_Currency : string;
  Invoice_Line_Count : nat;
  Invoice_Line_Total : string;
  Invoice_Tax_Total : string;
  In_Ledger : string;
  Ledger_Row_Count : nat;
  Ledger_Gross_AUD : string;
  Ledger_Net_AUD : string;
  Ledger_GST_AUD : string;
  In_Manifest : string;
  Manifest_Row_Count : nat;
  PDF_Present : string;
  PDF_Count : nat;
  PDF_Paths : string
}.

(** [sorted(keys)] on strings *)
Definition sorted (l : list string) : list string := merge_sort String.le l.

(** [sep.join(l)] *)
Fixpoint join (sep : string) (l : list string) : string :=
  match l with
  | [] => ""
  | [x] => x
  | x :: rest => x +:+ sep +:+ join sep rest
  end.

Definition yes_no (b : bool) : string := if b then "Y" else "N".

Definition non_empty {A} (l : list A) : bool :=
  match l with [] => false | _ :: _ => true end.

(** [rows[0] if rows else {}] *)
Definition first_or_empty (rows : list Row) : Row :=
  match rows with
  | r :: _ => r
  | [] => ∅
  end.

Definition line_candidates : list string :=
  ["Line amount"; "Line Amount"; "Line total"; "Line Total"].
Definition tax_candidates : list string :=
  ["Tax amount"; "Tax Amount"; "GST"; "GST (AUD)"].
Definition gross_candidates : list string :=
  ["Gross (AUD)"; "Gross"; "Gross (Source)"].
Definition net_candidates : list string :=
  ["Net (AUD)"; "Net"; "Net (Source)"].
Definition gst_candidates : list string :=
  ["GST (AUD)"; "GST"; "GST (Source)"].

(** The distinct non-empty PDF paths of a GUID's manifest rows, sorted. *)
Definition pdf_paths_of (man_rows : list Row) : list string :=
  sorted (elements (list_to_set (C := gset string)
            (filter (fun p => Str.is_empty p = false)
                    (manifest_pdf_path <$> man_rows)))).

(** The ledger rows joined to an invoice number. *)
Definition ledger_rows_for (ledger_by_invnum : Index) (inv_num : string)
    : list Row :=
  if Str.is_empty inv_num then []
  else default [] (ledger_by_invnum !! inv_num).

Section reconcile.
Variable year : string.
Variables ledger_by_invnum invoice_by_guid manifest_by_guid : Index.

(** The first-row invoice number of a GUID. *)
Definition guid_inv_num (guid : string) : string :=
  invoice_number_key (first_or_empty (default [] (invoice_by_guid !! guid))).

(** Body of the loop of pass 1. *)
Definition guid_record (guid : string) : result MasterRecord :=
  let inv_rows := default [] (invoice_by_guid !! guid) in
  let man_rows := default [] (manifest_by_guid !! guid) in
  let first_inv := first_or_empty inv_rows in
  let inv_num := invoice_number_key first_inv in
  let inv_contact := norm (dict_get first_inv "Contact") in
  let inv_desc := norm (dict_get first_inv "Description") in
  let inv_date := norm (dict_get first_inv "Date") in
  let inv_type := norm (dict_get first_inv "Type") in
  let inv_currency := norm (dict_get first_inv "Currency") in
  inv_line_total ← sum_field inv_rows line_candidates;
  inv_tax_total ← sum_field inv_rows tax_candidates;
  let ledger_rows_for_invoice := ledger_rows_for ledger_by_invnum inv_num in
  ledger_gross ← sum_field ledger_rows_for_invoice gross_candidates;
  ledger_net ← sum_field ledger_rows_for_invoice net_candidates;
  ledger_gst ← sum_field ledger_rows_for_invoice gst_candidates;
  let pdf_paths := pdf_paths_of man_rows in
  let pdf_present := non_empty pdf_paths in
  Ok {| Year := year;
        Invoice_GUID := guid;
        Invoice_Number := inv_num;
        Invoice_Type := inv_type;
        Invoice_Date := inv_date;
        Invoice_Contact := inv_contact;
        Invoice_Description := inv_desc;
        Invoice_Currency := inv_currency;
        Invoice_Line_Count := length inv_rows;
        Invoice_Line_Total := Dec.format_2f inv_line_total;
        Invoice_Tax_Total := Dec.format_2f inv_tax_total;
        In_Ledger := yes_no (non_empty ledger_rows_for_invoice);
        Ledger_Row_Count := length ledger_rows_for_invoice;
        Ledger_Gross_AUD := Dec.format_2f ledger_gross;
        Ledger_Net_AUD := Dec.format_2f ledger_net;
        Ledger_GST_AUD := Dec.format_2f ledger_gst;
        In_Manifest := yes_no (non_empty man_rows);
        Manifest_Row_Count := length man_rows;
        PDF_Present := yes_no pdf_present;
        PDF_Count := length pdf_paths;
        PDF_Paths := join "; " pdf_paths |}.

(** Body of the loop of pass 2. *)
Definition ledger_only_record (inv_num : string) : result MasterRecord :=
  let l_rows := default [] (ledger_by_invnum !! inv_num) in
  ledger_gross ← sum_field l_rows gross_candidates;
  ledger_net ← sum_field l_rows net_candidates;
  ledger_gst ← sum_field l_rows gst_candidates;
  let first_l := first_or_empty l_rows in
  let ledger_contact := norm (dict_get first_l "Contact") in
  let ledger_desc := norm (dict_get first_l "Description") in
  Ok {| Year := year;
        Invoice_GUID := "";
        Invoice_Number := inv_num;
        Invoice_Type := "";
        Invoice_Date := "";
        Invoice_Contact := ledger_contact;
        Invoice_Description := ledger_desc;
        Invoice_Currency := norm (dict_get first_l "Currency");
        Invoice_Line_Count := 0;
        Invoice_Line_Total := "0.00";
        Invoice_Tax_Total := "0.00";
        In_Ledger := "Y";
        Ledger_Row_Count := length l_rows;
        Ledger_Gross_AUD := Dec.format_2f ledger_gross;
        Ledger_Net_AUD := Dec.format_2f ledger_net;
        Ledger_GST_AUD := Dec.format_2f ledger_gst;
        In_Manifest := "N";
        Manifest_Row_Count := 0;
        PDF_Present := "N";
        PDF_Count := 0;
        PDF_Paths := "" |}.

(** [set(invoice_by_guid.keys()) | set(manifest_by_guid.keys())] *)
Definition guid_keys : gset string :=
  dom invoice_by_guid ∪ dom manifest_by_guid.

(** [{invoice_number_key(rows[0]) for rows in invoice_by_guid.values() if rows}] *)
Definition invnums_from_guid : gset string :=
  list_to_set
    ((fun rows => invoice_number_key (first_or_empty rows)) <$>
       filter (fun rows : list Row => non_empty rows = true)
              (snd <$> map_to_list invoice_by_guid)).

Definition ledger_only_invnums : gset string :=
  dom ledger_by_invnum ∖ invnums_from_guid.

Definition pass1 : result (list MasterRecord) :=
  mapM guid_record (sorted (elements guid_keys)).

Definition pass2 : result (list MasterRecord) :=
  mapM ledger_only_record (sorted (elements ledger_only_invnums)).

(** [master_rows] once both loops have run. *)
Definition master_rows : result (list MasterRecord) :=
  p1 ← pass1; p2 ← pass2; Ok (p1 ++ p2).
End reconcile.

(** ** The report emitter *)

Module Emit.

Definition DQUOTE : ascii := "034"%char.
Definition CRLF : string := String "013"%char (String "010"%char "").

Definition fieldnames : list string :=
  ["Year"; "Invoice_GUID"; "Invoice_Number"; "Invoice_Type"; "Invoice_Date";
   "Invoice_Contact"; "Invoice_Description"; "Invoice_Currency";
   "Invoice_Line_Count"; "Invoice_Line_Total"; "Invoice_Tax_Total";
   "In_Ledger"; "Ledger_Row_Count"; "Ledger_Gross_AUD"; "Ledger_Net_AUD";
   "Ledger_GST_AUD"; "In_Manifest"; "Manifest_Row_Count"; "PDF_Present";
   "PDF_Count"; "PDF_Paths"].

Definition str_of_nat (n : nat) : string := Dec.str_of_N (N.of_nat n).

(** The cells of a record in the order of [fieldnames]. *)
Definition cells (r : MasterRecord) : list string :=
  [Year r; Invoice_GUID r; Invoice_Number r; Invoice_Type r; Invoice_Date r;
   Invoice_Contact r; Invoice_Description r; Invoice_Currency r;
   str_of_nat (Invoice_Line_Count r); Invoice_Line_Total r;
   Invoice_Tax_Total r; In_Ledger r; str_of_nat (Ledger_Row_Count r);
   Ledger_Gross_AUD r; Ledger_Net_AUD r; Ledger_GST_AUD r; In_Manifest r;
   str_of_nat (Manifest_Row_Count r); PDF_Present r;
   str_of_nat (PDF_Count r); PDF_Paths r].

(** Minimal quoting of the default dialect: a cell holding a comma, a
    quote, CR or LF is quoted, its quotes doubled. *)
Definition needs_quote (c : ascii) : bool :=
  Ascii.eqb c "," || Ascii.eqb c DQUOTE || Ascii.eqb c "013" || Ascii.eqb c "010".

Fixpoint has_special (s : string) : bool :=
  match s with
  | EmptyString => false
  | String c r => needs_quote c || has_special r
  end.

Fixpoint double_quotes (s : string) : string :=
  match s with
  | EmptyString => EmptyString
  | String c r =>
      if Ascii.eqb c DQUOTE then String c (String c (double_quotes r))
      else String c (double_quotes r)
  end.

Definition csv_cell (s : string) : string :=
  if has_special s then String DQUOTE (double_quotes s +:+ String DQUOTE "")
  else s.

Definition csv_line (cs : list string) : string :=
  join "," (csv_cell <$> cs) +:+ CRLF.

(** [writer.writeheader()] followed by one [writer.writerow] per record. *)
Definition write_csv (rows : list MasterRecord) : string :=
  foldl (fun buf r => buf +:+ csv_line (cells r))
        (csv_line fieldnames) rows.

End Emit.

Record Summary : Type := {
  summary_year : string;
  summary_ledger_rows : nat;
  summary_invoice_rows : nat;
  summary_manifest_rows : nat;
  summary_guid_keys : nat;
  summary_ledger_only_invoice_numbers : nat;
  summary_master_rows : nat;
  summary_kv_filename : string
}.

(** What a run that reaches the end hands to the platform:
    [Actor.set_value(kv_filename, csv_data)] and [Actor.push_data(summary)]. *)
Record Output : Type := {
  kv_filename : string;
  csv_data : string;
  summary : Summary
}.

(** ** [main] *)

Section main.
Variable urlopen : string -> result string.
Variable DictReader : string -> result (list Row).

Let download_csv := Loader.download_csv urlopen DictReader.

(** Steps 2 to 5, once the three row lists are there. *)
Definition reconcile (year : string)
    (ledger_rows invoice_rows manifest_rows : list Row) : result Output :=
  let ledger_by_invnum := build_ledger_index ledger_rows in
  let '(invoice_by_guid, invoice_by_invnum) :=
    build_invoice_indices invoice_rows in
  let manifest_by_guid := build_manifest_index manifest_rows in
  rows ← master_rows year ledger_by_invnum invoice_by_guid manifest_by_guid;
  let filename_year := if Str.is_empty year then "unknown" else year in
  let kv_filename := "ledger_master_" +:+ filename_year +:+ ".csv" in
  Ok {| kv_filename := kv_filename;
        csv_data := Emit.write_csv rows;
        summary :=
          {| summary_year := year;
             summary_ledger_rows := length ledger_rows;
             summary_invoice_rows := length invoice_rows;
             summary_manifest_rows := length manifest_rows;
             summary_guid_keys :=
               size (guid_keys invoice_by_guid manifest_by_guid);
             summary_ledger_only_invoice_numbers :=
               size (ledger_only_invnums ledger_by_invnum invoice_by_guid);
             summary_master_rows := length rows;
             summary_kv_filename := kv_filename |} |}.

(** [main]: [Ok None] is a run that returns early without writing
    anything, [Ok (Some out)] a run that wrote [out], [Raise e] a run
    that ends in an uncaught exception (nothing written either, as both
    writes come last). *)
Definition main (actor_input : Row) : result (option Output) :=
  let year := norm (dict_get actor_input "Year") in
  let ledger_url := norm (dict_get actor_input "LedgerUrl") in
  let invoice_url := norm (dict_get actor_input "InvoiceUrl") in
  let manifest_url := norm (dict_get actor_input "ManifestUrl") in
  if Str.is_empty ledger_url || Str.is_empty invoice_url
     || Str.is_empty manifest_url
  then Ok None
  else
    ledger_rows ← download_csv ledger_url "ledger";
    invoice_rows ← download_csv invoice_url "invoice";
    manifest_rows ← download_csv manifest_url "manifest";
    if negb (non_empty ledger_rows || non_empty invoice_rows
             || non_empty manifest_rows)
    then Ok None
    else out ← reconcile year ledger_rows invoice_rows manifest_rows;
         Ok (Some out).
End main.

(** ** Reference definitions used by the statements *)

(** A row literal. *)
Definition mkrow (cells : list (string * string)) : Row :=
  list_to_map (prod_map id Some <$> cells).

(** The extractor of the specification: the first candidate header, in
    order, that is in the row with a non-empty cell, stripped and folded;
    [""] when there is none. *)
Fixpoint first_present (row : Row) (candidates : list string) : option string :=
  match candidates with
  | [] => None
  | c :: rest =>
      match row !! c with
      | Some (Some (String a s)) => Some (String a s)
      | _ => first_present row rest
      end
  end.

Definition extract_spec (fold : string -> string) (candidates : list string)
    (row : Row) : string :=
  match first_present row candidates with
  | Some v => fold (Str.strip v)
  | None => ""
  end.

(** The amount parser of the specification: normalise, drop the
    thousands separators, parse exactly; any failure gives zero. *)
Definition parse_amount_spec (v : value) : Decimal :=
  match Dec.of_str (Str.remove_char "," (norm v)) with
  | Ok d => d
  | Raise _ => Dec.zero
  end.

(** The fallback parser of the specification: split the non-blank lines
    at commas, take the first as header, and keep the lines whose field count
    is the header's. *)
Definition fallback_spec (text : string) : list Row :=
  match filter (fun ln => Str.is_empty (Str.strip ln) = false)
               (Loader.splitlines text) with
  | [] => []
  | first :: rest =>
      let header := Loader.fields first in
      Loader.dict_zip header <$>
        filter (fun parts => length parts = length header) (Loader.fields <$> rest)
  end.

(** Collaborators for the examples.  The host serves a few documents and
    is unreachable otherwise; one of the ledgers has a bare CR after its
    header line. *)
Definition demo_urlopen (url : string) : result string :=
  if String.eqb url "https://files.example/ledger.csv" then
    Ok "Invoice Number,Gross
INV-1,100.00
INV-2,50,extra
INV-3,7.25"
  else if String.eqb url "https://files.example/ledger-cr.csv" then
    Ok ("Invoice Number,Gross" +:+ String Loader.CR "INV-1,100.00
INV-2,50,extra
INV-3,7.25")
  else if String.eqb url "https://files.example/invoices.csv" then
    Ok "Invoice ID,Xero number,Line amount
guid-1,INV-1,90.00"
  else if String.eqb url "https://files.example/manifest.csv" then
    Ok "Invoice ID,PDF_Path
GUID-1,a.pdf"
  else if String.eqb url "https://files.example/ledger-snan.csv" then
    Ok "Invoice Number,Gross
INV-1,sNaN"
  else if String.eqb url "https://files.example/empty.csv" then Ok ""
  else Raise URLError.

(** The reader of the examples does what [csv.DictReader] does on text
    without quotes: a CR that is followed by something else than a line end
    makes it give up; otherwise the first line is the header, empty lines are
    skipped, cells are taken as they are, a short line is filled up with
    [None] and the surplus cells of a long line are set aside. *)
Fixpoint bare_cr (after_cr : bool) (s : string) : bool :=
  match s with
  | EmptyString => false
  | String c r =>
      if Ascii.eqb c Loader.CR then bare_cr true r
      else if Ascii.eqb c Loader.LF then bare_cr false r
      else after_cr || bare_cr false r
  end.

Definition reader_row (header cells : list string) : Row :=
  foldl (fun (m : Row) kv => <[kv.1 := kv.2]> m) ∅
    (zip header ((Some <$> cells) ++ replicate (length header - length cells) None)).

Definition demo_reader (text : string) : result (list Row) :=
  if bare_cr false text then Raise CsvError
  else
    match filter (fun ln => Str.is_empty ln = false)
                 (Str.split_on Loader.LF (Str.remove_char Loader.CR text)) with
    | [] => Ok []
    | first :: rest =>
        let header := Str.split_on "," first in
        Ok ((fun ln => reader_row header (Str.split_on "," ln)) <$> rest)
    end.

(** The loop shared by the three indices, with the key extractor as a
    parameter. *)
Definition index_step (key : Row -> string) (index : Index) (r : Row) : Index :=
  let k := key r in
  if Str.is_empty k then index else setdefault_append index k r.

Definition build_index (key : Row -> string) (rows : list Row) : Index :=
  foldl (index_step key) ∅ rows.

(** A manifest with three rows for one GUID, two of them naming the same
    file. *)
Definition demo_manifest_index : Index :=
  build_manifest_index
    [mkrow [("Invoice ID", "GUID-1"); ("PDF_Path", "a.pdf")];
     mkrow [("Invoice ID", "guid-1"); ("Path", " a.pdf ")];
     mkrow [("Invoice ID", "guid-1")]].

(** The scenario of the specification, with one more manifest row whose
    GUID has no invoice. *)
Definition demo_ledger_rows : list Row :=
  [mkrow [("Invoice Number", "INV-1"); ("Gross (AUD)", "100.00")];
   mkrow [("Invoice Number", "INV-2"); ("Gross", "50")]].

Definition demo_invoice_rows : list Row :=
  [mkrow [("Invoice ID", "guid-1"); ("Xero number", "INV-1");
          ("Line amount", "90.00")]].

Definition demo_manifest_rows : list Row :=
  [mkrow [("Invoice ID", "GUID-1"); ("PDF_Path", "a.pdf")];
   mkrow [("Invoice ID", "guid-2"); ("Path", "b.pdf")]].

Definition demo_master_rows : result (list MasterRecord) :=
  master_rows "2016" (build_ledger_index demo_ledger_rows)
    (build_invoice_indices demo_invoice_rows).1
    (build_manifest_index demo_manifest_rows).

Definition demo_rows : list MasterRecord :=
  Eval vm_compute in
    match demo_master_rows with
    | Ok rows => rows
    | Raise _ => []
    end.

(** *** Plain amounts

    A plain amount at scale [K] is a finite decimal whose exponent lies
    between [-K] and 0; [plain_units] is its value counted in units of
    10^-K.  A column of plain amounts whose magnitudes add up to less than
    10^28 units is summed without any rounding. *)

Definition sign_factor (s : bool) : Z := if s then (-1)%Z else 1%Z.

Definition plain_units (K : Z) (d : Decimal) : option Z :=
  match d with
  | Finite s c e =>
      if ((- K <=? e) && (e <=? 0))%Z
      then Some (sign_factor s * Z.of_N c * 10 ^ (e + K))%Z
      else None
  | _ => None
  end.

(** The units a row adds to the sum over [candidates]: nothing when
    [sum_field] finds no cell in it. *)
Definition row_units (K : Z) (candidates : list string) (row : Row) : option Z :=
  match amount_cell row candidates with
  | None => Some 0%Z
  | Some v =>
      match safe_decimal v with
      | Ok d => plain_units K d
      | Raise _ => None
      end
  end.

Fixpoint magnitude (K : Z) (candidates : list string) (rows : list Row)
    : option Z :=
  match rows with
  | [] => Some 0%Z
  | row :: rest =>
      match row_units K candidates row, magnitude K candidates rest with
      | Some u, Some m => Some (Z.abs u + m)%Z
      | _, _ => None
      end
  end.

Definition plain_column (K : Z) (candidates : list string) (rows : list Row)
    : Prop :=
  exists m, magnitude K candidates rows = Some m ∧ (m < 10 ^ 28)%Z.

(** The sum of a column in exact integer arithmetic. *)
Fixpoint exact_total (K : Z) (candidates : list string) (rows : list Row) : Z :=
  match rows with
  | [] => 0%Z
  | row :: rest =>
      (default 0%Z (row_units K candidates row) + exact_total K candidates rest)%Z
  end.

(** Actor inputs for the examples. *)
Definition demo_input (ledger_url : string) : Row :=
  mkrow [("Year", "2016"); ("LedgerUrl", ledger_url);
         ("InvoiceUrl", "https://files.example/invoices.csv");
         ("ManifestUrl", "https://files.example/manifest.csv")].

(** The three locators of an input, as [main] reads them. *)
Definition ledger_url_of (actor_input : Row) : string :=
  norm (dict_get actor_input "LedgerUrl").
Definition invoice_url_of (actor_input : Row) : string :=
  norm (dict_get actor_input "InvoiceUrl").
Definition manifest_url_of (actor_input : Row) : string :=
  norm (dict_get actor_input "ManifestUrl").

(** A run produced no output artifact. *)
Definition no_output (run : result (option Output)) : Prop :=
  forall out, run ≠ Ok (Some out).

(** The two fatal conditions of the specification. *)
Definition fatal_condition (urlopen : string -> result string)
    (DictReader : string -> result (list Row)) (actor_input : Row) : Prop :=
  (ledger_url_of actor_input = "" ∨ invoice_url_of actor_input = ""
   ∨ manifest_url_of actor_input = "")
  ∨ (Loader.download_csv urlopen DictReader (ledger_url_of actor_input) "ledger" = Ok []
     ∧ Loader.download_csv urlopen DictReader (invoice_url_of actor_input) "invoice" = Ok []
     ∧ Loader.download_csv urlopen DictReader (manifest_url_of actor_input) "manifest" = Ok []).

(** The rows the loader gets from a document of the demo host. *)
Definition fetched (url : string) : list Row :=
  match Loader.download_csv demo_urlopen demo_reader url "demo" with
  | Ok rows => rows
  | Raise _ => []
  end.

(** *** Reading the output back

    [money] reads a formatted amount as a number of cents; the ledger side
    of the conservation property is counted in the same unit. *)

Definition money (text : string) : Z :=
  match Dec.of_str text with
  | Ok d => default 0%Z (plain_units 2 d)
  | Raise _ => 0%Z
  end.

Fixpoint sum_Z (l : list Z) : Z :=
  match l with
  | [] => 0%Z
  | x :: rest => (x + sum_Z rest)%Z
  end.

(** The ledger rows that the ledger index keeps. *)
Definition keyed_ledger_rows (ledger_rows : list Row) : list Row :=
  filter (fun r => ledger_invoice_key r ≠ "") ledger_rows.

(** No two GUID groups derive the same ledger invoice number from their
    first rows. *)
Definition first_rows_distinct (L I : Index) : Prop :=
  forall g1 g2, g1 ∈ dom I -> g2 ∈ dom I ->
    guid_inv_num I g1 = guid_inv_num I g2 -> guid_inv_num I g1 ∈ dom L ->
    g1 = g2.

(** Two invoices filed under one number, and the single ledger row of that
    number. *)
Definition twin_invoice_rows : list Row :=
  [mkrow [("Invoice ID", "guid-1"); ("Xero number", "INV-1")];
   mkrow [("Invoice ID", "guid-2"); ("Xero number", "INV-1")]].

Definition twin_ledger_rows : list Row :=
  [mkrow [("Invoice Number", "INV-1"); ("Gross (AUD)", "100.00")]].

(** Texts made of digits only, and of the characters of a formatted
    amount. *)
Fixpoint digits_only (s : string) : bool :=
  match s with
  | EmptyString => true
  | String c r => Dec.is_digit c && digits_only r
  end.

Definition amount_char (c : ascii) : bool :=
  Dec.is_digit c || Ascii.eqb c "-" || Ascii.eqb c ".".

Fixpoint amount_text (s : string) : bool :=
  match s with
  | EmptyString => true
  | String c r => amount_char c && amount_text r
  end.

(** Texts made of white space only. *)
Fixpoint all_space (s : string) : bool :=
  match s with
  | EmptyString => true
  | String c r => Str.is_space c && all_space r
  end.

(** A presence flag and the count it summarises agree. *)
Definition flag_consistent (flag : string) (count : nat) : Prop :=
  (flag = "Y" ∧ 1 <= count) ∨ (flag = "N" ∧ count = 0).

(** * Properties *)

(** ** Text *)

Section strip_facts.

Lemma rstrip_cons c s :
  Str.rstrip (String c s) =
    match Str.rstrip s with
    | EmptyString => if Str.is_space c then EmptyString else String c EmptyString
    | r => String c r
    end.
Proof. reflexivity. Qed.

Lemma lstrip_idem s : Str.lstrip (Str.lstrip s) = Str.lstrip s.
Proof.
  induction s as [|c s IH]; simpl; [done|].
  destruct (Str.is_space c) eqn:E; [done|]. simpl. by rewrite E.
Qed.

Lemma rstrip_idem s : Str.rstrip (Str.rstrip s) = Str.rstrip s.
Proof.
  induction s as [|c s IH]; simpl; [done|].
  destruct (Str.rstrip s) as [|c' r] eqn:E.
  - destruct (Str.is_space c) eqn:Ec; simpl; [done|]. by rewrite Ec.
  - simpl in *. by rewrite IH.
Qed.

Lemma lstrip_rstrip s : Str.lstrip (Str.rstrip s) = Str.rstrip (Str.lstrip s).
Proof.
  induction s as [|c s IH]; simpl; [done|].
  destruct (Str.is_space c) eqn:Ec.
  - rewrite <- IH.
    destruct (Str.rstrip s) as [|c' r] eqn:E; simpl; by rewrite ?Ec.
  - destruct (Str.rstrip s) as [|c' r] eqn:E; simpl; by rewrite ?E, ?Ec.
Qed.

Lemma strip_idem s : Str.strip (Str.strip s) = Str.strip s.
Proof.
  unfold Str.strip.
  by rewrite lstrip_rstrip, lstrip_idem, rstrip_idem.
Qed.

End strip_facts.

(** ** Key extractors *)

Ltac case_cell row k :=
  let E := fresh "E" in
  destruct (row !! k) as [[[|? ?]|]|] eqn:E; simpl; try reflexivity.

(** C5. Each of the four key extractors returns the stripped and
    case-folded cell of the first candidate header of its list that is in
    the row with a non-empty cell, and the empty string when no candidate
    has one.  The extractors are total functions of the row: they cannot
    raise and leave the row as it is. *)
Theorem key_extractors_first_candidate (row : Row) :
  ledger_invoice_key row
    = extract_spec Str.upper ["Invoice Number"; "Invoice number"; "Invoice"] row
  ∧ invoice_guid_key row
    = extract_spec Str.lower ["Invoice ID"; "InvoiceId"; "Invoice_GUID"] row
  ∧ invoice_number_key row
    = extract_spec Str.upper
        ["Xero number"; "Invoice Number"; "Invoice number"; "Invoice"] row
  ∧ manifest_guid_key row
    = extract_spec Str.lower ["Invoice ID"; "InvoiceId"; "Invoice_GUID"] row.
Proof.
  unfold ledger_invoice_key, invoice_guid_key, invoice_number_key,
    manifest_guid_key, extract_spec, py_or, dict_get; simpl.
  repeat split.
  - case_cell row "Invoice Number"; case_cell row "Invoice number";
      case_cell row "Invoice".
  - case_cell row "Invoice ID"; case_cell row "InvoiceId";
      case_cell row "Invoice_GUID".
  - case_cell row "Xero number"; case_cell row "Invoice Number";
      case_cell row "Invoice number"; case_cell row "Invoice".
  - case_cell row "Invoice ID"; case_cell row "InvoiceId";
      case_cell row "Invoice_GUID".
Qed.

(** A cell of white space is a non-empty cell: it is the one taken, and
    the key is empty even when a later candidate has text. *)
Example ledger_invoice_key_blank_cell :
  ledger_invoice_key (mkrow [("Invoice Number", "  "); ("Invoice", "INV-1")]) = "".
Proof. vm_compute. reflexivity. Qed.

Example ledger_invoice_key_alias :
  ledger_invoice_key (mkrow [("Invoice", " inv-7 ")]) = "INV-7".
Proof. vm_compute. reflexivity. Qed.

(** ** [safe_decimal] *)

Section safe_decimal_facts.

Local Abbreviation rc := (Str.remove_char ",").

Lemma of_str_raises text e : Dec.of_str text = Raise e -> e = InvalidOperation.
Proof.
  unfold Dec.of_str.
  destruct (Str.lower _) as [|c r]; simpl.
  - intros [= <-]. reflexivity.
  - set (sb := match c with
               | "-"%char => (true, r) | "+"%char => (false, r)
               | _ => (false, String c r) end).
    destruct sb as [sign body].
    destruct (Dec.parse_special sign body); [discriminate|].
    destruct (Dec.parse_number sign body) as [d|]; [|by intros [= <-]].
    destruct (Dec.representable d); [discriminate|by intros [= <-]].
Qed.

Lemma of_str_strip text : Dec.of_str (Str.strip text) = Dec.of_str text.
Proof. unfold Dec.of_str. by rewrite strip_idem. Qed.

Lemma of_str_empty : Dec.of_str "" = Raise InvalidOperation.
Proof. reflexivity. Qed.

Lemma safe_decimal_eq v :
  safe_decimal v =
    if Str.is_empty (norm v) then Ok Dec.zero
    else Ok (parse_amount_spec v).
Proof.
  unfold safe_decimal, parse_amount_spec.
  destruct (Str.is_empty (norm v)); [done|].
  destruct (Dec.of_str _) as [d|e] eqn:E; [done|].
  by rewrite (of_str_raises _ _ E).
Qed.

Lemma length_rc s : (String.length (rc s) <= String.length s)%nat.
Proof.
  induction s as [|c s IH]; simpl; [lia|].
  destruct (Ascii.eqb c ","); simpl; lia.
Qed.

Lemma rc_idem s : rc (rc s) = rc s.
Proof.
  induction s as [|c s IH]; simpl; [done|].
  destruct (Ascii.eqb c ",") eqn:E; simpl; [done|]. by rewrite E, IH.
Qed.

Lemma rc_fixed_cons c s :
  rc (String c s) = String c s -> Ascii.eqb c "," = false ∧ rc s = s.
Proof.
  simpl. destruct (Ascii.eqb c ",") eqn:E.
  - intros H. pose proof (length_rc s) as Hl. rewrite H in Hl. simpl in Hl. lia.
  - by intros [= ->].
Qed.

Lemma rc_fixed_lstrip s : rc s = s -> rc (Str.lstrip s) = Str.lstrip s.
Proof.
  induction s as [|c s IH]; [done|].
  intros H. destruct (rc_fixed_cons _ _ H) as [Hc Hs]. simpl.
  destruct (Str.is_space c); [by apply IH|]. simpl. by rewrite Hc, Hs.
Qed.

Lemma rc_fixed_rstrip s : rc s = s -> rc (Str.rstrip s) = Str.rstrip s.
Proof.
  induction s as [|c s IH]; [done|].
  intros H. destruct (rc_fixed_cons _ _ H) as [Hc Hs]. simpl.
  specialize (IH Hs).
  destruct (Str.rstrip s) as [|c' r].
  - destruct (Str.is_space c); simpl; [done|]. by rewrite Hc.
  - simpl in *. by rewrite Hc, IH.
Qed.

Lemma rc_fixed_strip s : rc s = s -> rc (Str.strip s) = Str.strip s.
Proof. intros H. by apply rc_fixed_rstrip, rc_fixed_lstrip. Qed.

Lemma comma_not_space c : Ascii.eqb c "," = true -> Str.is_space c = false.
Proof. intros ->%Ascii.eqb_eq. reflexivity. Qed.

Lemma lstrip_rc s : Str.lstrip (rc (Str.lstrip s)) = Str.lstrip (rc s).
Proof.
  induction s as [|c s IH]; simpl; [done|].
  destruct (Str.is_space c) eqn:Es.
  - destruct (Ascii.eqb c ",") eqn:Ec.
    + apply comma_not_space in Ec. congruence.
    + simpl. by rewrite Es.
  - done.
Qed.

Lemma rstrip_rc s : Str.rstrip (rc (Str.rstrip s)) = Str.rstrip (rc s).
Proof.
  induction s as [|c s IH]; simpl; [done|].
  destruct (Ascii.eqb c ",") eqn:Ec.
  - pose proof (comma_not_space _ Ec) as Es.
    destruct (Str.rstrip s) as [|c' r] eqn:E; rewrite ?Es; simpl; by rewrite Ec.
  - destruct (Str.rstrip s) as [|c' r] eqn:E.
    + destruct (Str.is_space c) eqn:Es; simpl in *.
      * by rewrite <- IH, Es.
      * by rewrite Ec; simpl; rewrite <- IH.
    + assert (rc (String c (String c' r)) = String c (rc (String c' r))) as ->
        by (simpl; by rewrite Ec).
      rewrite (rstrip_cons c (rc (String c' r))), (rstrip_cons c (rc s)).
      by rewrite IH.
Qed.

Lemma strip_rc s : Str.strip (rc (Str.strip s)) = Str.strip (rc s).
Proof.
  unfold Str.strip.
  rewrite <- (lstrip_rstrip (rc (Str.rstrip _))), rstrip_rc, lstrip_rstrip.
  rewrite lstrip_rc. reflexivity.
Qed.

End safe_decimal_facts.

(** C6. [safe_decimal] returns for every cell: its result is the exact
    parse of the stripped text without its separators when that text
    parses, and zero otherwise, which covers [None], blank text and text
    that is not a number. *)
Theorem safe_decimal_never_raises (v : value) :
  safe_decimal v = Ok (parse_amount_spec v)
  ∧ safe_decimal None = Ok Dec.zero
  ∧ safe_decimal (Some "") = Ok Dec.zero
  ∧ safe_decimal (Some "   ") = Ok Dec.zero
  ∧ safe_decimal (Some "N/A") = Ok Dec.zero
  ∧ safe_decimal (Some "1,234.50") = Ok (Finite false 123450 (-2)).
Proof.
  split; [|by vm_compute].
  rewrite safe_decimal_eq.
  destruct (Str.is_empty (norm v)) eqn:E; [|done].
  unfold parse_amount_spec.
  destruct (norm v); [|discriminate]. reflexivity.
Qed.

(** C7. Removing the thousands separators beforehand does not change the
    result of [safe_decimal]; this holds for every text, numeric or not. *)
Theorem safe_decimal_separators (s : string) :
  safe_decimal (Some s) = safe_decimal (Some (Str.remove_char "," s)).
Proof.
  rewrite !safe_decimal_eq. unfold parse_amount_spec, norm.
  rewrite (rc_fixed_strip (Str.remove_char "," s)) by apply rc_idem.
  rewrite <- (of_str_strip (Str.remove_char "," (Str.strip s))), strip_rc.
  destruct (Str.strip s) as [|c r] eqn:E1.
  - rewrite <- strip_rc, E1. reflexivity.
  - cbn [Str.is_empty].
    destruct (Str.strip (Str.remove_char "," s)) as [|c' r'] eqn:E2; reflexivity.
Qed.

Example safe_decimal_separators_ex :
  safe_decimal (Some "1,234.50") = safe_decimal (Some "1234.50").
Proof. vm_compute. reflexivity. Qed.

(** ** The loader *)

Section loader_facts.

Lemma fallback_loop header acc lines :
  foldl (Loader.fallback_step header) acc lines =
    acc ++ (Loader.dict_zip header <$>
              filter (fun parts => length parts = length header)
                     (Loader.fields <$> lines)).
Proof.
  revert acc. induction lines as [|ln lines IH]; intros acc; simpl.
  - by rewrite app_nil_r.
  - rewrite IH. unfold Loader.fallback_step at 1.
    rewrite filter_cons.
    destruct (decide (length (Loader.fields ln) ≠ length header)) as [Hne|Heq].
    + by rewrite decide_False.
    + apply dec_stable in Heq. rewrite decide_True by done.
      by rewrite fmap_cons, <- app_assoc.
Qed.

Lemma fallback_parse_spec text : Loader.fallback_parse text = fallback_spec text.
Proof.
  unfold Loader.fallback_parse, fallback_spec.
  destruct (filter _ _) as [|first rest]; [done|].
  apply fallback_loop.
Qed.

End loader_facts.

(** C8, as amended.  [download_csv] returns the empty list for an empty
    locator without fetching; when the fetch fails the error reaches the
    caller; when the reader gives up on the text, the fallback keeps the
    lines whose field count is the header's and drops the others, and the
    load succeeds. *)
Theorem download_csv_contract (urlopen : string -> result string)
    (DictReader : string -> result (list Row)) (url label : string) :
  Loader.download_csv urlopen DictReader "" label = Ok []
  ∧ (Str.is_empty url = false -> forall e, urlopen url = Raise e ->
       Loader.download_csv urlopen DictReader url label = Raise e)
  ∧ (Str.is_empty url = false -> forall text, urlopen url = Ok text ->
       DictReader text = Raise CsvError ->
       Loader.download_csv urlopen DictReader url label = Ok (fallback_spec text)).
Proof.
  unfold Loader.download_csv. split; [done|]. split.
  - intros -> e ->. reflexivity.
  - intros -> text -> Hr. cbn. rewrite Hr. by rewrite fallback_parse_spec.
Qed.

Lemma download_csv_contract_witness :
  Loader.download_csv demo_urlopen demo_reader
    "https://files.example/missing.csv" "ledger" = Raise URLError
  ∧ Loader.download_csv demo_urlopen demo_reader
      "https://files.example/ledger-cr.csv" "ledger"
    = Ok [mkrow [("Invoice Number", "INV-1"); ("Gross", "100.00")];
          mkrow [("Invoice Number", "INV-3"); ("Gross", "7.25")]].
Proof.
  split.
  - apply (download_csv_contract demo_urlopen demo_reader
             "https://files.example/missing.csv" "ledger"); reflexivity.
  - rewrite (proj2 (proj2 (download_csv_contract demo_urlopen demo_reader
               "https://files.example/ledger-cr.csv" "ledger")) eq_refl _ eq_refl eq_refl).
    vm_compute. reflexivity.
Defined.

(** On the same ledger served with plain line ends the reader succeeds,
    and the long line is kept. *)
Example download_csv_primary :
  Loader.download_csv demo_urlopen demo_reader
    "https://files.example/ledger.csv" "ledger"
  = Ok [mkrow [("Invoice Number", "INV-1"); ("Gross", "100.00")];
        mkrow [("Invoice Number", "INV-2"); ("Gross", "50")];
        mkrow [("Invoice Number", "INV-3"); ("Gross", "7.25")]].
Proof. vm_compute. reflexivity. Qed.

(** C8 as stated fails: an unreachable locator does not give the empty
    list, the error of the fetch is raised. *)
Lemma download_csv_unreachable_raises :
  ¬ (forall (urlopen : string -> result string)
            (DictReader : string -> result (list Row)) (url label : string),
       (url = "" ∨ exists e, urlopen url = Raise e) ->
       Loader.download_csv urlopen DictReader url label = Ok []).
Proof.
  intros H.
  specialize (H demo_urlopen demo_reader "https://files.example/missing.csv" "ledger").
  discriminate H. right. exists URLError. reflexivity.
Qed.

(** ** Index building *)

Lemma is_empty_true s : Str.is_empty s = true <-> s = "".
Proof. destruct s; simpl; split; congruence. Qed.

Lemma is_empty_false s : Str.is_empty s = false <-> s ≠ "".
Proof. destruct s; simpl; split; congruence. Qed.

Section index_facts.
Context (key : Row -> string).

Lemma index_fold_lookup acc rows k :
  k ≠ "" ->
  foldl (index_step key) acc rows !! k =
    match filter (fun r => key r = k) rows with
    | [] => acc !! k
    | l => Some (default [] (acc !! k) ++ l)
    end.
Proof.
  intros Hk. revert acc. induction rows as [|r rows IH]; intros acc; [done|].
  simpl. rewrite IH, filter_cons.
  assert (index_step key acc r !! k =
          if decide (key r = k) then Some (default [] (acc !! k) ++ [r])
          else acc !! k) as ->.
  { unfold index_step, setdefault_append. case_decide as Hkey.
    - subst k. apply is_empty_false in Hk. rewrite Hk.
      by rewrite lookup_insert_eq.
    - destruct (Str.is_empty (key r)); [done|]. by rewrite lookup_insert_ne. }
  case_decide; simpl; [|done].
  destruct (filter _ rows); [done|]. by rewrite <- app_assoc.
Qed.

Lemma index_fold_lookup_empty acc rows :
  acc !! "" = None -> foldl (index_step key) acc rows !! "" = None.
Proof.
  revert acc. induction rows as [|r rows IH]; intros acc Hacc; [done|].
  simpl. apply IH. unfold index_step.
  destruct (Str.is_empty (key r)) eqn:E; [done|].
  unfold setdefault_append. rewrite lookup_insert_ne; [done|].
  by apply is_empty_false.
Qed.

Lemma build_index_lookup rows k :
  build_index key rows !! k =
    if decide (k = "") then None
    else match filter (fun r => key r = k) rows with
         | [] => None
         | l => Some l
         end.
Proof.
  unfold build_index. case_decide as Hk.
  - subst. by apply index_fold_lookup_empty.
  - rewrite index_fold_lookup by done. by rewrite lookup_empty.
Qed.

Lemma build_index_Some rows k l :
  build_index key rows !! k = Some l ->
  k ≠ "" ∧ l = filter (fun r => key r = k) rows ∧ l ≠ [].
Proof.
  rewrite build_index_lookup. case_decide; [done|].
  destruct (filter _ rows) eqn:E; [done|]. intros [= <-]. done.
Qed.

Lemma build_index_dom rows k :
  k ∈ dom (build_index key rows) <-> k ≠ "" ∧ exists r, r ∈ rows ∧ key r = k.
Proof.
  rewrite elem_of_dom, build_index_lookup. case_decide as Hk.
  - split; [by intros [? ?]|by intros [? _]].
  - destruct (filter _ rows) as [|r l] eqn:E.
    + split; [by intros [? ?]|]. intros [_ (r & Hr & Hkey)].
      assert (r ∈ filter (fun r => key r = k) rows) as Hin
        by (apply list_elem_of_filter; done).
      rewrite E in Hin. inversion Hin.
    + split; [|by eauto]. intros _. split; [done|]. exists r.
      assert (r ∈ filter (fun r => key r = k) rows) as Hin
        by (rewrite E; left).
      apply list_elem_of_filter in Hin. destruct Hin. done.
Qed.

Lemma build_index_empty_key rows : "" ∉ dom (build_index key rows).
Proof. rewrite build_index_dom. by intros [? _]. Qed.

End index_facts.

Lemma build_ledger_index_eq rows :
  build_ledger_index rows = build_index ledger_invoice_key rows.
Proof. reflexivity. Qed.

Lemma build_manifest_index_eq rows :
  build_manifest_index rows = build_index manifest_guid_key rows.
Proof. reflexivity. Qed.

Lemma build_invoice_indices_eq rows :
  build_invoice_indices rows =
    (build_index invoice_guid_key rows, build_index invoice_number_key rows).
Proof.
  unfold build_invoice_indices, build_index.
  generalize (∅ : Index) at 1 3. generalize (∅ : Index).
  induction rows as [|r rows IH]; intros a b; [done|].
  simpl. by rewrite IH.
Qed.

(** ** The two passes *)

Section mapM_facts.
Context {A B : Type} (f : A -> result B).

Lemma mapM_Ok l k : mapM f l = Ok k <-> Forall2 (fun x y => f x = Ok y) l k.
Proof.
  revert k. induction l as [|x l IH]; intros k; simpl.
  - split; [intros [= <-]; constructor|by inversion 1].
  - split.
    + destruct (f x) as [y|e] eqn:Hx; [|done]. cbn.
      destruct (mapM f l) as [k'|e] eqn:Hl; [|done]. cbn.
      intros [= <-]. constructor; [done|]. by apply IH.
    + inversion 1 as [|? y ? k' Hx Hl]; subst. rewrite Hx. cbn.
      apply IH in Hl. rewrite Hl. reflexivity.
Qed.

Lemma mapM_all_ok l :
  Forall (fun x => exists y, f x = Ok y) l -> exists k, mapM f l = Ok k.
Proof.
  induction 1 as [|x l [y Hy] _ [k Hk]]; [by exists []|].
  exists (y :: k). simpl. rewrite Hy. cbn. rewrite Hk. reflexivity.
Qed.

Lemma Forall2_key_fmap (key : B -> A) l k :
  (forall x y, f x = Ok y -> key y = x) ->
  Forall2 (fun x y => f x = Ok y) l k -> key <$> k = l.
Proof.
  intros Hkey. induction 1 as [|x y l k Hx _ IH]; [done|].
  rewrite fmap_cons, IH. f_equal. by apply Hkey.
Qed.

End mapM_facts.

Section sorted_facts.

Lemma sorted_perm l : sorted l ≡ₚ l.
Proof. apply merge_sort_Permutation. Qed.

Lemma sorted_elem x l : x ∈ sorted l <-> x ∈ l.
Proof. by rewrite sorted_perm. Qed.

Lemma sorted_NoDup l : NoDup l -> NoDup (sorted l).
Proof. by rewrite sorted_perm. Qed.

Lemma sorted_length l : length (sorted l) = length l.
Proof. by rewrite sorted_perm. Qed.

Lemma sorted_le l : StronglySorted String.le (sorted l).
Proof. apply StronglySorted_merge_sort; apply _. Qed.

Lemma StronglySorted_strict (l : list string) :
  StronglySorted String.le l -> NoDup l -> StronglySorted (strict String.le) l.
Proof.
  induction 1 as [|x l Hl IH Hx]; intros Hnd; [constructor|].
  apply NoDup_cons in Hnd as [Hnin Hnd].
  constructor; [by apply IH|].
  rewrite Forall_forall in Hx |- *. intros y Hy. split; [by apply Hx|].
  intros Hyx. assert (x = y) as -> by (apply (anti_symm String.le); auto).
  done.
Qed.

Lemma sorted_strict l : NoDup l -> StronglySorted (strict String.le) (sorted l).
Proof. intros. apply StronglySorted_strict; [apply sorted_le|by apply sorted_NoDup]. Qed.

(** The sorted list does not depend on the order in which the set is
    enumerated. *)
Lemma sorted_order_irrelevant l1 l2 : l1 ≡ₚ l2 -> sorted l1 = sorted l2.
Proof.
  intros Hp. apply (StronglySorted_unique String.le); try apply sorted_le.
  by rewrite !sorted_perm.
Qed.

End sorted_facts.

Section pass_facts.
Context (year : string) (L I M : Index).

Lemma guid_record_Ok guid r :
  guid_record year L I M guid = Ok r ->
  exists lt tt g n s,
    sum_field (default [] (I !! guid)) line_candidates = Ok lt
    ∧ sum_field (default [] (I !! guid)) tax_candidates = Ok tt
    ∧ sum_field (ledger_rows_for L (guid_inv_num I guid)) gross_candidates = Ok g
    ∧ sum_field (ledger_rows_for L (guid_inv_num I guid)) net_candidates = Ok n
    ∧ sum_field (ledger_rows_for L (guid_inv_num I guid)) gst_candidates = Ok s
    ∧ Invoice_GUID r = guid
    ∧ Invoice_Number r = guid_inv_num I guid
    ∧ Invoice_Line_Count r = length (default [] (I !! guid))
    ∧ Invoice_Line_Total r = Dec.format_2f lt
    ∧ Invoice_Tax_Total r = Dec.format_2f tt
    ∧ In_Ledger r = yes_no (non_empty (ledger_rows_for L (guid_inv_num I guid)))
    ∧ Ledger_Row_Count r = length (ledger_rows_for L (guid_inv_num I guid))
    ∧ Ledger_Gross_AUD r = Dec.format_2f g
    ∧ Ledger_Net_AUD r = Dec.format_2f n
    ∧ Ledger_GST_AUD r = Dec.format_2f s
    ∧ In_Manifest r = yes_no (non_empty (default [] (M !! guid)))
    ∧ Manifest_Row_Count r = length (default [] (M !! guid))
    ∧ PDF_Present r = yes_no (non_empty (pdf_paths_of (default [] (M !! guid))))
    ∧ PDF_Count r = length (pdf_paths_of (default [] (M !! guid)))
    ∧ PDF_Paths r = join "; " (pdf_paths_of (default [] (M !! guid))).
Proof.
  unfold guid_record, guid_inv_num.
  destruct (sum_field _ line_candidates) as [lt|] eqn:E1; [cbn|done].
  destruct (sum_field _ tax_candidates) as [tt|] eqn:E2; [cbn|done].
  destruct (sum_field _ gross_candidates) as [g|] eqn:E3; [cbn|done].
  destruct (sum_field _ net_candidates) as [n|] eqn:E4; [cbn|done].
  destruct (sum_field _ gst_candidates) as [s|] eqn:E5; [cbn|done].
  intros [= <-]. exists lt, tt, g, n, s. cbn. repeat split; done.
Qed.

Lemma ledger_only_record_Ok k r :
  ledger_only_record year L k = Ok r ->
  exists g n s,
    sum_field (default [] (L !! k)) gross_candidates = Ok g
    ∧ sum_field (default [] (L !! k)) net_candidates = Ok n
    ∧ sum_field (default [] (L !! k)) gst_candidates = Ok s
    ∧ Invoice_GUID r = ""
    ∧ Invoice_Number r = k
    ∧ Ledger_Row_Count r = length (default [] (L !! k))
    ∧ Ledger_Gross_AUD r = Dec.format_2f g
    ∧ Ledger_Net_AUD r = Dec.format_2f n
    ∧ Ledger_GST_AUD r = Dec.format_2f s
    ∧ In_Ledger r = "Y".
Proof.
  unfold ledger_only_record.
  destruct (sum_field _ gross_candidates) as [g|] eqn:E3; [cbn|done].
  destruct (sum_field _ net_candidates) as [n|] eqn:E4; [cbn|done].
  destruct (sum_field _ gst_candidates) as [s|] eqn:E5; [cbn|done].
  intros [= <-]. exists g, n, s. cbn. repeat split; done.
Qed.

Lemma master_rows_Ok rows :
  master_rows year L I M = Ok rows <->
  exists p1 p2,
    rows = p1 ++ p2
    ∧ Forall2 (fun g r => guid_record year L I M g = Ok r)
        (sorted (elements (guid_keys I M))) p1
    ∧ Forall2 (fun k r => ledger_only_record year L k = Ok r)
        (sorted (elements (ledger_only_invnums L I))) p2.
Proof.
  unfold master_rows, pass1, pass2. split.
  - destruct (mapM (guid_record _ _ _ _) _) as [p1|] eqn:E1; [cbn|done].
    destruct (mapM (ledger_only_record _ _) _) as [p2|] eqn:E2; [cbn|done].
    intros [= <-]. exists p1, p2. by rewrite <- !mapM_Ok.
  - intros (p1 & p2 & -> & H1 & H2).
    apply mapM_Ok in H1, H2. rewrite H1. cbn. rewrite H2. reflexivity.
Qed.

Lemma pass1_guids p1 :
  Forall2 (fun g r => guid_record year L I M g = Ok r)
    (sorted (elements (guid_keys I M))) p1 ->
  Invoice_GUID <$> p1 = sorted (elements (guid_keys I M)).
Proof.
  apply Forall2_key_fmap. intros g r Hr.
  apply guid_record_Ok in Hr as (?&?&?&?&?&_&_&_&_&_&?&_). done.
Qed.

Lemma pass2_invnums p2 :
  Forall2 (fun k r => ledger_only_record year L k = Ok r)
    (sorted (elements (ledger_only_invnums L I))) p2 ->
  Invoice_Number <$> p2 = sorted (elements (ledger_only_invnums L I))
  ∧ Forall (fun r => Invoice_GUID r = "") p2.
Proof.
  intros H. split.
  - revert H. apply Forall2_key_fmap. intros k r Hr.
    apply ledger_only_record_Ok in Hr as (?&?&?&_&_&_&_&?&_). done.
  - induction H as [|k r ? ? Hr _ IH]; constructor; [|done].
    apply ledger_only_record_Ok in Hr as (?&?&?&_&_&_&?&_). done.
Qed.

Lemma elem_invnums_from_guid k :
  k ∈ invnums_from_guid I <->
  exists g r rest, I !! g = Some (r :: rest) ∧ k = invoice_number_key r.
Proof.
  unfold invnums_from_guid.
  rewrite elem_of_list_to_set, list_elem_of_fmap. split.
  - intros (rows & -> & Hin). apply list_elem_of_filter in Hin as [Hne Hin].
    apply list_elem_of_fmap in Hin as ([g rows'] & -> & Hin).
    apply elem_of_map_to_list in Hin. simpl in *.
    destruct rows' as [|r rest]; [done|]. by exists g, r, rest.
  - intros (g & r & rest & HI & ->). exists (r :: rest). split; [done|].
    apply list_elem_of_filter. split; [done|].
    apply list_elem_of_fmap. exists (g, r :: rest). split; [done|].
    by apply elem_of_map_to_list.
Qed.

End pass_facts.

(** ** Manifest and PDF fields *)

Section pdf_facts.

Lemma length_remove_dups (l : list string) : length (remove_dups l) <= length l.
Proof.
  induction l as [|x l IH]; simpl; [done|].
  destruct (decide_rel _ x l); simpl; lia.
Qed.

Lemma non_empty_true {A} (l : list A) : non_empty l = true <-> exists x, x ∈ l.
Proof.
  destruct l as [|x l]; simpl.
  - split; [done|]. intros [x Hx]. inversion Hx.
  - split; [|done]. intros _. exists x. left.
Qed.

Lemma yes_no_Y b : yes_no b = "Y" <-> b = true.
Proof. destruct b; simpl; split; congruence. Qed.

(** The paths of [pdf_paths_of] are the distinct non-empty paths of the
    rows, in some order. *)
Lemma pdf_paths_perm man_rows :
  pdf_paths_of man_rows ≡ₚ
    remove_dups (filter (fun p => p ≠ "") (manifest_pdf_path <$> man_rows)).
Proof.
  unfold pdf_paths_of. rewrite sorted_perm.
  rewrite (list_filter_iff _ (fun p => p ≠ "")) by (intros; apply is_empty_false).
  set (l := filter _ _).
  rewrite <- (elements_list_to_set (C := gset string) (remove_dups l))
    by apply NoDup_remove_dups.
  assert (list_to_set (C := gset string) (remove_dups l) = list_to_set l) as ->;
    [|done].
  apply set_eq. intros x. by rewrite !elem_of_list_to_set, elem_of_remove_dups.
Qed.

End pdf_facts.

(** C10. In a GUID-keyed record, [PDF_Present] is ["Y"] exactly when some
    manifest row of the GUID has a non-empty normalised PDF path,
    [PDF_Count] is the number of distinct such paths and is at most
    [Manifest_Row_Count]; a record can be in the manifest and have no PDF. *)
Theorem pdf_presence_and_count (year : string) (L I M : Index)
    (guid : string) (r : MasterRecord) :
  guid_record year L I M guid = Ok r ->
  let man_rows := default [] (M !! guid) in
  (PDF_Present r = "Y" <->
     exists row, row ∈ man_rows ∧ manifest_pdf_path row ≠ "")
  ∧ PDF_Count r =
      length (remove_dups
                (filter (fun p => p ≠ "") (manifest_pdf_path <$> man_rows)))
  ∧ PDF_Count r <= Manifest_Row_Count r
  ∧ exists r' : MasterRecord,
      guid_record "2016" ∅ ∅
        (build_manifest_index [mkrow [("Invoice ID", "guid-1")]]) "guid-1" = Ok r'
      ∧ In_Manifest r' = "Y" ∧ PDF_Present r' = "N" ∧ PDF_Count r' = 0.
Proof.
  intros Hr man_rows.
  pose proof Hr as
    (?&?&?&?&?&_&_&_&_&_&_&_&_&_&_&_&_&_&_&_&_&Hrows&Hpres&Hcount&_)%guid_record_Ok.
  fold man_rows in Hrows, Hpres, Hcount.
  pose proof (pdf_paths_perm man_rows) as Hperm.
  assert (PDF_Count r =
            length (remove_dups
              (filter (fun p => p ≠ "") (manifest_pdf_path <$> man_rows)))) as Hc.
  { rewrite Hcount. by rewrite Hperm. }
  split; [|split; [done|split]].
  - rewrite Hpres, yes_no_Y, non_empty_true. split.
    + intros [p Hp]. rewrite Hperm, elem_of_remove_dups in Hp.
      apply list_elem_of_filter in Hp as [Hne Hp].
      apply list_elem_of_fmap in Hp as (row & -> & Hrow). eauto.
    + intros (row & Hrow & Hne). exists (manifest_pdf_path row).
      rewrite Hperm, elem_of_remove_dups. apply list_elem_of_filter.
      split; [done|]. apply list_elem_of_fmap. eauto.
  - rewrite Hc, Hrows.
    etrans; [apply length_remove_dups|].
    etrans; [apply length_filter|]. by rewrite length_fmap.
  - eexists. split; [vm_compute; reflexivity|]. by vm_compute.
Qed.

Lemma pdf_presence_and_count_witness :
  exists r,
    guid_record "2016" ∅ ∅ demo_manifest_index "guid-1" = Ok r
    ∧ PDF_Count r = 1 ∧ Manifest_Row_Count r = 3
    ∧ PDF_Count r <= Manifest_Row_Count r.
Proof.
  eexists. split; [vm_compute; reflexivity|].
  split; [reflexivity|]. split; [reflexivity|].
  apply (pdf_presence_and_count "2016" ∅ ∅ demo_manifest_index "guid-1").
  vm_compute. reflexivity.
Defined.

(** ** Key sets and order of the master records *)

Section key_facts.
Context {B : Type} (f : string -> result B) (key : B -> string).
Hypothesis f_key : forall x y, f x = Ok y -> key y = x.

Lemma filter_key_absent xs ys x :
  Forall2 (fun x y => f x = Ok y) xs ys -> x ∉ xs ->
  filter (fun y => key y = x) ys = [].
Proof.
  induction 1 as [|x' y xs ys Hx _ IH]; intros Hnin; [done|].
  apply not_elem_of_cons in Hnin as [Hne Hnin].
  rewrite filter_cons, decide_False; [by apply IH|].
  rewrite (f_key _ _ Hx). congruence.
Qed.

Lemma filter_key_unique xs ys x r :
  Forall2 (fun x y => f x = Ok y) xs ys -> NoDup xs -> x ∈ xs ->
  f x = Ok r -> filter (fun y => key y = x) ys = [r].
Proof.
  induction 1 as [|x' y xs ys Hx Hrest IH]; intros Hnd Hin Hr.
  - inversion Hin.
  - apply NoDup_cons in Hnd as [Hnin Hnd]. rewrite filter_cons.
    destruct (decide (x' = x)) as [->|Hne].
    + rewrite decide_True by (by apply f_key).
      rewrite (filter_key_absent xs ys x) by done. congruence.
    + rewrite decide_False by (rewrite (f_key _ _ Hx); congruence).
      apply IH; [done| |done].
      apply elem_of_cons in Hin as [?|?]; [congruence|done].
Qed.

End key_facts.

Section keyed_rows.
Context (year : string) (ledger_rows invoice_rows manifest_rows : list Row).

Let L := build_ledger_index ledger_rows.
Let I := (build_invoice_indices invoice_rows).1.
Let M := build_manifest_index manifest_rows.

Lemma guid_keys_non_empty g : g ∈ guid_keys I M -> g ≠ "".
Proof.
  unfold guid_keys, I, M. rewrite build_invoice_indices_eq. simpl.
  rewrite elem_of_union.
  intros [H|H].
  - by apply (proj1 (build_index_dom invoice_guid_key _ _)) in H as [? _].
  - by apply (proj1 (build_index_dom manifest_guid_key _ _)) in H as [? _].
Qed.

Lemma ledger_keys_non_empty k : k ∈ dom L -> k ≠ "".
Proof.
  intros H.
  by apply (proj1 (build_index_dom ledger_invoice_key _ _)) in H as [? _].
Qed.

Lemma pass1_guid_non_empty p1 :
  Forall2 (fun g r => guid_record year L I M g = Ok r)
    (sorted (elements (guid_keys I M))) p1 ->
  Forall (fun r => Invoice_GUID r ≠ "") p1.
Proof.
  intros H. apply pass1_guids in H.
  apply Forall_forall. intros r Hr.
  apply guid_keys_non_empty. apply elem_of_elements, sorted_elem.
  rewrite <- H. by apply list_elem_of_fmap_2.
Qed.

(** The split of the output into its two groups. *)
Lemma master_rows_groups rows :
  master_rows year L I M = Ok rows ->
  exists p1 p2,
    rows = p1 ++ p2
    ∧ filter (fun r => Invoice_GUID r ≠ "") rows = p1
    ∧ filter (fun r => Invoice_GUID r = "") rows = p2
    ∧ Invoice_GUID <$> p1 = sorted (elements (guid_keys I M))
    ∧ Invoice_Number <$> p2 = sorted (elements (ledger_only_invnums L I))
    ∧ Forall2 (fun g r => guid_record year L I M g = Ok r)
        (sorted (elements (guid_keys I M))) p1
    ∧ Forall2 (fun k r => ledger_only_record year L k = Ok r)
        (sorted (elements (ledger_only_invnums L I))) p2.
Proof.
  intros (p1 & p2 & -> & H1 & H2)%master_rows_Ok.
  pose proof (pass1_guid_non_empty _ H1) as Hg1.
  pose proof (pass2_invnums _ _ _ _ H2) as [Hk2 Hg2].
  exists p1, p2. rewrite !filter_app.
  assert (filter (fun r => Invoice_GUID r ≠ "") p1 = p1) as ->.
  { clear -Hg1. induction Hg1 as [|r p1 Hr _ IH]; [done|].
    by rewrite filter_cons, decide_True, IH. }
  assert (filter (fun r => Invoice_GUID r ≠ "") p2 = []) as ->.
  { clear -Hg2. induction Hg2 as [|r p2 Hr _ IH]; [done|].
    rewrite filter_cons, decide_False, IH; [done|]. by intros []. }
  assert (filter (fun r => Invoice_GUID r = "") p1 = []) as ->.
  { clear -Hg1. induction Hg1 as [|r p1 Hr _ IH]; [done|].
    by rewrite filter_cons, decide_False, IH. }
  assert (filter (fun r => Invoice_GUID r = "") p2 = p2) as ->.
  { clear -Hg2. induction Hg2 as [|r p2 Hr _ IH]; [done|].
    by rewrite filter_cons, decide_True, IH. }
  rewrite app_nil_r. repeat split; try done.
  by apply (pass1_guids year L).
Qed.

End keyed_rows.

Lemma build_index_first key rows k l :
  build_index key rows !! k = Some l -> exists r rest, l = r :: rest.
Proof.
  intros (_ & _ & Hne)%build_index_Some. destruct l as [|r rest]; [done|eauto].
Qed.

Lemma invoice_number_key_empty : invoice_number_key ∅ = "".
Proof. reflexivity. Qed.

(** C2. The GUIDs of the GUID-keyed records are the keys of the two GUID
    indices, each once; the invoice numbers of the ledger-only records are
    the ledger keys that no GUID group derives from its first row, each
    once; and neither a GUID nor an invoice number occurs in both groups. *)
Theorem master_key_sets (year : string)
    (ledger_rows invoice_rows manifest_rows : list Row)
    (rows : list MasterRecord) :
  let L := build_ledger_index ledger_rows in
  let I := (build_invoice_indices invoice_rows).1 in
  let M := build_manifest_index manifest_rows in
  master_rows year L I M = Ok rows ->
  let guid_keyed := filter (fun r => Invoice_GUID r ≠ "") rows in
  let ledger_only := filter (fun r => Invoice_GUID r = "") rows in
  Invoice_GUID <$> guid_keyed ≡ₚ elements (dom I ∪ dom M)
  ∧ Invoice_Number <$> ledger_only ≡ₚ elements (dom L ∖ invnums_from_guid I)
  ∧ (forall k, k ∈ invnums_from_guid I <->
       exists g r rest, I !! g = Some (r :: rest) ∧ k = invoice_number_key r)
  ∧ (forall r1 r2, r1 ∈ guid_keyed -> r2 ∈ ledger_only ->
       Invoice_GUID r1 ≠ Invoice_GUID r2
       ∧ Invoice_Number r1 ≠ Invoice_Number r2).
Proof.
  intros L I M Hrows guid_keyed ledger_only.
  destruct (master_rows_groups _ _ _ _ _ Hrows)
    as (p1 & p2 & _ & Hf1 & Hf2 & Hg & Hn & H1 & H2).
  fold L I M in Hf1, Hf2, Hg, Hn, H1, H2.
  unfold guid_keyed, ledger_only. rewrite Hf1, Hf2, Hg, Hn.
  split; [apply sorted_perm|]. split; [apply sorted_perm|].
  split; [apply elem_invnums_from_guid|].
  intros r1 r2 Hr1 Hr2.
  assert (Invoice_GUID r2 = "") as Hg2.
  { destruct (pass2_invnums _ _ _ _ H2) as [_ HF].
    rewrite Forall_forall in HF. by apply HF. }
  assert (Invoice_Number r2 ∈ dom L ∖ invnums_from_guid I) as Hk2.
  { apply elem_of_elements, sorted_elem. fold (ledger_only_invnums L I).
    rewrite <- Hn. by apply list_elem_of_fmap_2. }
  apply elem_of_difference in Hk2 as [HkL Hknot].
  apply (ledger_keys_non_empty ledger_rows) in HkL.
  destruct (proj1 (list_elem_of_lookup _ _) Hr1) as [i Hi].
  destruct (Forall2_lookup_r _ _ _ _ _ H1 Hi) as (g & Hgi & Hrec).
  apply guid_record_Ok in Hrec
    as (?&?&?&?&?&_&_&_&_&_&Hguid&Hnum&_).
  assert (g ∈ guid_keys I M) as Hgin.
  { apply elem_of_elements, sorted_elem. by eapply list_elem_of_lookup_2. }
  split.
  - rewrite Hg2, Hguid. by apply (guid_keys_non_empty invoice_rows manifest_rows).
  - rewrite Hnum. unfold guid_inv_num. intros Heq.
    destruct (I !! g) as [l|] eqn:HI; simpl in Heq.
    + unfold I in HI. rewrite build_invoice_indices_eq in HI. simpl in HI.
      destruct (build_index_first _ _ _ _ HI) as (r & rest & ->).
      apply Hknot, elem_invnums_from_guid. exists g, r, rest. split; [|done].
      unfold I. by rewrite build_invoice_indices_eq.
    + rewrite invoice_number_key_empty in Heq. congruence.
Qed.

(** C4. The master records are the GUID-keyed records in strictly
    ascending order of GUID followed by the ledger-only records in strictly
    ascending order of invoice number; the order in which the key sets are
    enumerated has no influence on the result, and a second run on the same
    row lists writes the same CSV text. *)
Theorem master_rows_order (year : string)
    (ledger_rows invoice_rows manifest_rows : list Row)
    (rows : list MasterRecord) :
  let L := build_ledger_index ledger_rows in
  let I := (build_invoice_indices invoice_rows).1 in
  let M := build_manifest_index manifest_rows in
  master_rows year L I M = Ok rows ->
  exists p1 p2,
    rows = p1 ++ p2
    ∧ Forall (fun r => Invoice_GUID r ≠ "") p1
    ∧ Forall (fun r => Invoice_GUID r = "") p2
    ∧ StronglySorted (strict String.le) (Invoice_GUID <$> p1)
    ∧ StronglySorted (strict String.le) (Invoice_Number <$> p2)
    ∧ (forall ks, ks ≡ₚ elements (guid_keys I M) ->
         Invoice_GUID <$> p1 = sorted ks)
    ∧ (forall ks, ks ≡ₚ elements (ledger_only_invnums L I) ->
         Invoice_Number <$> p2 = sorted ks)
    ∧ (forall rows', master_rows year L I M = Ok rows' ->
         Emit.write_csv rows' = Emit.write_csv rows).
Proof.
  intros L I M Hrows.
  destruct (master_rows_groups _ _ _ _ _ Hrows)
    as (p1 & p2 & -> & _ & _ & Hg & Hn & H1 & H2).
  fold L I M in Hg, Hn, H1, H2.
  exists p1, p2. split; [done|].
  split; [by apply (pass1_guid_non_empty year ledger_rows invoice_rows manifest_rows)|].
  split; [by apply (pass2_invnums year L I)|].
  rewrite Hg, Hn.
  split; [apply sorted_strict, NoDup_elements|].
  split; [apply sorted_strict, NoDup_elements|].
  split; [intros ks Hks; by apply sorted_order_irrelevant|].
  split; [intros ks Hks; by apply sorted_order_irrelevant|].
  intros rows' Hrows'. rewrite Hrows in Hrows'. by injection Hrows' as <-.
Qed.

Lemma demo_master_rows_Ok : demo_master_rows = Ok demo_rows.
Proof. vm_compute. reflexivity. Qed.

Lemma master_key_sets_witness :
  exists rows,
    demo_master_rows = Ok rows
    ∧ Invoice_GUID <$> filter (fun r => Invoice_GUID r ≠ "") rows = ["guid-1"; "guid-2"]
    ∧ Invoice_Number <$> filter (fun r => Invoice_GUID r = "") rows = ["INV-2"]
    ∧ Invoice_GUID <$> filter (fun r => Invoice_GUID r ≠ "") rows
        ≡ₚ elements (dom (build_invoice_indices demo_invoice_rows).1
                       ∪ dom (build_manifest_index demo_manifest_rows)).
Proof.
  eexists. split; [apply demo_master_rows_Ok|].
  split; [vm_compute; reflexivity|]. split; [vm_compute; reflexivity|].
  apply (master_key_sets "2016" demo_ledger_rows demo_invoice_rows
           demo_manifest_rows _ demo_master_rows_Ok).
Defined.

Lemma master_rows_order_witness :
  exists p1 p2,
    demo_master_rows = Ok (p1 ++ p2)
    ∧ StronglySorted (strict String.le) (Invoice_GUID <$> p1)
    ∧ StronglySorted (strict String.le) (Invoice_Number <$> p2).
Proof.
  destruct (master_rows_order "2016" demo_ledger_rows demo_invoice_rows
              demo_manifest_rows _ demo_master_rows_Ok)
    as (p1 & p2 & Heq & _ & _ & Hs1 & Hs2 & _).
  exists p1, p2. split; [|done].
  rewrite <- Heq. apply demo_master_rows_Ok.
Defined.

(** ** GUIDs known to the manifest only *)

Lemma sum_field_nil candidates : sum_field [] candidates = Ok Dec.zero.
Proof. reflexivity. Qed.

(** C9. A GUID that the manifest has and the invoice master has not still
    gets its record in pass 1, exactly one, with empty invoice attributes,
    no invoice lines, zero invoice and ledger totals and [In_Ledger] ["N"]. *)
Theorem manifest_only_guid (year : string)
    (ledger_rows invoice_rows manifest_rows : list Row) (guid : string) :
  let L := build_ledger_index ledger_rows in
  let I := (build_invoice_indices invoice_rows).1 in
  let M := build_manifest_index manifest_rows in
  guid ∈ dom M -> guid ∉ dom I ->
  exists r,
    guid_record year L I M guid = Ok r
    ∧ Invoice_GUID r = guid
    ∧ Invoice_Number r = "" ∧ Invoice_Type r = "" ∧ Invoice_Date r = ""
    ∧ Invoice_Contact r = "" ∧ Invoice_Description r = ""
    ∧ Invoice_Currency r = ""
    ∧ Invoice_Line_Count r = 0
    ∧ Invoice_Line_Total r = "0.00" ∧ Invoice_Tax_Total r = "0.00"
    ∧ In_Ledger r = "N"
    ∧ Ledger_Gross_AUD r = "0.00" ∧ Ledger_Net_AUD r = "0.00"
    ∧ Ledger_GST_AUD r = "0.00"
    ∧ In_Manifest r = "Y"
    ∧ (forall rows, master_rows year L I M = Ok rows ->
         filter (fun r' => Invoice_GUID r' = guid) rows = [r]).
Proof.
  intros L I M HM HI.
  apply not_elem_of_dom in HI.
  apply elem_of_dom in HM as [man_rows HM].
  assert (exists m rest, man_rows = m :: rest) as (m & rest & ->)
    by (by eapply build_index_first).
  assert (guid ≠ "") as Hne
    by (by apply (build_index_Some manifest_guid_key manifest_rows _ _) in HM as [? _]).
  eexists. split.
  { unfold guid_record. rewrite HI, HM. cbn [default first_or_empty].
    rewrite invoice_number_key_empty. unfold ledger_rows_for. cbn [Str.is_empty].
    rewrite !sum_field_nil. cbn. reflexivity. }
  cbn. repeat (split; [reflexivity|]).
  intros rows Hrows.
  destruct (master_rows_groups _ _ _ _ _ Hrows)
    as (p1 & p2 & -> & _ & _ & Hg & _ & H1 & H2).
  fold L I M in Hg, H1, H2.
  rewrite filter_app.
  assert (filter (fun r' => Invoice_GUID r' = guid) p2 = []) as ->.
  { destruct (pass2_invnums _ _ _ _ H2) as [_ HF]. clear -HF Hne.
    induction HF as [|r p2 Hr _ IH]; [done|].
    rewrite filter_cons, decide_False, IH; [done|]. congruence. }
  rewrite app_nil_r.
  eapply (filter_key_unique (guid_record year L I M) Invoice_GUID); [|exact H1| | |].
  - intros g r Hr.
    by apply guid_record_Ok in Hr as (?&?&?&?&?&_&_&_&_&_&?&_).
  - apply sorted_NoDup, NoDup_elements.
  - apply sorted_elem, elem_of_elements. unfold guid_keys.
    apply elem_of_union_r, elem_of_dom. eauto.
  - unfold guid_record. rewrite HI, HM. cbn [default first_or_empty].
    rewrite invoice_number_key_empty. unfold ledger_rows_for. cbn [Str.is_empty].
    rewrite !sum_field_nil. cbn. reflexivity.
Qed.

Lemma manifest_only_guid_witness :
  exists r,
    guid_record "2016" (build_ledger_index demo_ledger_rows)
      (build_invoice_indices demo_invoice_rows).1
      (build_manifest_index demo_manifest_rows) "guid-2" = Ok r
    ∧ Invoice_Number r = "" ∧ In_Ledger r = "N" ∧ Ledger_Gross_AUD r = "0.00"
    ∧ filter (fun r' => Invoice_GUID r' = "guid-2") demo_rows = [r].
Proof.
  destruct (manifest_only_guid "2016" demo_ledger_rows demo_invoice_rows
              demo_manifest_rows "guid-2")
    as (r & Hr & _ & Hnum & _ & _ & _ & _ & _ & _ & _ & _ & Hin & Hgross & _ & _ & _ & Hone).
  - vm_compute. reflexivity.
  - vm_compute. intros H. discriminate H.
  - exists r. repeat (split; [assumption|]).
    apply Hone, demo_master_rows_Ok.
Defined.

(** ** Exact decimal arithmetic on plain amounts *)

Section digits_facts.
Local Open Scope Z_scope.

Lemma pow10_Z k : 0 <= k -> Z.of_N (Dec.pow10 k) = 10 ^ k.
Proof.
  intros Hk. unfold Dec.pow10. rewrite N2Z.inj_pow, Z2N.id by done. reflexivity.
Qed.

Lemma ndigits_go_pos fuel n : (1 <= Dec.ndigits_go fuel n)%nat.
Proof. destruct fuel; simpl; [lia|]. destruct (n <? 10)%N; lia. Qed.

Lemma ndigits_go_spec fuel n :
  Z.of_N n < 2 ^ Z.of_nat fuel -> n ≠ 0%N ->
  10 ^ (Z.of_nat (Dec.ndigits_go fuel n) - 1) <= Z.of_N n
    < 10 ^ Z.of_nat (Dec.ndigits_go fuel n).
Proof.
  revert n. induction fuel as [|fuel IH]; intros n Hsize Hn.
  - simpl in Hsize. lia.
  - simpl. destruct (N.ltb_spec n 10) as [Hlt|Hge].
    + simpl. lia.
    + rewrite Nat2Z.inj_succ, Z.pow_succ_r in Hsize by lia.
      pose proof (Z.div_mod (Z.of_N n) 10 ltac:(lia)) as Hdm.
      pose proof (Z.mod_pos_bound (Z.of_N n) 10 ltac:(lia)) as Hmb.
      assert (Z.of_N (n / 10) = Z.of_N n / 10) as Hdiv by apply N2Z.inj_div.
      assert (n / 10 ≠ 0)%N as Hq by lia.
      assert (Z.of_N (n / 10) < 2 ^ Z.of_nat fuel) as Hs by lia.
      specialize (IH _ Hs Hq).
      pose proof (ndigits_go_pos fuel (n / 10)) as Hpos.
      rewrite Nat2Z.inj_succ.
      replace (Z.succ (Z.of_nat (Dec.ndigits_go fuel (n / 10))) - 1)
        with (Z.succ (Z.of_nat (Dec.ndigits_go fuel (n / 10)) - 1)) by lia.
      rewrite !Z.pow_succ_r by lia. lia.
Qed.

Lemma ndigits_pos n : 1 <= Dec.ndigits n.
Proof. unfold Dec.ndigits. pose proof (ndigits_go_pos (S (N.to_nat (N.log2 n))) n). lia. Qed.

Lemma ndigits_spec n :
  n ≠ 0%N -> 10 ^ (Dec.ndigits n - 1) <= Z.of_N n < 10 ^ Dec.ndigits n.
Proof.
  intros Hn. apply ndigits_go_spec; [|done].
  destruct (N.log2_spec n ltac:(lia)) as [_ Hlt].
  rewrite Nat2Z.inj_succ, N_nat_Z, <- N2Z.inj_succ.
  change 2 with (Z.of_N 2). rewrite <- N2Z.inj_pow. lia.
Qed.

(** A coefficient below 10^k has at most k digits. *)
Lemma ndigits_le n k : 0 < k -> Z.of_N n < 10 ^ k -> Dec.ndigits n <= k.
Proof.
  intros Hk Hn. destruct (decide (n = 0%N)) as [->|Hne]; [change (Dec.ndigits 0) with 1; lia|].
  destruct (ndigits_spec n Hne) as [Hlo _].
  destruct (Z_le_gt_dec (Dec.ndigits n) k) as [|Hgt]; [done|exfalso].
  assert (10 ^ k <= 10 ^ (Dec.ndigits n - 1)) by (apply Z.pow_le_mono_r; lia).
  lia.
Qed.

End digits_facts.

Section plain_arithmetic.
Local Open Scope Z_scope.
Variable K : Z.
Hypothesis K_range : 0 <= K <= 999000.

Lemma plain_units_Some d u :
  plain_units K d = Some u ->
  exists s c e, d = Finite s c e ∧ - K <= e <= 0
                ∧ u = sign_factor s * Z.of_N c * 10 ^ (e + K).
Proof.
  destruct d as [s c e| | |]; simpl; try done.
  destruct (Z.leb_spec (- K) e), (Z.leb_spec e 0); simpl; try done.
  intros [= <-]. exists s, c, e. auto.
Qed.

Lemma plain_units_Finite s c e :
  - K <= e <= 0 ->
  plain_units K (Finite s c e) = Some (sign_factor s * Z.of_N c * 10 ^ (e + K)).
Proof.
  intros [H1 H2]. simpl.
  destruct (Z.leb_spec (- K) e), (Z.leb_spec e 0); simpl; try lia. done.
Qed.

Lemma abs_units s c j : 0 <= j ->
  Z.abs (sign_factor s * Z.of_N c * 10 ^ j) = Z.of_N c * 10 ^ j.
Proof.
  intros Hj. assert (0 < 10 ^ j) by (by apply Z.pow_pos_nonneg).
  destruct s; simpl sign_factor; nia.
Qed.

Lemma digits_scaled_bound c j :
  c ≠ 0%N -> 0 <= j -> Z.of_N c * 10 ^ j < 10 ^ 28 -> Dec.ndigits c + j <= 28.
Proof.
  intros Hc Hj Hlt. destruct (ndigits_spec c Hc) as [Hlo _].
  pose proof (ndigits_pos c) as Hpos.
  assert (10 ^ (Dec.ndigits c - 1 + j) < 10 ^ 28) as Hpow.
  { rewrite Z.pow_add_r by lia.
    assert (0 < 10 ^ j) by (by apply Z.pow_pos_nonneg). nia. }
  apply Z.pow_lt_mono_r_iff in Hpow; lia.
Qed.

(** A coefficient that fits the precision is left alone by [_fix]. *)
Lemma fix_plain s c e :
  - K <= e <= 0 -> Z.of_N c * 10 ^ (e + K) < 10 ^ 28 ->
  Dec.fix_ (Finite s c e) = Ok (Finite s c e).
Proof.
  intros He Hlt. unfold Dec.fix_.
  destruct (N.eqb_spec c 0) as [->|Hc].
  - unfold Dec.Etiny, Dec.Emin, Dec.Emax, Dec.prec. do 3 f_equal. lia.
  - pose proof (digits_scaled_bound c (e + K) Hc ltac:(lia) Hlt) as Hd.
    unfold Dec.Etop, Dec.Etiny, Dec.Emin, Dec.Emax, Dec.prec.
    destruct (Z.ltb_spec (999999 - 28 + 1) (Dec.ndigits c + e - 28)); [lia|].
    destruct (Z.ltb_spec e (Z.max (Dec.ndigits c + e - 28) (-999999 - 28 + 1)));
      [lia|done].
Qed.

Lemma normalize_plain c1 e1 c2 e2 :
  c1 ≠ 0%N -> c2 ≠ 0%N -> - K <= e1 <= 0 -> - K <= e2 <= 0 ->
  Z.of_N c1 * 10 ^ (e1 + K) < 10 ^ 28 ->
  Z.of_N c2 * 10 ^ (e2 + K) < 10 ^ 28 ->
  exists n1 n2 e,
    Dec.normalize c1 e1 c2 e2 = ((n1, n2), e)
    ∧ e = Z.min e1 e2
    ∧ Z.of_N n1 * 10 ^ (e + K) = Z.of_N c1 * 10 ^ (e1 + K)
    ∧ Z.of_N n2 * 10 ^ (e + K) = Z.of_N c2 * 10 ^ (e2 + K).
Proof.
  intros Hc1 Hc2 He1 He2 H1 H2.
  pose proof (digits_scaled_bound c1 (e1 + K) Hc1 ltac:(lia) H1) as Hd1.
  pose proof (digits_scaled_bound c2 (e2 + K) Hc2 ltac:(lia) H2) as Hd2.
  pose proof (ndigits_pos c1). pose proof (ndigits_pos c2).
  unfold Dec.normalize, Dec.prec.
  destruct (Z.ltb_spec e1 e2) as [Hlt|Hge].
  - destruct (Z.ltb_spec (Dec.ndigits c1 + e1 - 1)
                (e2 + Z.min (-1) (Dec.ndigits c2 - 28 - 2))); [lia|].
    exists c1, (c2 * Dec.pow10 (e2 - e1))%N, e1.
    split; [done|]. split; [lia|]. split; [done|].
    rewrite N2Z.inj_mul, pow10_Z by lia.
    replace (e2 + K) with ((e2 - e1) + (e1 + K)) by lia.
    rewrite (Z.pow_add_r 10 (e2 - e1)) by lia. ring.
  - destruct (Z.ltb_spec (Dec.ndigits c2 + e2 - 1)
                (e1 + Z.min (-1) (Dec.ndigits c1 - 28 - 2))); [lia|].
    exists (c1 * Dec.pow10 (e1 - e2))%N, c2, e2.
    split; [done|]. split; [lia|]. split; [|done].
    rewrite N2Z.inj_mul, pow10_Z by lia.
    replace (e1 + K) with ((e1 - e2) + (e2 + K)) by lia.
    rewrite (Z.pow_add_r 10 (e1 - e2)) by lia. ring.
Qed.

Lemma rescale_pad s c e e' :
  c ≠ 0%N -> e' <= e ->
  Dec.rescale (Finite s c e) e' = Finite s (c * Dec.pow10 (e - e')) e'.
Proof.
  intros Hc He. unfold Dec.rescale.
  destruct (N.eqb_spec c 0); [done|].
  destruct (Z.leb_spec e' e); [done|lia].
Qed.

(** Adding a plain amount to a zero. *)
Lemma add_zero_plain s c e e0 :
  c ≠ 0%N -> - K <= e <= 0 -> - K <= e0 <= 0 ->
  Z.of_N c * 10 ^ (e + K) < 10 ^ 28 ->
  exists d,
    Dec.fix_ (Dec.rescale (Finite s c e)
                (Z.max (Z.min e0 e) (e - Dec.prec - 1))) = Ok d
    ∧ plain_units K d = Some (sign_factor s * Z.of_N c * 10 ^ (e + K)).
Proof.
  intros Hc He He0 Hlt.
  set (e' := Z.max (Z.min e0 e) (e - Dec.prec - 1)).
  assert (- K <= e' <= e) as He' by (unfold e', Dec.prec; lia).
  rewrite rescale_pad by (done || lia).
  assert (Z.of_N (c * Dec.pow10 (e - e')) * 10 ^ (e' + K)
          = Z.of_N c * 10 ^ (e + K)) as Hval.
  { rewrite N2Z.inj_mul, pow10_Z by lia.
    replace (e + K) with ((e - e') + (e' + K)) by lia.
    rewrite (Z.pow_add_r 10 (e - e')) by lia. ring. }
  eexists. split.
  - apply fix_plain; [lia|]. by rewrite Hval.
  - rewrite plain_units_Finite by lia. f_equal.
    rewrite <- Z.mul_assoc, Hval. ring.
Qed.

(** The sum of two plain amounts is exact as long as it fits. *)
Lemma add_plain a b ua ub :
  plain_units K a = Some ua -> plain_units K b = Some ub ->
  Z.abs ua + Z.abs ub < 10 ^ 28 ->
  exists d, Dec.add a b = Ok d ∧ plain_units K d = Some (ua + ub).
Proof.
  intros (sa & ca & ea & -> & Hea & ->)%plain_units_Some
         (sb & cb & eb & -> & Heb & ->)%plain_units_Some Hsum.
  rewrite !abs_units in Hsum by lia.
  assert (0 < 10 ^ (ea + K)) as Hpa by (apply Z.pow_pos_nonneg; lia).
  assert (0 < 10 ^ (eb + K)) as Hpb by (apply Z.pow_pos_nonneg; lia).
  assert (0 <= Z.of_N ca * 10 ^ (ea + K)) as Hna by nia.
  assert (0 <= Z.of_N cb * 10 ^ (eb + K)) as Hnb by nia.
  simpl Dec.add. unfold Dec.add_finite.
  destruct (N.eqb_spec ca 0) as [->|Hca], (N.eqb_spec cb 0) as [->|Hcb];
    cbn [andb].
  - eexists. split.
    + apply fix_plain; [lia|]. simpl. lia.
    + rewrite plain_units_Finite by lia. f_equal. simpl. lia.
  - destruct (add_zero_plain sb cb eb ea Hcb Heb Hea ltac:(lia)) as (d & Hd & Hu).
    exists d. split; [done|]. rewrite Hu. f_equal. simpl. lia.
  - destruct (add_zero_plain sa ca ea eb Hca Hea Heb ltac:(lia)) as (d & Hd & Hu).
    exists d. split; [by rewrite Z.min_comm|]. rewrite Hu. f_equal. simpl. lia.
  - destruct (normalize_plain ca ea cb eb Hca Hcb Hea Heb ltac:(lia) ltac:(lia))
      as (n1 & n2 & e & -> & He & Hn1 & Hn2).
    assert (- K <= e <= 0) as Hee by lia.
    assert (0 < 10 ^ (e + K)) as Hpe by (apply Z.pow_pos_nonneg; lia).
    destruct (Bool.eqb sa sb) eqn:Hs.
    + apply Bool.eqb_prop in Hs as <-.
      eexists. split.
      * apply fix_plain; [done|]. rewrite N2Z.inj_add. nia.
      * rewrite plain_units_Finite by done. f_equal.
        rewrite N2Z.inj_add. destruct sa; simpl sign_factor; nia.
    + destruct (N.eqb_spec n1 n2) as [->|Hne].
      * eexists. split.
        -- apply fix_plain; [lia|]. simpl. lia.
        -- rewrite plain_units_Finite by lia. f_equal.
           destruct sa, sb; simpl in Hs; try done; simpl sign_factor; nia.
      * destruct (N.ltb_spec n1 n2) as [Hlt|Hge].
        -- eexists. split.
           ++ apply fix_plain; [done|]. rewrite N2Z.inj_sub by lia. nia.
           ++ rewrite plain_units_Finite by done. f_equal.
              rewrite N2Z.inj_sub by lia.
              destruct sa, sb; simpl in Hs; try done; simpl sign_factor; nia.
        -- eexists. split.
           ++ apply fix_plain; [done|]. rewrite N2Z.inj_sub by lia. nia.
           ++ rewrite plain_units_Finite by done. f_equal.
              rewrite N2Z.inj_sub by lia.
              destruct sa, sb; simpl in Hs; try done; simpl sign_factor; nia.
Qed.

End plain_arithmetic.

Section plain_columns.
Local Open Scope Z_scope.
Variable K : Z.
Hypothesis K_range : 0 <= K <= 999000.
Variable candidates : list string.

Lemma magnitude_cons row rows m :
  magnitude K candidates (row :: rows) = Some m ->
  exists u m', row_units K candidates row = Some u
               ∧ magnitude K candidates rows = Some m'
               ∧ m = Z.abs u + m'.
Proof.
  simpl. destruct (row_units K candidates row) as [u|]; [|done].
  destruct (magnitude K candidates rows) as [m'|]; [|done].
  intros [= <-]. eauto.
Qed.

Lemma magnitude_nonneg rows m : magnitude K candidates rows = Some m -> 0 <= m.
Proof.
  revert m. induction rows as [|row rows IH]; intros m.
  - intros [= <-]. lia.
  - intros (u & m' & _ & Hm' & ->)%magnitude_cons. specialize (IH _ Hm'). lia.
Qed.

Lemma magnitude_filter (P : Row -> Prop) `{forall r, Decision (P r)} rows m :
  magnitude K candidates rows = Some m ->
  exists m', magnitude K candidates (filter P rows) = Some m' ∧ m' <= m.
Proof.
  revert m. induction rows as [|row rows IH]; intros m.
  - intros [= <-]. exists 0. done.
  - intros (u & m1 & Hu & Hm1 & ->)%magnitude_cons.
    destruct (IH _ Hm1) as (m2 & Hm2 & Hle).
    rewrite filter_cons. case_decide.
    + exists (Z.abs u + m2). simpl. rewrite Hu, Hm2. split; [done|lia].
    + exists m2. split; [done|lia].
Qed.

Lemma plain_column_filter (P : Row -> Prop) `{forall r, Decision (P r)} rows :
  plain_column K candidates rows -> plain_column K candidates (filter P rows).
Proof.
  intros (m & Hm & Hlt). destruct (magnitude_filter P rows m Hm) as (m' & Hm' & Hle).
  exists m'. split; [done|lia].
Qed.

Lemma plain_column_nil : plain_column K candidates [].
Proof. exists 0. split; [done|lia]. Qed.

Lemma sum_loop_plain rows total ut m :
  plain_units K total = Some ut ->
  magnitude K candidates rows = Some m ->
  Z.abs ut + m < 10 ^ 28 ->
  exists d, sum_loop candidates total rows = Ok d
            ∧ plain_units K d = Some (ut + exact_total K candidates rows).
Proof.
  revert total ut m. induction rows as [|row rows IH]; intros total ut m Ht Hm Hlt.
  - exists total. split; [done|]. simpl. by rewrite Z.add_0_r.
  - apply magnitude_cons in Hm as (u & m' & Hu & Hm' & ->).
    pose proof (magnitude_nonneg _ _ Hm') as Hnn.
    simpl. rewrite Hu. simpl. unfold sum_step, row_units in *.
    destruct (amount_cell row candidates) as [v|].
    + destruct (safe_decimal v) as [d|] eqn:Hd; [|done]. cbn.
      destruct (add_plain K K_range total d ut u Ht Hu ltac:(lia))
        as (t' & -> & Ht'). cbn.
      destruct (IH t' (ut + u) m' Ht' Hm' ltac:(lia)) as (r & Hr & Hur).
      exists r. split; [done|]. rewrite Hur. f_equal; lia.
    + injection Hu as <-. cbn.
      destruct (IH total ut m' Ht Hm' ltac:(lia)) as (r & Hr & Hur).
      exists r. split; [done|]. rewrite Hur. f_equal; lia.
Qed.

(** On a plain column [sum_field] returns, and returns the exact sum. *)
Lemma sum_field_plain rows :
  plain_column K candidates rows ->
  exists d, sum_field rows candidates = Ok d
            ∧ plain_units K d = Some (exact_total K candidates rows).
Proof.
  intros (m & Hm & Hlt). pose proof (magnitude_nonneg _ _ Hm).
  assert (plain_units K Dec.zero = Some 0) as Hz.
  { unfold Dec.zero. rewrite plain_units_Finite by lia. f_equal; simpl; lia. }
  destruct (sum_loop_plain rows Dec.zero 0 m Hz Hm ltac:(simpl; lia))
    as (d & Hd & Hu).
  exists d. split; [done|]. by rewrite Hu.
Qed.

End plain_columns.

Lemma build_index_group key rows k :
  default [] (build_index key rows !! k) =
    if decide (k = "") then [] else filter (fun r => key r = k) rows.
Proof.
  rewrite build_index_lookup. case_decide; [done|].
  by destruct (filter _ rows).
Qed.

Lemma plain_column_group K candidates key rows k :
  plain_column K candidates rows ->
  plain_column K candidates (default [] (build_index key rows !! k)).
Proof.
  intros H. rewrite build_index_group. case_decide.
  - apply plain_column_nil.
  - by apply plain_column_filter.
Qed.

(** ** A run over plain amounts reaches the end *)

Section plain_run.
Variable K : Z.
Hypothesis K_range : (0 <= K <= 999000)%Z.
Context (year : string) (ledger_rows invoice_rows manifest_rows : list Row).

Let L := build_ledger_index ledger_rows.
Let I := (build_invoice_indices invoice_rows).1.
Let M := build_manifest_index manifest_rows.

Hypothesis line_plain : plain_column K line_candidates invoice_rows.
Hypothesis tax_plain : plain_column K tax_candidates invoice_rows.
Hypothesis gross_plain : plain_column K gross_candidates ledger_rows.
Hypothesis net_plain : plain_column K net_candidates ledger_rows.
Hypothesis gst_plain : plain_column K gst_candidates ledger_rows.

Lemma invoice_group_plain candidates g :
  plain_column K candidates invoice_rows ->
  plain_column K candidates (default [] (I !! g)).
Proof.
  intros H. unfold I. rewrite build_invoice_indices_eq. simpl.
  by apply plain_column_group.
Qed.

Lemma ledger_group_plain candidates k :
  plain_column K candidates ledger_rows ->
  plain_column K candidates (default [] (L !! k)).
Proof. intros H. by apply (plain_column_group K candidates ledger_invoice_key). Qed.

Lemma ledger_rows_for_plain candidates k :
  plain_column K candidates ledger_rows ->
  plain_column K candidates (ledger_rows_for L k).
Proof.
  intros H. unfold ledger_rows_for.
  destruct (Str.is_empty k); [apply plain_column_nil|by apply ledger_group_plain].
Qed.

Lemma guid_record_returns g : exists r, guid_record year L I M g = Ok r.
Proof.
  unfold guid_record.
  destruct (sum_field_plain K K_range line_candidates _
              (invoice_group_plain _ g line_plain)) as (d1 & -> & _).
  destruct (sum_field_plain K K_range tax_candidates _
              (invoice_group_plain _ g tax_plain)) as (d2 & -> & _).
  cbn.
  destruct (sum_field_plain K K_range gross_candidates _
              (ledger_rows_for_plain _ (guid_inv_num I g) gross_plain))
    as (d3 & Hd3 & _).
  destruct (sum_field_plain K K_range net_candidates _
              (ledger_rows_for_plain _ (guid_inv_num I g) net_plain))
    as (d4 & Hd4 & _).
  destruct (sum_field_plain K K_range gst_candidates _
              (ledger_rows_for_plain _ (guid_inv_num I g) gst_plain))
    as (d5 & Hd5 & _).
  unfold guid_inv_num in Hd3, Hd4, Hd5. rewrite Hd3, Hd4, Hd5. cbn. eauto.
Qed.

Lemma ledger_only_record_returns k : exists r, ledger_only_record year L k = Ok r.
Proof.
  unfold ledger_only_record.
  destruct (sum_field_plain K K_range gross_candidates _
              (ledger_group_plain _ k gross_plain)) as (d3 & -> & _).
  destruct (sum_field_plain K K_range net_candidates _
              (ledger_group_plain _ k net_plain)) as (d4 & -> & _).
  destruct (sum_field_plain K K_range gst_candidates _
              (ledger_group_plain _ k gst_plain)) as (d5 & -> & _).
  cbn. eauto.
Qed.

Lemma master_rows_returns : exists rows, master_rows year L I M = Ok rows.
Proof.
  unfold master_rows, pass1, pass2.
  destruct (mapM_all_ok (guid_record year L I M)
              (sorted (elements (guid_keys I M)))) as [p1 ->].
  { apply Forall_forall. intros g _. apply guid_record_returns. }
  destruct (mapM_all_ok (ledger_only_record year L)
              (sorted (elements (ledger_only_invnums L I)))) as [p2 ->].
  { apply Forall_forall. intros k _. apply ledger_only_record_returns. }
  cbn. eauto.
Qed.

Lemma reconcile_returns :
  exists out rows,
    reconcile year ledger_rows invoice_rows manifest_rows = Ok out
    ∧ master_rows year L I M = Ok rows
    ∧ csv_data out = Emit.write_csv rows
    ∧ kv_filename out =
        "ledger_master_" +:+ (if Str.is_empty year then "unknown" else year)
          +:+ ".csv"
    ∧ summary_master_rows (summary out) = length rows
    ∧ summary_kv_filename (summary out) = kv_filename out.
Proof.
  destruct master_rows_returns as [rows Hrows].
  unfold reconcile. unfold L, I, M in Hrows.
  destruct (build_invoice_indices invoice_rows) as [by_guid by_invnum].
  simpl in Hrows. rewrite Hrows. cbn. eexists _, rows. repeat split; done.
Qed.

End plain_run.

(** ** Outcomes of a run *)

(** C3 as stated fails: a run whose ledger cannot be fetched ends in the
    error of the fetch, with no fatal condition and nothing written.  The
    same happens, inside the core, for an amount cell that [Decimal] accepts
    but cannot add (here a signalling NaN). *)
Lemma run_halts_without_fatal_condition :
  ¬ (forall urlopen DictReader actor_input,
       no_output (main urlopen DictReader actor_input)
       <-> fatal_condition urlopen DictReader actor_input)
  ∧ (main demo_urlopen demo_reader
       (demo_input "https://files.example/missing.csv") = Raise URLError
     ∧ ¬ fatal_condition demo_urlopen demo_reader
           (demo_input "https://files.example/missing.csv"))
  ∧ (main demo_urlopen demo_reader
       (demo_input "https://files.example/ledger-snan.csv")
       = Raise InvalidOperation
     ∧ ¬ fatal_condition demo_urlopen demo_reader
           (demo_input "https://files.example/ledger-snan.csv")).
Proof.
  assert (forall url, ¬ fatal_condition demo_urlopen demo_reader (demo_input url) ->
          (exists e, main demo_urlopen demo_reader (demo_input url) = Raise e) ->
          ¬ (forall urlopen DictReader actor_input,
               no_output (main urlopen DictReader actor_input)
               <-> fatal_condition urlopen DictReader actor_input)) as Hneg.
  { intros url Hnf [e Hrun] H. apply Hnf, H. intros out. rewrite Hrun. discriminate. }
  assert (¬ fatal_condition demo_urlopen demo_reader
            (demo_input "https://files.example/missing.csv")) as Hnf1.
  { intros [[H|[H|H]]|(H & _ & _)]; vm_compute in H; discriminate H. }
  assert (¬ fatal_condition demo_urlopen demo_reader
            (demo_input "https://files.example/ledger-snan.csv")) as Hnf2.
  { intros [[H|[H|H]]|(H & _ & _)]; vm_compute in H; discriminate H. }
  assert (main demo_urlopen demo_reader
            (demo_input "https://files.example/missing.csv") = Raise URLError)
    as Hrun1 by (vm_compute; reflexivity).
  assert (main demo_urlopen demo_reader
            (demo_input "https://files.example/ledger-snan.csv")
          = Raise InvalidOperation) as Hrun2 by (vm_compute; reflexivity).
  split; [|split; split; done].
  apply (Hneg "https://files.example/missing.csv"); eauto.
Qed.

Lemma non_empty_false {A} (l : list A) : non_empty l = false <-> l = [].
Proof. destruct l; simpl; split; congruence. Qed.

(** C3, as amended.  A run returns early without output exactly when a
    locator is blank or the three downloads all give no rows.  A download
    that fails ends the run with its error.  In the remaining case the run
    reaches the end and writes the CSV artifact and the summary whenever the
    amount columns are plain (finite decimals of bounded size). *)
Theorem run_outcomes (urlopen : string -> result string)
    (DictReader : string -> result (list Row)) (actor_input : Row) :
  let download := Loader.download_csv urlopen DictReader in
  let year := norm (dict_get actor_input "Year") in
  let lu := ledger_url_of actor_input in
  let iu := invoice_url_of actor_input in
  let mu := manifest_url_of actor_input in
  let run := main urlopen DictReader actor_input in
  (run = Ok None <-> fatal_condition urlopen DictReader actor_input)
  ∧ (lu ≠ "" -> iu ≠ "" -> mu ≠ "" -> forall e,
       download lu "ledger" = Raise e
       ∨ (is_ok (download lu "ledger") = true
          ∧ download iu "invoice" = Raise e)
       ∨ (is_ok (download lu "ledger") = true
          ∧ is_ok (download iu "invoice") = true
          ∧ download mu "manifest" = Raise e) ->
       run = Raise e)
  ∧ (forall l i m K,
       lu ≠ "" -> iu ≠ "" -> mu ≠ "" ->
       download lu "ledger" = Ok l ->
       download iu "invoice" = Ok i ->
       download mu "manifest" = Ok m ->
       ¬ (l = [] ∧ i = [] ∧ m = []) ->
       (0 <= K <= 999000)%Z ->
       plain_column K line_candidates i ->
       plain_column K tax_candidates i ->
       plain_column K gross_candidates l ->
       plain_column K net_candidates l ->
       plain_column K gst_candidates l ->
       exists out rows,
         run = Ok (Some out)
         ∧ master_rows year (build_ledger_index l) (build_invoice_indices i).1
             (build_manifest_index m) = Ok rows
         ∧ csv_data out = Emit.write_csv rows
         ∧ kv_filename out =
             "ledger_master_" +:+ (if Str.is_empty year then "unknown" else year)
               +:+ ".csv"
         ∧ summary_master_rows (summary out) = length rows
         ∧ summary_kv_filename (summary out) = kv_filename out).
Proof.
  intros download year lu iu mu run.
  assert (run =
    if Str.is_empty lu || Str.is_empty iu || Str.is_empty mu then Ok None
    else
      ledger_rows ← download lu "ledger";
      invoice_rows ← download iu "invoice";
      manifest_rows ← download mu "manifest";
      if negb (non_empty ledger_rows || non_empty invoice_rows
               || non_empty manifest_rows)
      then Ok None
      else out ← reconcile year ledger_rows invoice_rows manifest_rows;
           Ok (Some out)) as Hrun by reflexivity.
  clearbody run. subst run.
  unfold fatal_condition. fold lu iu mu download.
  split; [|split].
  - destruct (Str.is_empty lu) eqn:El.
    { apply is_empty_true in El. simpl. split; auto. }
    destruct (Str.is_empty iu) eqn:Ei.
    { apply is_empty_true in Ei. simpl. split; auto. }
    destruct (Str.is_empty mu) eqn:Em.
    { apply is_empty_true in Em. simpl. split; auto. }
    apply is_empty_false in El, Ei, Em. simpl.
    destruct (download lu "ledger") as [l|e1]; cbn;
      [|split; [done|by intros [[?|[?|?]]|(? & _)]]].
    destruct (download iu "invoice") as [i|e2]; cbn;
      [|split; [done|by intros [[?|[?|?]]|(_ & ? & _)]]].
    destruct (download mu "manifest") as [m|e3]; cbn;
      [|split; [done|by intros [[?|[?|?]]|(_ & _ & ?)]]].
    destruct l as [|r l]; [|simpl].
    2:{ destruct (reconcile _ _ _ _); cbn;
          (split; [done|by intros [[?|[?|?]]|(? & _)]]). }
    destruct i as [|r i]; [|simpl].
    2:{ destruct (reconcile _ _ _ _); cbn;
          (split; [done|by intros [[?|[?|?]]|(_ & ? & _)]]). }
    destruct m as [|r m]; [|simpl].
    2:{ destruct (reconcile _ _ _ _); cbn;
          (split; [done|by intros [[?|[?|?]]|(_ & _ & ?)]]). }
    simpl. split; auto.
  - intros Hl Hi Hm e He.
    apply is_empty_false in Hl, Hi, Hm. rewrite Hl, Hi, Hm. simpl.
    destruct He as [->|[[H1 ->]|(H1 & H2 & ->)]].
    + done.
    + destruct (download lu "ledger"); [done|discriminate H1].
    + destruct (download lu "ledger"); [|discriminate H1].
      destruct (download iu "invoice"); [done|discriminate H2].
  - intros l i m K Hl Hi Hm -> -> -> Hne HK H1 H2 H3 H4 H5.
    apply is_empty_false in Hl, Hi, Hm. rewrite Hl, Hi, Hm. simpl. cbn.
    assert (non_empty l || non_empty i || non_empty m = true) as ->.
    { destruct l, i, m; simpl; try done. by destruct Hne. }
    simpl.
    destruct (reconcile_returns K HK year l i m H1 H2 H3 H4 H5)
      as (out & rows & -> & Hrest).
    cbn. exists out, rows. split; [done|exact Hrest].
Qed.

Lemma plain_column_decide K candidates rows m :
  magnitude K candidates rows = Some m -> (m <? 10 ^ 28)%Z = true ->
  plain_column K candidates rows.
Proof. intros Hm Hlt. exists m. split; [done|]. by apply Z.ltb_lt. Qed.

Lemma run_outcomes_witness :
  (exists out,
     main demo_urlopen demo_reader
       (demo_input "https://files.example/ledger.csv") = Ok (Some out)
     ∧ kv_filename out = "ledger_master_2016.csv")
  ∧ main demo_urlopen demo_reader
      (demo_input "https://files.example/missing.csv") = Raise URLError.
Proof.
  split.
  - destruct (proj2 (proj2 (run_outcomes demo_urlopen demo_reader
                 (demo_input "https://files.example/ledger.csv")))
                (fetched "https://files.example/ledger.csv")
                (fetched "https://files.example/invoices.csv")
                (fetched "https://files.example/manifest.csv") 2%Z)
      as (out & rows & Hrun & _ & _ & Hname & _).
    + vm_compute; discriminate.
    + vm_compute; discriminate.
    + vm_compute; discriminate.
    + vm_compute; reflexivity.
    + vm_compute; reflexivity.
    + vm_compute; reflexivity.
    + intros (H%(f_equal length) & _); vm_compute in H; discriminate H.
    + lia.
    + eapply plain_column_decide; [vm_compute; reflexivity|]; vm_compute; reflexivity.
    + eapply plain_column_decide; [vm_compute; reflexivity|]; vm_compute; reflexivity.
    + eapply plain_column_decide; [vm_compute; reflexivity|]; vm_compute; reflexivity.
    + eapply plain_column_decide; [vm_compute; reflexivity|]; vm_compute; reflexivity.
    + eapply plain_column_decide; [vm_compute; reflexivity|]; vm_compute; reflexivity.
    + exists out; split; [exact Hrun|]; rewrite Hname; vm_compute; reflexivity.
  - apply (proj1 (proj2 (run_outcomes demo_urlopen demo_reader
             (demo_input "https://files.example/missing.csv")))).
    + vm_compute. discriminate.
    + vm_compute. discriminate.
    + vm_compute. discriminate.
    + left. vm_compute. reflexivity.
Defined.

(** ** Reading a formatted amount back *)

Section format_facts.

Ltac each_char c := destruct c as [[] [] [] [] [] [] [] []]; try discriminate; try reflexivity.

Lemma str_app_nil s : "" +:+ s = s.
Proof. reflexivity. Qed.

Lemma str_app_cons c a b : String c a +:+ b = String c (a +:+ b).
Proof. reflexivity. Qed.

Lemma str_app_assoc a b c : (a +:+ b) +:+ c = a +:+ (b +:+ c).
Proof.
  induction a as [|x a IH]; [done|]. by rewrite !str_app_cons, IH.
Qed.

Lemma amount_char_facts c :
  amount_char c = true ->
  Str.is_space c = false ∧ Ascii.eqb c "_" = false ∧ Str.lower_char c = c.
Proof. intros H. repeat split; revert H; each_char c. Qed.

Lemma digit_amount_char c : Dec.is_digit c = true -> amount_char c = true.
Proof. unfold amount_char. by intros ->. Qed.

Lemma digit_char_facts d :
  (d < 10)%N ->
  Dec.is_digit (Dec.digit_char d) = true
  ∧ (Str.code (Dec.digit_char d) - 48)%N = d.
Proof.
  intros H.
  assert (d = 0 ∨ d = 1 ∨ d = 2 ∨ d = 3 ∨ d = 4 ∨ d = 5 ∨ d = 6 ∨ d = 7
          ∨ d = 8 ∨ d = 9)%N as Hd by lia.
  repeat destruct Hd as [->|Hd]; try subst d; by vm_compute.
Qed.

Lemma digits_only_amount s : digits_only s = true -> amount_text s = true.
Proof.
  induction s as [|c s IH]; simpl; [done|].
  intros [Hc Hs]%andb_prop. by rewrite (digit_amount_char _ Hc), IH.
Qed.

Lemma amount_text_app a b :
  amount_text (a +:+ b) = amount_text a && amount_text b.
Proof.
  induction a as [|c a IH]; simpl; [done|]. by rewrite IH, andb_assoc.
Qed.

Lemma digits_only_app a b :
  digits_only (a +:+ b) = digits_only a && digits_only b.
Proof.
  induction a as [|c a IH]; simpl; [done|]. by rewrite IH, andb_assoc.
Qed.

Lemma amount_text_lstrip s : amount_text s = true -> Str.lstrip s = s.
Proof.
  destruct s as [|c s]; simpl; [done|].
  intros [Hc _]%andb_prop. by destruct (amount_char_facts c Hc) as (-> & _).
Qed.

Lemma amount_text_rstrip s : amount_text s = true -> Str.rstrip s = s.
Proof.
  induction s as [|c s IH]; simpl; [done|].
  intros [Hc Hs]%andb_prop. rewrite (IH Hs).
  destruct (amount_char_facts c Hc) as (-> & _).
  by destruct s.
Qed.

Lemma amount_text_clean s :
  amount_text s = true ->
  Str.lower (Str.remove_char "_" (Str.strip s)) = s.
Proof.
  intros H. unfold Str.strip.
  rewrite (amount_text_lstrip s H), (amount_text_rstrip s H).
  induction s as [|c s IH]; [done|].
  simpl in H. apply andb_prop in H as [Hc Hs].
  destruct (amount_char_facts c Hc) as (_ & Hu & Hl).
  cbn [Str.remove_char]. rewrite Hu. unfold Str.lower in *.
  cbn [Str.map_chars]. by rewrite Hl, IH.
Qed.

Lemma span_digits_app ds rest :
  digits_only ds = true ->
  Dec.span_digits (ds +:+ rest) =
    (ds +:+ (Dec.span_digits rest).1, (Dec.span_digits rest).2).
Proof.
  induction ds as [|c ds IH]; cbn [digits_only].
  - intros _. rewrite !str_app_nil. by destruct (Dec.span_digits rest).
  - intros [Hc Hs]%andb_prop. rewrite !str_app_cons.
    cbn [Dec.span_digits]. rewrite Hc, (IH Hs). reflexivity.
Qed.

Lemma span_digits_all ds :
  digits_only ds = true -> Dec.span_digits ds = (ds, "").
Proof.
  induction ds as [|c ds IH]; cbn [digits_only Dec.span_digits]; [done|].
  intros [Hc Hs]%andb_prop. by rewrite Hc, (IH Hs).
Qed.

Lemma str_of_N_go_app fuel n acc :
  Dec.str_of_N_go fuel n acc = Dec.str_of_N_go fuel n "" +:+ acc.
Proof.
  revert n acc. induction fuel as [|fuel IH]; intros n acc; simpl; [done|].
  destruct (n <? 10)%N; [done|].
  rewrite IH, (IH _ (String _ "")). by rewrite str_app_assoc.
Qed.

Lemma str_of_N_go_digits fuel n acc :
  digits_only acc = true -> digits_only (Dec.str_of_N_go fuel n acc) = true.
Proof.
  revert n acc. induction fuel as [|fuel IH]; intros n acc Hacc; simpl.
  - rewrite Hacc, andb_true_r. apply digit_char_facts.
    apply N.mod_upper_bound. lia.
  - assert (digits_only (String (Dec.digit_char (n mod 10)) acc) = true) as H.
    { simpl. rewrite Hacc, andb_true_r. apply digit_char_facts.
      apply N.mod_upper_bound. lia. }
    destruct (n <? 10)%N; [done|]. by apply IH.
Qed.

Lemma str_of_N_go_value fuel n acc :
  (Z.of_N n < 2 ^ Z.of_nat fuel)%Z ->
  Dec.digits_value_go 0 (Dec.str_of_N_go fuel n acc) = Dec.digits_value_go n acc.
Proof.
  revert n acc. induction fuel as [|fuel IH]; intros n acc Hn.
  - simpl in Hn. assert (n = 0%N) as -> by lia. reflexivity.
  - simpl Dec.str_of_N_go. destruct (N.ltb_spec n 10) as [Hlt|Hge].
    + simpl. rewrite (proj2 (digit_char_facts (n mod 10) ltac:(by apply N.mod_upper_bound))).
      by rewrite N.mod_small.
    + rewrite IH.
      * simpl.
        rewrite (proj2 (digit_char_facts (n mod 10) ltac:(by apply N.mod_upper_bound))).
        f_equal. pose proof (N.div_mod n 10 ltac:(lia)). lia.
      * rewrite Nat2Z.inj_succ, Z.pow_succ_r in Hn by lia.
        rewrite N2Z.inj_div. change (Z.of_N 10) with 10%Z.
        apply Z.div_lt_upper_bound; lia.
Qed.

Lemma str_of_N_fuel n : (Z.of_N n < 2 ^ Z.of_nat (S (N.to_nat (N.log2 n))))%Z.
Proof.
  destruct (decide (n = 0%N)) as [->|Hn]; [by vm_compute|].
  destruct (N.log2_spec n ltac:(lia)) as [_ Hlt].
  rewrite Nat2Z.inj_succ, N_nat_Z, <- N2Z.inj_succ.
  change 2%Z with (Z.of_N 2). rewrite <- N2Z.inj_pow. lia.
Qed.

Lemma str_of_N_digits n : digits_only (Dec.str_of_N n) = true.
Proof. by apply str_of_N_go_digits. Qed.

Lemma str_of_N_cons n : exists c r, Dec.str_of_N n = String c r ∧ Dec.is_digit c = true.
Proof.
  pose proof (str_of_N_digits n) as H.
  destruct (Dec.str_of_N n) as [|c r] eqn:E.
  - exfalso. unfold Dec.str_of_N in E. revert E.
    generalize (S (N.to_nat (N.log2 n))). intros fuel. revert n.
    induction fuel as [|fuel IH]; intros n; simpl; [done|].
    destruct (n <? 10)%N; [done|].
    rewrite str_of_N_go_app. destruct (Dec.str_of_N_go fuel (n / 10) ""); done.
  - simpl in H. apply andb_prop in H as [Hc _]. eauto.
Qed.

Lemma str_app_nil_r s : s +:+ "" = s.
Proof. induction s as [|c s IH]; [done|]. by rewrite str_app_cons, IH. Qed.

Lemma pad2_facts b :
  (b < 100)%N ->
  digits_only (Dec.pad2 b) = true
  ∧ String.length (Dec.pad2 b) = 2
  ∧ forall a, Dec.digits_value_go a (Dec.pad2 b) = (100 * a + b)%N.
Proof.
  intros Hb. unfold Dec.pad2.
  assert (b / 10 < 10)%N as Hq by (apply N.Div0.div_lt_upper_bound; lia).
  assert (b mod 10 < 10)%N as Hr by (apply N.mod_upper_bound; lia).
  destruct (digit_char_facts _ Hq) as [Hd1 Hv1].
  destruct (digit_char_facts _ Hr) as [Hd0 Hv0].
  split; [|split; [done|]].
  - cbn [digits_only]. by rewrite Hd1, Hd0.
  - intros a. cbn [Dec.digits_value_go]. rewrite Hv1, Hv0.
    pose proof (N.div_mod b 10 ltac:(lia)). lia.
Qed.

Lemma sign_split_digit c r :
  Dec.is_digit c = true ->
  match String c r with
  | String "-" u => (true, u)
  | String "+" u => (false, u)
  | _ => (false, String c r)
  end = (false, String c r).
Proof. each_char c. Qed.

Lemma parse_special_digit sign c r :
  Dec.is_digit c = true -> Dec.parse_special sign (String c r) = None.
Proof. each_char c. Qed.

(** The text of a finite amount with two decimals parses back to it. *)
Lemma of_str_amount (s : bool) (q : N) :
  (Z.of_N q < 10 ^ 28)%Z ->
  Dec.of_str (Dec.sign_str s +:+ Dec.str_of_N (q / 100) +:+ "." +:+
              Dec.pad2 (q mod 100))
    = Ok (Finite s q (-2)).
Proof.
  intros Hq.
  assert (q mod 100 < 100)%N as Hb by (apply N.mod_upper_bound; lia).
  destruct (pad2_facts _ Hb) as (Hfd & Hfl & Hfv).
  pose proof (str_of_N_digits (q / 100)) as Hid.
  destruct (str_of_N_cons (q / 100)) as (c & r & Hip & Hc).
  set (ip := Dec.str_of_N (q / 100)) in *.
  set (fp := Dec.pad2 (q mod 100)) in *.
  set (body := ip +:+ "." +:+ fp).
  assert (amount_text body = true) as Hbody.
  { unfold body. rewrite !amount_text_app.
    rewrite (digits_only_amount _ Hid), (digits_only_amount _ Hfd). reflexivity. }
  assert (amount_text (Dec.sign_str s +:+ body) = true) as Htext.
  { rewrite amount_text_app, Hbody. by destruct s. }
  unfold Dec.of_str. rewrite (amount_text_clean _ Htext).
  assert (match Dec.sign_str s +:+ body with
          | String "-" u => (true, u)
          | String "+" u => (false, u)
          | _ => (false, Dec.sign_str s +:+ body)
          end = (s, body)) as ->.
  { destruct s; [reflexivity|]. change (Dec.sign_str false +:+ body) with body.
    unfold body. rewrite Hip, str_app_cons. by apply sign_split_digit. }
  assert (Dec.parse_special s body = None) as ->.
  { unfold body. rewrite Hip, str_app_cons. by apply parse_special_digit. }
  assert (Dec.parse_number s body = Some (Finite s q (-2))) as ->.
  { unfold Dec.parse_number, body.
    rewrite (span_digits_app ip _ Hid).
    change (Dec.span_digits ("." +:+ fp)) with ("", String "." fp).
    cbn [fst snd]. rewrite str_app_nil_r, (span_digits_all fp Hfd).
    rewrite Hip at 1. cbn [Str.is_empty andb Dec.parse_exp].
    rewrite Hfl. do 2 f_equal.
    unfold Dec.digits_value, ip, Dec.str_of_N.
    rewrite <- str_of_N_go_app, str_of_N_go_value by apply str_of_N_fuel.
    unfold fp. rewrite Hfv. symmetry.
    pose proof (N.div_mod q 100 ltac:(lia)). lia. }
  assert (Dec.representable (Finite s q (-2)) = true) as ->; [|done].
  unfold Dec.representable, Dec.max_Etiny, Dec.max_Emax.
  apply andb_true_intro. split; [by apply Z.leb_le|].
  destruct (q =? 0)%N; [by apply Z.leb_le|]. apply Z.leb_le.
  pose proof (ndigits_le q 28 ltac:(lia) Hq). lia.
Qed.

(** Formatting a plain amount with at most two decimals loses nothing. *)
Lemma money_format d u :
  plain_units 2 d = Some u -> (Z.abs u < 10 ^ 28)%Z ->
  money (Dec.format_2f d) = u.
Proof.
  intros (s & c & e & -> & He & ->)%(plain_units_Some 2) Hu.
  rewrite (abs_units 2) in Hu by lia.
  assert (exists q, Dec.rescale (Finite s c e) (-2) = Finite s q (-2)
                    ∧ Z.of_N q = (Z.of_N c * 10 ^ (e + 2))%Z) as (q & Hq & Hv).
  { unfold Dec.rescale. destruct (N.eqb_spec c 0) as [->|Hc].
    - exists 0%N. split; [done|]. simpl. lia.
    - destruct (Z.leb_spec (-2) e); [|lia].
      eexists. split; [done|]. rewrite N2Z.inj_mul, pow10_Z by lia.
      by replace (e - -2)%Z with (e + 2)%Z by lia. }
  unfold Dec.format_2f. rewrite Hq. unfold money.
  rewrite of_str_amount by lia.
  rewrite (plain_units_Finite 2) by lia. simpl default.
  rewrite Hv. change (10 ^ (-2 + 2))%Z with 1%Z. lia.
Qed.

End format_facts.

(** ** Conservation of the ledger *)

Section weights.
Local Open Scope Z_scope.
Context (w : Row -> Z).

(** The weight of a list of rows. *)
Let W (l : list Row) : Z := sum_Z (w <$> l).

Lemma weight_filter_or (P Q : Row -> Prop)
    `{forall r, Decision (P r)} `{forall r, Decision (Q r)} l :
  (forall r, P r -> Q r -> False) ->
  W (filter (fun r => P r ∨ Q r) l) = W (filter P l) + W (filter Q l).
Proof.
  intros Hdis. unfold W. induction l as [|r l IH]; [done|].
  rewrite !filter_cons.
  destruct (decide (P r)) as [HP|HP], (decide (Q r)) as [HQ|HQ].
  - destruct (Hdis r HP HQ).
  - rewrite decide_True by auto. rewrite !fmap_cons. simpl. lia.
  - rewrite decide_True by auto. rewrite !fmap_cons. simpl. lia.
  - rewrite decide_False by (intros [?|?]; done). done.
Qed.

Lemma weight_filter_all (P : Row -> Prop) `{forall r, Decision (P r)} (l : list Row) :
  (forall r, r ∈ l -> P r) -> filter P l = l.
Proof.
  induction l as [|r l IH]; intros Hall; [done|].
  rewrite filter_cons, decide_True by (apply Hall; left).
  f_equal. apply IH. intros r' Hr'. apply Hall. by right.
Qed.

Lemma weight_filter_none (P : Row -> Prop) `{forall r, Decision (P r)} (l : list Row) :
  (forall r, r ∈ l -> ¬ P r) -> filter P l = [].
Proof.
  induction l as [|r l IH]; intros Hall; [done|].
  rewrite filter_cons, decide_False by (apply Hall; left).
  apply IH. intros r' Hr'. apply Hall. by right.
Qed.

(** Summing the groups of distinct keys is summing the rows that have
    one of these keys. *)
Lemma weight_groups (key : Row -> string) (ks : list string) l :
  NoDup ks ->
  sum_Z ((fun k => W (filter (fun r => key r = k) l)) <$> ks)
    = W (filter (fun r => key r ∈ ks) l).
Proof.
  induction 1 as [|k ks Hk Hnd IH].
  - rewrite (weight_filter_none (fun r => key r ∈ [])); [done|].
    intros r _ Hin. inversion Hin.
  - rewrite fmap_cons. simpl. rewrite IH.
    rewrite <- weight_filter_or by (intros r <- ?; done).
    f_equal. apply list_filter_iff. intros r. rewrite elem_of_cons. done.
Qed.

Lemma sum_Z_app l1 l2 : sum_Z (l1 ++ l2) = sum_Z l1 + sum_Z l2.
Proof. induction l1 as [|x l1 IH]; simpl; lia. Qed.

Lemma sum_Z_filter_keys (f : string -> Z) (P : string -> Prop)
    `{forall k, Decision (P k)} ks :
  (forall k, ¬ P k -> f k = 0) ->
  sum_Z (f <$> ks) = sum_Z (f <$> filter P ks).
Proof.
  intros Hz. induction ks as [|k ks IH]; [done|].
  rewrite filter_cons, fmap_cons. simpl. case_decide.
  - rewrite fmap_cons. simpl. lia.
  - rewrite Hz by done. lia.
Qed.

End weights.

Lemma NoDup_fmap_filter (n : string -> string) (P : string -> Prop)
    `{forall k, Decision (P k)} gs :
  NoDup gs ->
  (forall g1 g2, g1 ∈ gs -> g2 ∈ gs -> n g1 = n g2 -> P (n g1) -> g1 = g2) ->
  NoDup (filter P (n <$> gs)).
Proof.
  induction 1 as [|g gs Hg Hnd IH]; intros Hinj; [constructor|].
  rewrite fmap_cons, filter_cons.
  assert (NoDup (filter P (n <$> gs))) as IH'.
  { apply IH. intros g1 g2 H1 H2. apply Hinj; by right. }
  case_decide as HP; [|done].
  constructor; [|done].
  intros Hin. apply list_elem_of_filter in Hin as [_ Hin].
  apply list_elem_of_fmap in Hin as (g' & Heq & Hg').
  assert (g = g') as -> by (apply Hinj; [left|by right|done|done]).
  done.
Qed.

Section conservation.
Local Open Scope Z_scope.
Context (year : string) (ledger_rows invoice_rows manifest_rows : list Row).

Let L := build_ledger_index ledger_rows.
Let I := (build_invoice_indices invoice_rows).1.
Let M := build_manifest_index manifest_rows.
Let keyed := keyed_ledger_rows ledger_rows.

(** The ledger rows filed under an invoice number. *)
Let group (k : string) : list Row :=
  filter (fun r => ledger_invoice_key r = k) keyed.

Lemma keyed_key r : r ∈ keyed -> ledger_invoice_key r ≠ "" ∧ r ∈ ledger_rows.
Proof. intros H. by apply list_elem_of_filter in H. Qed.

Lemma ledger_group_eq k : default [] (L !! k) = group k.
Proof.
  unfold L. rewrite build_ledger_index_eq, build_index_group.
  unfold group, keyed, keyed_ledger_rows. case_decide as Hk.
  - subst k. symmetry. apply weight_filter_none.
    intros r [Hr _]%list_elem_of_filter. done.
  - rewrite list_filter_filter. apply list_filter_iff.
    intros r. split; [|by intros [? _]]. intros Hr. split; [done|congruence].
Qed.

Lemma ledger_rows_for_eq k : ledger_rows_for L k = group k.
Proof.
  unfold ledger_rows_for. destruct (Str.is_empty k) eqn:E.
  - apply is_empty_true in E. subst k. symmetry. apply weight_filter_none.
    intros r [Hr _]%keyed_key. done.
  - apply ledger_group_eq.
Qed.

Lemma group_outside k : k ∉ dom L -> group k = [].
Proof.
  intros Hk. rewrite <- ledger_group_eq.
  apply not_elem_of_dom in Hk. by rewrite Hk.
Qed.

Lemma keyed_in_dom r : r ∈ keyed -> ledger_invoice_key r ∈ dom L.
Proof.
  intros [Hk Hr]%keyed_key. unfold L. rewrite build_ledger_index_eq.
  apply build_index_dom. eauto.
Qed.

Lemma guid_inv_num_outside g : g ∉ dom I -> guid_inv_num I g = "".
Proof.
  intros Hg. apply not_elem_of_dom in Hg. unfold guid_inv_num.
  rewrite Hg. apply invoice_number_key_empty.
Qed.

Lemma guid_inv_num_invnums g :
  g ∈ dom I -> guid_inv_num I g ∈ invnums_from_guid I.
Proof.
  intros [l Hl]%elem_of_dom. apply elem_invnums_from_guid.
  pose proof Hl as Hl'. unfold I in Hl'.
  rewrite build_invoice_indices_eq in Hl'. simpl in Hl'.
  destruct (build_index_first _ _ _ _ Hl') as (r & rest & ->).
  exists g, r, rest. split; [done|]. unfold guid_inv_num. by rewrite Hl.
Qed.

Let gs : list string := sorted (elements (guid_keys I M)).
Let ks1 : list string := filter (fun k => k ∈ dom L) (guid_inv_num I <$> gs).
Let ks2 : list string := sorted (elements (ledger_only_invnums L I)).

Lemma ks1_elem k :
  k ∈ ks1 <-> k ∈ dom L ∧ exists g, g ∈ dom I ∧ guid_inv_num I g = k.
Proof.
  unfold ks1. rewrite list_elem_of_filter, list_elem_of_fmap. split.
  - intros [HL (g & -> & Hg)]. split; [done|]. exists g. split; [|done].
    destruct (decide (g ∈ dom I)) as [|Hn]; [done|].
    rewrite (guid_inv_num_outside g Hn) in HL.
    by apply (ledger_keys_non_empty ledger_rows) in HL.
  - intros [HL (g & Hg & <-)]. split; [done|]. exists g. split; [done|].
    unfold gs. apply sorted_elem, elem_of_elements. unfold guid_keys.
    by apply elem_of_union_l.
Qed.

Lemma ks2_elem k : k ∈ ks2 <-> k ∈ dom L ∧ k ∉ invnums_from_guid I.
Proof.
  unfold ks2, ledger_only_invnums.
  by rewrite sorted_elem, elem_of_elements, elem_of_difference.
Qed.

(** Every key of the ledger is taken by one of the passes. *)
Lemma keys_cover k : k ∈ dom L -> k ∈ ks1 ++ ks2.
Proof.
  intros Hk. apply elem_of_app.
  destruct (decide (k ∈ invnums_from_guid I)) as [Hin|Hnin].
  - left. apply ks1_elem. split; [done|].
    apply elem_invnums_from_guid in Hin as (g & r & rest & Hg & ->).
    exists g. split; [by apply elem_of_dom|].
    unfold guid_inv_num. by rewrite Hg.
  - right. by apply ks2_elem.
Qed.

Lemma keys_NoDup : first_rows_distinct L I -> NoDup (ks1 ++ ks2).
Proof.
  intros Hinj. apply NoDup_app. split; [|split].
  - unfold ks1. apply NoDup_fmap_filter.
    + apply sorted_NoDup, NoDup_elements.
    + intros g1 g2 H1 H2 Heq HL.
      assert (forall g, guid_inv_num I g ∈ dom L -> g ∈ dom I) as Hdom.
      { intros g Hg. destruct (decide (g ∈ dom I)) as [|Hn]; [done|].
        rewrite (guid_inv_num_outside g Hn) in Hg.
        by apply (ledger_keys_non_empty ledger_rows) in Hg. }
      apply Hinj; [by apply Hdom|apply Hdom; by rewrite <- Heq|done|done].
  - intros k [_ (g & Hg & <-)]%ks1_elem [_ Hn]%ks2_elem.
    by apply Hn, guid_inv_num_invnums.
  - apply sorted_NoDup, NoDup_elements.
Qed.

(** Whatever the invoices look like, the rows of a ledger key are
    aggregated in some record. *)
Lemma ledger_key_covered rows r :
  master_rows year L I M = Ok rows -> r ∈ keyed ->
  exists rec,
    rec ∈ rows
    ∧ Invoice_Number rec = ledger_invoice_key r
    ∧ In_Ledger rec = "Y"
    ∧ Ledger_Row_Count rec = length (group (ledger_invoice_key r)).
Proof.
  intros (p1 & p2 & -> & H1 & H2)%master_rows_Ok Hr.
  assert (non_empty (group (ledger_invoice_key r)) = true) as Hne.
  { apply non_empty_true. exists r. by apply list_elem_of_filter. }
  pose proof (keys_cover _ (keyed_in_dom r Hr)) as Hk.
  apply elem_of_app in Hk as [Hk|Hk].
  - apply ks1_elem in Hk as [_ (g & Hg & Hnum)].
    assert (g ∈ gs) as Hin.
    { unfold gs. apply sorted_elem, elem_of_elements. unfold guid_keys.
      by apply elem_of_union_l. }
    apply list_elem_of_lookup in Hin as [i Hi].
    destruct (Forall2_lookup_l _ _ _ _ _ H1 Hi) as (rec & Hrec & Hok).
    apply guid_record_Ok in Hok
      as (?&?&?&?&?&_&_&_&_&_&_&Hn&_&_&_&Hl&Hc&_).
    exists rec. rewrite Hn, Hl, Hc, Hnum, ledger_rows_for_eq, Hne.
    split; [|done]. apply elem_of_app. left. by eapply list_elem_of_lookup_2.
  - pose proof Hk as Hin. apply list_elem_of_lookup in Hin as [i Hi].
    destruct (Forall2_lookup_l _ _ _ _ _ H2 Hi) as (rec & Hrec & Hok).
    apply ledger_only_record_Ok in Hok
      as (?&?&?&_&_&_&_&Hn&Hc&_&_&_&Hl).
    exists rec. rewrite Hn, Hl, Hc, ledger_group_eq.
    split; [|done]. apply elem_of_app. right. by eapply list_elem_of_lookup_2.
Qed.

Context (w : Row -> Z) (mu : MasterRecord -> Z).
Hypothesis mu_guid : forall g r,
  guid_record year L I M g = Ok r ->
  mu r = sum_Z (w <$> ledger_rows_for L (guid_inv_num I g)).
Hypothesis mu_ledger_only : forall k r,
  ledger_only_record year L k = Ok r ->
  mu r = sum_Z (w <$> default [] (L !! k)).

Lemma conservation_generic rows :
  master_rows year L I M = Ok rows ->
  first_rows_distinct L I ->
  sum_Z (mu <$> rows) = sum_Z (w <$> keyed).
Proof.
  intros (p1 & p2 & -> & H1 & H2)%master_rows_Ok Hinj.
  rewrite fmap_app, sum_Z_app.
  assert (sum_Z (mu <$> p1)
          = sum_Z ((fun k => sum_Z (w <$> group k)) <$> ks1)) as ->.
  { unfold ks1.
    rewrite <- (sum_Z_filter_keys (fun k => sum_Z (w <$> group k)))
      by (intros k Hk; by rewrite (group_outside k Hk)).
    fold gs in H1. clear -H1 mu_guid. induction H1 as [|g r ? ? Hr _ IH]; [done|].
    rewrite !fmap_cons. simpl. rewrite IH, (mu_guid _ _ Hr).
    by rewrite ledger_rows_for_eq. }
  assert (sum_Z (mu <$> p2)
          = sum_Z ((fun k => sum_Z (w <$> group k)) <$> ks2)) as ->.
  { fold ks2 in H2. clear -H2 mu_ledger_only.
    induction H2 as [|k r ? ? Hr _ IH]; [done|].
    rewrite !fmap_cons. simpl. rewrite IH, (mu_ledger_only _ _ Hr).
    by rewrite ledger_group_eq. }
  rewrite <- sum_Z_app, <- fmap_app.
  unfold group. rewrite (weight_groups w ledger_invoice_key) by by apply keys_NoDup.
  rewrite weight_filter_all; [done|].
  intros r Hr. by apply keys_cover, keyed_in_dom.
Qed.

End conservation.

Section conservation_instances.
Local Open Scope Z_scope.

Lemma sum_Z_ones {A} (l : list A) : sum_Z ((fun _ => 1) <$> l) = Z.of_nat (length l).
Proof.
  induction l as [|x l IH]; [done|].
  rewrite fmap_cons. cbn [sum_Z length]. rewrite IH. lia.
Qed.

Lemma sum_Z_of_nat {A} (f : A -> nat) (l : list A) :
  sum_Z ((fun x => Z.of_nat (f x)) <$> l) = Z.of_nat (sum_list (f <$> l)).
Proof.
  induction l as [|x l IH]; [done|].
  rewrite !fmap_cons. cbn [sum_Z sum_list sum_list_with]. rewrite IH.
  unfold id. lia.
Qed.

Lemma exact_total_sum K candidates rows :
  exact_total K candidates rows
    = sum_Z ((fun r => default 0 (row_units K candidates r)) <$> rows).
Proof. induction rows as [|r rows IH]; simpl; by rewrite ?IH. Qed.

Lemma exact_total_bound K candidates rows m :
  magnitude K candidates rows = Some m ->
  Z.abs (exact_total K candidates rows) <= m.
Proof.
  revert m. induction rows as [|r rows IH]; intros m.
  - intros [= <-]. simpl. lia.
  - intros (u & m' & Hu & Hm' & ->)%magnitude_cons. simpl. rewrite Hu. simpl.
    specialize (IH _ Hm'). lia.
Qed.

(** On a plain column of amounts with at most two decimals, the text that
    [sum_field] and the formatting produce reads back as the exact sum. *)
Lemma money_sum_field rows d :
  plain_column 2 gross_candidates rows ->
  sum_field rows gross_candidates = Ok d ->
  money (Dec.format_2f d) = exact_total 2 gross_candidates rows.
Proof.
  intros Hp Hd.
  destruct (sum_field_plain 2 ltac:(lia) gross_candidates rows Hp) as (d' & Hd' & Hu).
  rewrite Hd in Hd'. injection Hd' as <-.
  apply money_format; [done|].
  destruct Hp as (m & Hm & Hlt). pose proof (exact_total_bound _ _ _ _ Hm). lia.
Qed.

End conservation_instances.

(** C1, as amended.  Every ledger row with a non-empty key is aggregated
    in at least one master record.  When no two GUID groups derive the same
    ledger invoice number from their first rows, it is aggregated in exactly
    one: the ledger row counts of the records add up to the number of keyed
    ledger rows, and, for plain gross amounts with at most two decimals, the
    [Ledger_Gross_AUD] fields add up to the gross of the keyed ledger rows. *)
Theorem ledger_conservation (year : string)
    (ledger_rows invoice_rows manifest_rows : list Row)
    (rows : list MasterRecord) :
  let L := build_ledger_index ledger_rows in
  let I := (build_invoice_indices invoice_rows).1 in
  let M := build_manifest_index manifest_rows in
  let keyed := keyed_ledger_rows ledger_rows in
  master_rows year L I M = Ok rows ->
  (forall r, r ∈ keyed ->
     exists rec,
       rec ∈ rows
       ∧ Invoice_Number rec = ledger_invoice_key r
       ∧ In_Ledger rec = "Y"
       ∧ Ledger_Row_Count rec =
           length (filter (fun r' => ledger_invoice_key r' = ledger_invoice_key r)
                     keyed))
  ∧ (first_rows_distinct L I ->
       sum_list (Ledger_Row_Count <$> rows) = length keyed
       ∧ (plain_column 2 gross_candidates ledger_rows ->
            sum_Z ((fun rec => money (Ledger_Gross_AUD rec)) <$> rows)
              = exact_total 2 gross_candidates keyed)).
Proof.
  intros L I M keyed Hrows. split.
  { intros r Hr. by apply (ledger_key_covered year _ invoice_rows manifest_rows). }
  intros Hinj. split.
  - apply Nat2Z.inj. rewrite <- sum_Z_of_nat, <- sum_Z_ones.
    apply (conservation_generic year ledger_rows invoice_rows manifest_rows);
      [| |done|done].
    + intros g r Hr. rewrite sum_Z_ones.
      by apply guid_record_Ok in Hr
        as (?&?&?&?&?&_&_&_&_&_&_&_&_&_&_&_&->&_).
    + intros k r Hr. rewrite sum_Z_ones.
      by apply ledger_only_record_Ok in Hr as (?&?&?&_&_&_&_&_&->&_).
  - intros Hplain. rewrite exact_total_sum.
    apply (conservation_generic year ledger_rows invoice_rows manifest_rows);
      [| |done|done].
    + intros g r Hr. rewrite <- exact_total_sum.
      apply guid_record_Ok in Hr
        as (?&?&d&?&?&_&_&Hd&_&_&_&_&_&_&_&_&_&Hg&_).
      rewrite Hg. apply money_sum_field; [|done].
      by apply ledger_rows_for_plain.
    + intros k r Hr. rewrite <- exact_total_sum.
      apply ledger_only_record_Ok in Hr as (d&?&?&Hd&_&_&_&_&_&Hg&_).
      rewrite Hg. apply money_sum_field; [|done].
      by apply ledger_group_plain.
Qed.

(** C1 as stated fails: two invoices filed under one number each take
    the ledger row of that number, and its gross is reported twice. *)
Lemma ledger_row_counted_twice :
  ¬ (forall year ledger_rows invoice_rows manifest_rows rows,
       master_rows year (build_ledger_index ledger_rows)
         (build_invoice_indices invoice_rows).1
         (build_manifest_index manifest_rows) = Ok rows ->
       sum_Z ((fun rec => money (Ledger_Gross_AUD rec)) <$> rows)
         = exact_total 2 gross_candidates (keyed_ledger_rows ledger_rows))
  ∧ exists rows,
      master_rows "2016" (build_ledger_index twin_ledger_rows)
        (build_invoice_indices twin_invoice_rows).1
        (build_manifest_index []) = Ok rows
      ∧ Ledger_Gross_AUD <$> rows = ["100.00"; "100.00"]
      ∧ Ledger_Row_Count <$> rows = [1; 1]
      ∧ sum_Z ((fun rec => money (Ledger_Gross_AUD rec)) <$> rows) = 20000%Z
      ∧ exact_total 2 gross_candidates (keyed_ledger_rows twin_ledger_rows)
          = 10000%Z.
Proof.
  assert (exists rows,
      master_rows "2016" (build_ledger_index twin_ledger_rows)
        (build_invoice_indices twin_invoice_rows).1
        (build_manifest_index []) = Ok rows
      ∧ Ledger_Gross_AUD <$> rows = ["100.00"; "100.00"]
      ∧ Ledger_Row_Count <$> rows = [1; 1]
      ∧ sum_Z ((fun rec => money (Ledger_Gross_AUD rec)) <$> rows) = 20000%Z
      ∧ exact_total 2 gross_candidates (keyed_ledger_rows twin_ledger_rows)
          = 10000%Z) as Hex.
  { eexists. split; [vm_compute; reflexivity|]. by vm_compute. }
  split; [|exact Hex].
  intros H. destruct Hex as (rows & Hrows & _ & _ & Hsum & Hled).
  specialize (H _ _ _ _ _ Hrows). rewrite Hsum, Hled in H. discriminate H.
Qed.

Lemma demo_first_rows_distinct :
  first_rows_distinct (build_ledger_index demo_ledger_rows)
    (build_invoice_indices demo_invoice_rows).1.
Proof.
  intros g1 g2 H1 H2 _ _.
  assert (forall g, g ∈ dom (build_invoice_indices demo_invoice_rows).1 ->
                    g = "guid-1") as Hg.
  { intros g Hg. rewrite build_invoice_indices_eq in Hg. simpl in Hg.
    apply build_index_dom in Hg as [_ (r & Hr & <-)].
    unfold demo_invoice_rows in Hr. apply list_elem_of_singleton in Hr as ->.
    by vm_compute. }
  by rewrite (Hg g1 H1), (Hg g2 H2).
Qed.

Lemma ledger_conservation_witness :
  sum_list (Ledger_Row_Count <$> demo_rows) = 2
  ∧ sum_Z ((fun rec => money (Ledger_Gross_AUD rec)) <$> demo_rows) = 15000%Z.
Proof.
  destruct (ledger_conservation "2016" demo_ledger_rows demo_invoice_rows
              demo_manifest_rows demo_rows demo_master_rows_Ok)
    as [_ Hcons].
  destruct (Hcons demo_first_rows_distinct) as [Hcount Hgross].
  split.
  - rewrite Hcount. vm_compute. reflexivity.
  - rewrite Hgross.
    + vm_compute. reflexivity.
    + eapply plain_column_decide; [vm_compute; reflexivity|]; vm_compute; reflexivity.
Defined.

(** ** The scenarios of the specification *)

Example scenario_joined_invoice :
  master_rows "2016"
    (build_ledger_index
       [mkrow [("Invoice Number", "INV-1"); ("Gross (AUD)", "100.00")]])
    (build_invoice_indices
       [mkrow [("Invoice ID", "guid-1"); ("Xero number", "INV-1");
               ("Line amount", "90.00")]]).1
    (build_manifest_index
       [mkrow [("Invoice ID", "GUID-1"); ("PDF_Path", "a.pdf")]])
  = Ok [{| Year := "2016"; Invoice_GUID := "guid-1"; Invoice_Number := "INV-1";
           Invoice_Type := ""; Invoice_Date := ""; Invoice_Contact := "";
           Invoice_Description := ""; Invoice_Currency := "";
           Invoice_Line_Count := 1; Invoice_Line_Total := "90.00";
           Invoice_Tax_Total := "0.00"; In_Ledger := "Y";
           Ledger_Row_Count := 1; Ledger_Gross_AUD := "100.00";
           Ledger_Net_AUD := "0.00"; Ledger_GST_AUD := "0.00";
           In_Manifest := "Y"; Manifest_Row_Count := 1; PDF_Present := "Y";
           PDF_Count := 1; PDF_Paths := "a.pdf" |}].
Proof. vm_compute. reflexivity. Qed.

Example scenario_ledger_only :
  master_rows "" (build_ledger_index
                    [mkrow [("Invoice Number", "INV-2"); ("Gross", "50")]])
    (build_invoice_indices []).1 (build_manifest_index [])
  = Ok [{| Year := ""; Invoice_GUID := ""; Invoice_Number := "INV-2";
           Invoice_Type := ""; Invoice_Date := ""; Invoice_Contact := "";
           Invoice_Description := ""; Invoice_Currency := "";
           Invoice_Line_Count := 0; Invoice_Line_Total := "0.00";
           Invoice_Tax_Total := "0.00"; In_Ledger := "Y";
           Ledger_Row_Count := 1; Ledger_Gross_AUD := "50.00";
           Ledger_Net_AUD := "0.00"; Ledger_GST_AUD := "0.00";
           In_Manifest := "N"; Manifest_Row_Count := 0; PDF_Present := "N";
           PDF_Count := 0; PDF_Paths := "" |}].
Proof. vm_compute. reflexivity. Qed.

Example scenario_all_empty :
  main demo_urlopen demo_reader
    (mkrow [("LedgerUrl", "https://files.example/empty.csv");
            ("InvoiceUrl", "https://files.example/empty.csv");
            ("ManifestUrl", "https://files.example/empty.csv")])
  = Ok None.
Proof. vm_compute. reflexivity. Qed.

(** Rounding happens once, when a total is written: three ledger rows of
    0.005 make 0.015, written as 0.02. *)
Example scenario_rounding :
  (total ← sum_field
     [mkrow [("Gross", "0.005")]; mkrow [("Gross", "0.005")];
      mkrow [("Gross", "0.005")]] gross_candidates;
   Ok (Dec.format_2f total)) = Ok "0.02".
Proof. vm_compute. reflexivity. Qed.

(** * Further properties of the code *)

(** ** [norm] *)

Section norm_facts.

Lemma lstrip_split s :
  exists a, all_space a = true ∧ s = a +:+ Str.lstrip s.
Proof.
  induction s as [|c s (a & Ha & Hs)]; [by exists ""|].
  simpl. destruct (Str.is_space c) eqn:E.
  - exists (String c a). split; [simpl; by rewrite E|].
    rewrite str_app_cons. by f_equal.
  - by exists "".
Qed.

Lemma rstrip_split s :
  exists b, all_space b = true ∧ s = Str.rstrip s +:+ b.
Proof.
  induction s as [|c s (b & Hb & Hs)]; [by exists ""|].
  rewrite rstrip_cons. destruct (Str.rstrip s) as [|c' r] eqn:E.
  - rewrite str_app_nil in Hs. subst s.
    destruct (Str.is_space c) eqn:Ec.
    + exists (String c b). split; [simpl; by rewrite Ec|done].
    + exists b. split; [done|]. by rewrite str_app_cons, str_app_nil.
  - exists b. split; [done|]. rewrite str_app_cons. by f_equal.
Qed.

Lemma length_lstrip s : (String.length (Str.lstrip s) <= String.length s)%nat.
Proof.
  induction s as [|c s IH]; simpl; [lia|].
  destruct (Str.is_space c); simpl; lia.
Qed.

Lemma length_rstrip s : (String.length (Str.rstrip s) <= String.length s)%nat.
Proof.
  induction s as [|c s IH]; [simpl; lia|].
  rewrite rstrip_cons. destruct (Str.rstrip s); [destruct (Str.is_space c)|];
    simpl in *; lia.
Qed.

Lemma lstrip_fixed_head c r :
  Str.lstrip (String c r) = String c r -> Str.is_space c = false.
Proof.
  simpl. destruct (Str.is_space c); [|done].
  intros H. pose proof (length_lstrip r) as Hl. rewrite H in Hl. simpl in Hl. lia.
Qed.

Lemma rstrip_snoc s c :
  Str.rstrip (s +:+ String c "") =
    if Str.is_space c then Str.rstrip s else s +:+ String c "".
Proof.
  induction s as [|x s IH].
  - rewrite str_app_nil. simpl. by destruct (Str.is_space c).
  - rewrite str_app_cons, !rstrip_cons, IH.
    destruct (Str.is_space c) eqn:Ec; [done|].
    destruct s; reflexivity.
Qed.

Lemma length_snoc s c : String.length (s +:+ String c "") = S (String.length s).
Proof. induction s as [|x s IH]; [done|]. rewrite str_app_cons. simpl. by rewrite IH. Qed.

Lemma rstrip_fixed_last s c :
  Str.rstrip (s +:+ String c "") = s +:+ String c "" -> Str.is_space c = false.
Proof.
  rewrite rstrip_snoc. destruct (Str.is_space c); [|done].
  intros H. pose proof (length_rstrip s) as Hl.
  rewrite H, length_snoc in Hl. lia.
Qed.

End norm_facts.

(** X1. [norm] gives the empty text for [None]; for a text it removes
    white space at both ends and nothing else, so that its result neither
    starts nor ends with white space and normalising twice changes nothing. *)
Theorem norm_trims (v : value) :
  norm None = ""
  ∧ norm (Some (norm v)) = norm v
  ∧ (forall c r, norm v = String c r -> Str.is_space c = false)
  ∧ (forall s c, norm v = s +:+ String c "" -> Str.is_space c = false)
  ∧ (forall text, v = Some text ->
       exists a b, all_space a = true ∧ all_space b = true
                   ∧ text = a +:+ norm v +:+ b).
Proof.
  assert (Str.lstrip (norm v) = norm v) as Hl.
  { destruct v as [s|]; [|done]. unfold norm, Str.strip.
    by rewrite lstrip_rstrip, lstrip_idem. }
  assert (Str.rstrip (norm v) = norm v) as Hr.
  { destruct v as [s|]; [|done]. unfold norm, Str.strip. by rewrite rstrip_idem. }
  split; [done|]. split; [|split; [|split]].
  - destruct v as [s|]; [|done]. unfold norm. apply strip_idem.
  - intros c r Hv. rewrite Hv in Hl. by apply lstrip_fixed_head in Hl.
  - intros s c Hv. rewrite Hv in Hr. by apply rstrip_fixed_last in Hr.
  - intros text ->. unfold norm, Str.strip.
    destruct (lstrip_split text) as (a & Ha & Ht).
    destruct (rstrip_split (Str.lstrip text)) as (b & Hb & Ht').
    exists a, b. split; [done|]. split; [done|]. by rewrite <- Ht'.
Qed.

Lemma norm_trims_witness :
  norm (Some "  INV 7 ") = "INV 7"
  ∧ exists a b, all_space a = true ∧ all_space b = true
                ∧ "  INV 7 " = a +:+ norm (Some "  INV 7 ") +:+ b.
Proof.
  split; [reflexivity|].
  apply (norm_trims (Some "  INV 7 ")). reflexivity.
Defined.

(** ** Keys and paths *)

Section case_facts.

Ltac all_chars c := destruct c as [[] [] [] [] [] [] [] []]; reflexivity.

Lemma upper_char_space c : Str.is_space (Str.upper_char c) = Str.is_space c.
Proof. all_chars c. Qed.

Lemma lower_char_space c : Str.is_space (Str.lower_char c) = Str.is_space c.
Proof. all_chars c. Qed.

Lemma upper_char_idem c : Str.upper_char (Str.upper_char c) = Str.upper_char c.
Proof. all_chars c. Qed.

Lemma lower_char_idem c : Str.lower_char (Str.lower_char c) = Str.lower_char c.
Proof. all_chars c. Qed.

Context (f : ascii -> ascii).
Hypothesis f_space : forall c, Str.is_space (f c) = Str.is_space c.
Hypothesis f_idem : forall c, f (f c) = f c.

Lemma map_chars_idem s : Str.map_chars f (Str.map_chars f s) = Str.map_chars f s.
Proof. induction s as [|c s IH]; simpl; [done|]. by rewrite f_idem, IH. Qed.

Lemma map_chars_lstrip s :
  Str.lstrip (Str.map_chars f s) = Str.map_chars f (Str.lstrip s).
Proof.
  induction s as [|c s IH]; simpl; [done|].
  rewrite f_space. by destruct (Str.is_space c).
Qed.

Lemma map_chars_rstrip s :
  Str.rstrip (Str.map_chars f s) = Str.map_chars f (Str.rstrip s).
Proof.
  induction s as [|c s IH]; [done|].
  cbn [Str.map_chars]. rewrite !rstrip_cons, IH, f_space.
  destruct (Str.rstrip s); [by destruct (Str.is_space c)|done].
Qed.

Lemma map_chars_strip s :
  Str.strip (Str.map_chars f s) = Str.map_chars f (Str.strip s).
Proof. unfold Str.strip. by rewrite map_chars_lstrip, map_chars_rstrip. Qed.

(** A folded, stripped text is a fixed point of both operations. *)
Lemma folded_key_canonical s :
  let k := Str.map_chars f (Str.strip s) in
  Str.map_chars f k = k ∧ Str.strip k = k.
Proof.
  simpl. split; [apply map_chars_idem|].
  by rewrite map_chars_strip, strip_idem.
Qed.

End case_facts.

(** X2. [manifest_pdf_path] returns the stripped cell of the first of
    PDF_Path, PdfPath, FilePath, Path that is in the row with a non-empty
    cell, keeping its letter case, and the empty text when none is. *)
Theorem manifest_pdf_path_first_candidate (row : Row) :
  manifest_pdf_path row
    = extract_spec (fun s => s) ["PDF_Path"; "PdfPath"; "FilePath"; "Path"] row.
Proof.
  unfold manifest_pdf_path, extract_spec, py_or, dict_get; simpl.
  case_cell row "PDF_Path"; case_cell row "PdfPath";
    case_cell row "FilePath"; case_cell row "Path".
Qed.

(** X3. The keys that the four extractors return are canonical: folding
    the case again or stripping again leaves them as they are.  A key that
    is written out and extracted again from a cell is therefore the same
    key. *)
Theorem extracted_keys_canonical (row : Row) :
  (Str.upper (ledger_invoice_key row) = ledger_invoice_key row
   ∧ Str.strip (ledger_invoice_key row) = ledger_invoice_key row)
  ∧ (Str.lower (invoice_guid_key row) = invoice_guid_key row
     ∧ Str.strip (invoice_guid_key row) = invoice_guid_key row)
  ∧ (Str.upper (invoice_number_key row) = invoice_number_key row
     ∧ Str.strip (invoice_number_key row) = invoice_number_key row)
  ∧ (Str.lower (manifest_guid_key row) = manifest_guid_key row
     ∧ Str.strip (manifest_guid_key row) = manifest_guid_key row)
  ∧ ledger_invoice_key (<["Invoice Number" := Some (invoice_number_key row)]> ∅)
      = invoice_number_key row
  ∧ manifest_guid_key (<["Invoice ID" := Some (invoice_guid_key row)]> ∅)
      = invoice_guid_key row.
Proof.
  assert (forall v, Str.upper (Str.upper (norm v)) = Str.upper (norm v)
                    ∧ Str.strip (Str.upper (norm v)) = Str.upper (norm v)) as Hu.
  { intros [s|]; [|done].
    apply (folded_key_canonical _ upper_char_space upper_char_idem s). }
  assert (forall v, Str.lower (Str.lower (norm v)) = Str.lower (norm v)
                    ∧ Str.strip (Str.lower (norm v)) = Str.lower (norm v)) as Hl.
  { intros [s|]; [|done].
    apply (folded_key_canonical _ lower_char_space lower_char_idem s). }
  split; [apply Hu|]. split; [apply Hl|]. split; [apply Hu|]. split; [apply Hl|].
  split.
  - unfold ledger_invoice_key at 1, py_or, dict_get.
    rewrite lookup_insert_eq.
    destruct (Hu (py_or (dict_get row "Xero number")
                    (py_or (dict_get row "Invoice Number")
                       (py_or (dict_get row "Invoice number")
                          (dict_get row "Invoice"))))) as [Hup Hst].
    fold (invoice_number_key row) in Hup, Hst.
    destruct (invoice_number_key row) as [|c r] eqn:E; [reflexivity|].
    cbn [truthy norm]. by rewrite Hst, Hup.
  - unfold manifest_guid_key at 1, py_or, dict_get.
    rewrite lookup_insert_eq.
    destruct (Hl (py_or (dict_get row "Invoice ID")
                    (py_or (dict_get row "InvoiceId")
                       (dict_get row "Invoice_GUID")))) as [Hlo Hst].
    fold (invoice_guid_key row) in Hlo, Hst.
    destruct (invoice_guid_key row) as [|c r] eqn:E; [reflexivity|].
    cbn [truthy norm]. by rewrite Hst, Hlo.
Qed.

(** ** [sum_field] *)

Section sum_field_facts.
Context (candidates : list string).

Lemma sum_loop_app total rows1 rows2 :
  sum_loop candidates total (rows1 ++ rows2) =
    sum_loop candidates total rows1 ≫= fun t => sum_loop candidates t rows2.
Proof.
  revert total. induction rows1 as [|row rows1 IH]; intros total; [done|].
  simpl. destruct (sum_step candidates total row) as [t|e]; cbn; [apply IH|done].
Qed.

Lemma add_snan total s p : Dec.add total (sNaN s p) = Raise InvalidOperation.
Proof. by destruct total. Qed.

End sum_field_facts.

(** X4. [sum_field] looks only at the rows that have a non-blank cell
    under one of the candidate headers: rows without one can be removed, or
    added anywhere, without changing the result, be it a total or an
    exception. *)
Theorem sum_field_ignores_rows_without_cell (rows : list Row)
    (candidates : list string) :
  sum_field rows candidates =
    sum_field (filter (fun row => amount_cell row candidates ≠ None) rows)
      candidates.
Proof.
  unfold sum_field. generalize Dec.zero.
  induction rows as [|row rows IH]; intros total; [done|].
  rewrite filter_cons. case_decide as Hc.
  - simpl. destruct (sum_step candidates total row); cbn; [apply IH|done].
  - simpl. unfold sum_step at 1. rewrite Hc. cbn. apply IH.
Qed.

Section order_facts.
Context (K : Z) (candidates : list string).

Lemma magnitude_perm rows rows' :
  rows ≡ₚ rows' -> magnitude K candidates rows = magnitude K candidates rows'.
Proof.
  induction 1 as [|r l l' _ IH|r1 r2 l|l1 l2 l3 _ IH1 _ IH2]; simpl.
  - done.
  - by rewrite IH.
  - destruct (row_units K candidates r1) as [u1|],
      (row_units K candidates r2) as [u2|],
      (magnitude K candidates l) as [m|]; try done.
    f_equal. lia.
  - by rewrite IH1.
Qed.

Lemma exact_total_perm rows rows' :
  rows ≡ₚ rows' -> exact_total K candidates rows = exact_total K candidates rows'.
Proof.
  induction 1 as [|r l l' _ IH|r1 r2 l|l1 l2 l3 _ IH1 _ IH2]; simpl; lia.
Qed.

End order_facts.

(** X5. On a column of plain amounts (finite, exponent between [-K] and
    0, magnitudes totalling less than 10^28 units of 10^-K), [sum_field]
    returns, its result is the exact sum, and the rows may come in any order:
    nothing is rounded before the total is written. *)
Theorem sum_field_exact (K : Z) (rows : list Row) (candidates : list string) :
  (0 <= K <= 999000)%Z ->
  plain_column K candidates rows ->
  exists d,
    sum_field rows candidates = Ok d
    ∧ plain_units K d = Some (exact_total K candidates rows)
    ∧ forall rows', rows ≡ₚ rows' ->
        exists d', sum_field rows' candidates = Ok d'
                   ∧ plain_units K d' = plain_units K d.
Proof.
  intros HK Hp.
  destruct (sum_field_plain K HK candidates rows Hp) as (d & Hd & Hu).
  exists d. split; [done|]. split; [done|].
  intros rows' Hperm.
  assert (plain_column K candidates rows') as Hp'.
  { destruct Hp as (m & Hm & Hlt). exists m.
    by rewrite <- (magnitude_perm K candidates rows rows' Hperm). }
  destruct (sum_field_plain K HK candidates rows' Hp') as (d' & Hd' & Hu').
  exists d'. split; [done|].
  by rewrite Hu, Hu', (exact_total_perm K candidates rows rows' Hperm).
Qed.

Lemma sum_field_exact_witness :
  exists d,
    sum_field (fetched "https://files.example/ledger.csv") gross_candidates = Ok d
    ∧ plain_units 2 d = Some 15725%Z.
Proof.
  destruct (sum_field_exact 2 (fetched "https://files.example/ledger.csv")
              gross_candidates) as (d & Hd & Hu & _).
  - lia.
  - eapply plain_column_decide; [vm_compute; reflexivity|]; vm_compute; reflexivity.
  - exists d. split; [exact Hd|]. rewrite Hu. vm_compute. reflexivity.
Defined.

(** X6. A cell that [safe_decimal] reads as a signalling NaN makes
    [sum_field] raise InvalidOperation as soon as it is added, whatever the
    total so far and whatever follows. *)
Theorem sum_field_raises_on_snan (rows1 rows2 : list Row) (row : Row)
    (candidates : list string) (total : Decimal) (v : value)
    (s : bool) (p : N) :
  sum_field rows1 candidates = Ok total ->
  amount_cell row candidates = Some v ->
  safe_decimal v = Ok (sNaN s p) ->
  sum_field (rows1 ++ row :: rows2) candidates = Raise InvalidOperation.
Proof.
  intros Ht Hc Hv. unfold sum_field in *.
  assert (sum_step candidates total row = Raise InvalidOperation) as Hs.
  { unfold sum_step. rewrite Hc, Hv. apply add_snan. }
  rewrite sum_loop_app, Ht.
  change (sum_step candidates total row
            ≫= (fun t => sum_loop candidates t rows2) = Raise InvalidOperation).
  by rewrite Hs.
Qed.

Lemma sum_field_raises_on_snan_witness :
  sum_field
    ([mkrow [("Gross", "10.00")]] ++
       mkrow [("Gross (AUD)", " "); ("Gross", "sNaN")] :: [mkrow [("Gross", "1")]])
    gross_candidates = Raise InvalidOperation.
Proof.
  apply (sum_field_raises_on_snan [mkrow [("Gross", "10.00")]] _ _ _
           (Finite false 1000 (-2)) (Some "sNaN") false 0%N);
    vm_compute; reflexivity.
Defined.

(** ** The indices *)

Lemma filter_ext_elem (P Q : Row -> Prop) `{forall r, Decision (P r)}
    `{forall r, Decision (Q r)} (l : list Row) :
  (forall r, r ∈ l -> P r <-> Q r) -> filter P l = filter Q l.
Proof.
  induction l as [|r l IH]; intros Hext; [done|].
  rewrite !filter_cons.
  assert (filter P l = filter Q l) as ->
    by (apply IH; intros r' Hr'; apply Hext; by right).
  pose proof (Hext r ltac:(left)) as Hr.
  destruct (decide (P r)), (decide (Q r)); tauto.
Qed.

Lemma sum_Z_ext {A} (f g : A -> Z) (l : list A) :
  (forall x, x ∈ l -> f x = g x) -> sum_Z (f <$> l) = sum_Z (g <$> l).
Proof.
  induction l as [|x l IH]; intros Hext; [done|].
  rewrite !fmap_cons. simpl. rewrite IH, (Hext x) by (try left; intros; apply Hext; by right).
  done.
Qed.

Section index_shape.
Context (key : Row -> string).

Lemma build_index_iff rows k l :
  build_index key rows !! k = Some l <->
  k ≠ "" ∧ l ≠ [] ∧ l = filter (fun r => key r = k) rows.
Proof.
  split.
  - intros H. apply build_index_Some in H as (? & ? & ?). done.
  - intros (Hk & Hne & ->). rewrite build_index_lookup, decide_False by done.
    by destruct (filter _ rows).
Qed.

Lemma build_index_sizes rows :
  sum_list ((fun k => length (default [] (build_index key rows !! k)))
              <$> elements (dom (build_index key rows)))
    = length (filter (fun r => key r ≠ "") rows).
Proof.
  apply Nat2Z.inj. rewrite <- sum_Z_of_nat, <- sum_Z_ones.
  rewrite (filter_ext_elem (fun r => key r ≠ "")
             (fun r => key r ∈ elements (dom (build_index key rows)))).
  2:{ intros r Hr. rewrite elem_of_elements, build_index_dom. split; [eauto|].
      by intros [? _]. }
  rewrite <- (weight_groups (fun _ => 1%Z) key) by apply NoDup_elements.
  apply sum_Z_ext. intros k Hk.
  apply elem_of_elements, build_index_dom in Hk as [Hk _].
  by rewrite <- sum_Z_ones, build_index_group, decide_False.
Qed.

End index_shape.

(** X7. Each of the four indices maps a key to the rows of the input
    that have this key, in input order; it has no entry for the empty key and
    no empty group. *)
Theorem index_groups (ledger_rows invoice_rows manifest_rows : list Row)
    (k : string) (l : list Row) :
  (build_ledger_index ledger_rows !! k = Some l <->
     k ≠ "" ∧ l ≠ [] ∧ l = filter (fun r => ledger_invoice_key r = k) ledger_rows)
  ∧ ((build_invoice_indices invoice_rows).1 !! k = Some l <->
       k ≠ "" ∧ l ≠ [] ∧ l = filter (fun r => invoice_guid_key r = k) invoice_rows)
  ∧ ((build_invoice_indices invoice_rows).2 !! k = Some l <->
       k ≠ "" ∧ l ≠ [] ∧ l = filter (fun r => invoice_number_key r = k) invoice_rows)
  ∧ (build_manifest_index manifest_rows !! k = Some l <->
       k ≠ "" ∧ l ≠ [] ∧ l = filter (fun r => manifest_guid_key r = k) manifest_rows).
Proof.
  rewrite build_invoice_indices_eq. cbn [fst snd].
  split; [apply (build_index_iff ledger_invoice_key)|].
  split; [apply build_index_iff|]. split; [apply build_index_iff|].
  apply (build_index_iff manifest_guid_key).
Qed.

(** X8. Indexing neither loses nor repeats a row: over all keys of an
    index, the sizes of the groups add up to the number of input rows whose
    key is not empty. *)
Theorem index_sizes (ledger_rows invoice_rows manifest_rows : list Row) :
  let group_sizes (index : Index) : nat :=
    sum_list ((fun k => length (default [] (index !! k))) <$> elements (dom index)) in
  group_sizes (build_ledger_index ledger_rows)
    = length (filter (fun r => ledger_invoice_key r ≠ "") ledger_rows)
  ∧ group_sizes (build_invoice_indices invoice_rows).1
    = length (filter (fun r => invoice_guid_key r ≠ "") invoice_rows)
  ∧ group_sizes (build_invoice_indices invoice_rows).2
    = length (filter (fun r => invoice_number_key r ≠ "") invoice_rows)
  ∧ group_sizes (build_manifest_index manifest_rows)
    = length (filter (fun r => manifest_guid_key r ≠ "") manifest_rows).
Proof.
  intros group_sizes. unfold group_sizes.
  rewrite build_invoice_indices_eq. cbn [fst snd].
  split; [apply (build_index_sizes ledger_invoice_key)|].
  split; [apply build_index_sizes|]. split; [apply build_index_sizes|].
  apply (build_index_sizes manifest_guid_key).
Qed.

(** ** The master records *)

Section record_facts.
Context (year : string) (ledger_rows invoice_rows manifest_rows : list Row).

Let L := build_ledger_index ledger_rows.
Let I := (build_invoice_indices invoice_rows).1.
Let M := build_manifest_index manifest_rows.

Lemma guid_record_eq g rec :
  guid_record year L I M g = Ok rec ->
  let inv_rows := default [] (I !! g) in
  let man_rows := default [] (M !! g) in
  let first_inv := first_or_empty inv_rows in
  let led_rows := ledger_rows_for L (invoice_number_key first_inv) in
  exists lt tt gr nt gs,
    rec = {| Year := year;
             Invoice_GUID := g;
             Invoice_Number := invoice_number_key first_inv;
             Invoice_Type := norm (dict_get first_inv "Type");
             Invoice_Date := norm (dict_get first_inv "Date");
             Invoice_Contact := norm (dict_get first_inv "Contact");
             Invoice_Description := norm (dict_get first_inv "Description");
             Invoice_Currency := norm (dict_get first_inv "Currency");
             Invoice_Line_Count := length inv_rows;
             Invoice_Line_Total := Dec.format_2f lt;
             Invoice_Tax_Total := Dec.format_2f tt;
             In_Ledger := yes_no (non_empty led_rows);
             Ledger_Row_Count := length led_rows;
             Ledger_Gross_AUD := Dec.format_2f gr;
             Ledger_Net_AUD := Dec.format_2f nt;
             Ledger_GST_AUD := Dec.format_2f gs;
             In_Manifest := yes_no (non_empty man_rows);
             Manifest_Row_Count := length man_rows;
             PDF_Present := yes_no (non_empty (pdf_paths_of man_rows));
             PDF_Count := length (pdf_paths_of man_rows);
             PDF_Paths := join "; " (pdf_paths_of man_rows) |}.
Proof.
  intros H inv_rows man_rows first_inv led_rows. unfold guid_record in H.
  fold inv_rows man_rows first_inv led_rows in H.
  destruct (sum_field _ line_candidates) as [lt|]; [cbn in H|done].
  destruct (sum_field _ tax_candidates) as [tt|]; [cbn in H|done].
  destruct (sum_field _ gross_candidates) as [gr|]; [cbn in H|done].
  destruct (sum_field _ net_candidates) as [nt|]; [cbn in H|done].
  destruct (sum_field _ gst_candidates) as [gs|]; [cbn in H|done].
  injection H as <-. by exists lt, tt, gr, nt, gs.
Qed.

Lemma ledger_only_record_eq k rec :
  ledger_only_record year L k = Ok rec ->
  let l_rows := default [] (L !! k) in
  let first_l := first_or_empty l_rows in
  exists gr nt gs,
    rec = {| Year := year;
             Invoice_GUID := "";
             Invoice_Number := k;
             Invoice_Type := "";
             Invoice_Date := "";
             Invoice_Contact := norm (dict_get first_l "Contact");
             Invoice_Description := norm (dict_get first_l "Description");
             Invoice_Currency := norm (dict_get first_l "Currency");
             Invoice_Line_Count := 0;
             Invoice_Line_Total := "0.00";
             Invoice_Tax_Total := "0.00";
             In_Ledger := "Y";
             Ledger_Row_Count := length l_rows;
             Ledger_Gross_AUD := Dec.format_2f gr;
             Ledger_Net_AUD := Dec.format_2f nt;
             Ledger_GST_AUD := Dec.format_2f gs;
             In_Manifest := "N";
             Manifest_Row_Count := 0;
             PDF_Present := "N";
             PDF_Count := 0;
             PDF_Paths := "" |}.
Proof.
  intros H l_rows first_l. unfold ledger_only_record in H.
  fold l_rows first_l in H.
  destruct (sum_field _ gross_candidates) as [gr|]; [cbn in H|done].
  destruct (sum_field _ net_candidates) as [nt|]; [cbn in H|done].
  destruct (sum_field _ gst_candidates) as [gs|]; [cbn in H|done].
  injection H as <-. by exists gr, nt, gs.
Qed.

(** Where a record of the output comes from. *)
Lemma master_rows_elem rows rec :
  master_rows year L I M = Ok rows -> rec ∈ rows ->
  (exists g, g ∈ guid_keys I M ∧ g ≠ "" ∧ guid_record year L I M g = Ok rec)
  ∨ (exists k, (k ∈ dom L) ∧ (k ∉ invnums_from_guid I) ∧ k ≠ ""
               ∧ ledger_only_record year L k = Ok rec).
Proof.
  intros (p1 & p2 & -> & H1 & H2)%master_rows_Ok [Hin|Hin]%elem_of_app.
  - left. apply list_elem_of_lookup in Hin as [i Hi].
    destruct (Forall2_lookup_r _ _ _ _ _ H1 Hi) as (g & Hg & Hrec).
    exists g. apply list_elem_of_lookup_2, sorted_elem, elem_of_elements in Hg.
    split; [done|]. split; [|done].
    by apply (guid_keys_non_empty invoice_rows manifest_rows).
  - right. apply list_elem_of_lookup in Hin as [i Hi].
    destruct (Forall2_lookup_r _ _ _ _ _ H2 Hi) as (k & Hk & Hrec).
    exists k. apply list_elem_of_lookup_2, sorted_elem, elem_of_elements in Hk.
    unfold ledger_only_invnums in Hk.
    apply elem_of_difference in Hk as [HkL Hkn].
    split; [done|]. split; [done|]. split; [|done].
    by apply (ledger_keys_non_empty ledger_rows).
Qed.

Lemma index_group_filter key rows k :
  default [] (build_index key rows !! k)
    = filter (fun r => key r = k ∧ k ≠ "") rows.
Proof.
  rewrite build_index_group. case_decide as Hk.
  - symmetry. apply weight_filter_none. intros r _ [_ ?]. done.
  - apply list_filter_iff. intros r. split; [done|by intros [? _]].
Qed.

Lemma ledger_rows_for_filter k :
  ledger_rows_for L k
    = filter (fun r => ledger_invoice_key r = k ∧ k ≠ "") ledger_rows.
Proof.
  unfold ledger_rows_for. destruct (Str.is_empty k) eqn:E.
  - apply is_empty_true in E. symmetry. apply weight_filter_none.
    intros r _ [_ ?]. done.
  - apply (index_group_filter ledger_invoice_key).
Qed.

Lemma invoice_group_filter g :
  default [] (I !! g)
    = filter (fun r => invoice_guid_key r = g ∧ g ≠ "") invoice_rows.
Proof.
  unfold I. rewrite build_invoice_indices_eq. apply index_group_filter.
Qed.

Lemma manifest_group_filter g :
  default [] (M !! g)
    = filter (fun r => manifest_guid_key r = g ∧ g ≠ "") manifest_rows.
Proof. apply (index_group_filter manifest_guid_key). Qed.

Lemma yes_no_consistent {A} (l : list A) :
  flag_consistent (yes_no (non_empty l)) (length l).
Proof. destruct l; [right|left]; simpl; split; (done || lia). Qed.

Lemma join_nil_iff sep ps :
  Forall (fun p => p ≠ "") ps -> (length ps = 0 <-> join sep ps = "").
Proof.
  destruct 1 as [|p ps Hp _]; [done|].
  split; [done|]. simpl. destruct p as [|c p]; [done|].
  by destruct ps.
Qed.

Lemma pdf_paths_elem man_rows p :
  p ∈ pdf_paths_of man_rows <->
  p ≠ "" ∧ exists row, row ∈ man_rows ∧ manifest_pdf_path row = p.
Proof.
  rewrite pdf_paths_perm, elem_of_remove_dups, list_elem_of_filter,
    list_elem_of_fmap.
  split; intros [Hp (row & Hrow & Hin)]; (split; [done|]); exists row; done.
Qed.

Lemma pdf_paths_length man_rows :
  length (pdf_paths_of man_rows) <= length man_rows.
Proof.
  rewrite pdf_paths_perm.
  etrans; [apply length_remove_dups|].
  etrans; [apply length_filter|]. by rewrite length_fmap.
Qed.

End record_facts.

(** X9. In every record of the master list the year is the run's year,
    each of the three flags is "Y" with a count of at least one or "N" with
    a count of zero, there are no more distinct PDF paths than manifest
    rows, and the list of paths is empty exactly when the count is zero. *)
Theorem master_record_flags (year : string)
    (ledger_rows invoice_rows manifest_rows : list Row)
    (rows : list MasterRecord) :
  master_rows year (build_ledger_index ledger_rows)
    (build_invoice_indices invoice_rows).1
    (build_manifest_index manifest_rows) = Ok rows ->
  Forall (fun rec =>
            Year rec = year
            ∧ flag_consistent (In_Ledger rec) (Ledger_Row_Count rec)
            ∧ flag_consistent (In_Manifest rec) (Manifest_Row_Count rec)
            ∧ flag_consistent (PDF_Present rec) (PDF_Count rec)
            ∧ PDF_Count rec <= Manifest_Row_Count rec
            ∧ (PDF_Count rec = 0 <-> PDF_Paths rec = "")) rows.
Proof.
  intros Hrows. apply Forall_forall. intros rec Hin.
  destruct (master_rows_elem _ _ _ _ _ _ Hrows Hin)
    as [(g & _ & _ & Hrec)|(k & HkL & _ & _ & Hrec)].
  - apply guid_record_eq in Hrec as (lt & tt & gr & nt & gs & ->). cbn.
    split; [done|]. split; [apply yes_no_consistent|].
    split; [apply yes_no_consistent|]. split; [apply yes_no_consistent|].
    split; [apply pdf_paths_length|].
    apply join_nil_iff, Forall_forall. intros p Hp.
    by apply pdf_paths_elem in Hp as [? _].
  - apply ledger_only_record_eq in Hrec as (gr & nt & gs & ->). cbn.
    split; [done|]. split.
    + left. split; [done|].
      apply elem_of_dom in HkL as [l Hl]. rewrite Hl. cbn.
      apply (build_index_Some ledger_invoice_key) in Hl as (_ & _ & Hl).
      destruct l; [done|simpl; lia].
    + split; [by right|]. split; [by right|]. done.
Qed.

Lemma master_record_flags_witness :
  Forall (fun rec =>
            Year rec = "2016"
            ∧ flag_consistent (In_Ledger rec) (Ledger_Row_Count rec)
            ∧ flag_consistent (In_Manifest rec) (Manifest_Row_Count rec)
            ∧ flag_consistent (PDF_Present rec) (PDF_Count rec)
            ∧ PDF_Count rec <= Manifest_Row_Count rec
            ∧ (PDF_Count rec = 0 <-> PDF_Paths rec = "")) demo_rows.
Proof.
  apply (master_record_flags "2016" demo_ledger_rows demo_invoice_rows
           demo_manifest_rows).
  vm_compute. reflexivity.
Defined.

(** X10. The three counts of a record are counts of input rows: the
    ledger rows whose key is the record's invoice number, the invoice rows
    and the manifest rows whose key is the record's GUID; an empty number
    or GUID matches no row. *)
Theorem master_record_counts (year : string)
    (ledger_rows invoice_rows manifest_rows : list Row)
    (rows : list MasterRecord) :
  master_rows year (build_ledger_index ledger_rows)
    (build_invoice_indices invoice_rows).1
    (build_manifest_index manifest_rows) = Ok rows ->
  Forall (fun rec =>
            Ledger_Row_Count rec =
              length (filter (fun r => ledger_invoice_key r = Invoice_Number rec
                                       ∧ Invoice_Number rec ≠ "") ledger_rows)
            ∧ Invoice_Line_Count rec =
                length (filter (fun r => invoice_guid_key r = Invoice_GUID rec
                                         ∧ Invoice_GUID rec ≠ "") invoice_rows)
            ∧ Manifest_Row_Count rec =
                length (filter (fun r => manifest_guid_key r = Invoice_GUID rec
                                         ∧ Invoice_GUID rec ≠ "") manifest_rows))
         rows.
Proof.
  intros Hrows. apply Forall_forall. intros rec Hin.
  destruct (master_rows_elem _ _ _ _ _ _ Hrows Hin)
    as [(g & _ & _ & Hrec)|(k & _ & _ & _ & Hrec)].
  - apply guid_record_eq in Hrec as (lt & tt & gr & nt & gs & ->). cbn.
    rewrite ledger_rows_for_filter, invoice_group_filter,
      manifest_group_filter. done.
  - apply ledger_only_record_eq in Hrec as (gr & nt & gs & ->). cbn.
    rewrite (index_group_filter ledger_invoice_key).
    split; [done|].
    split; symmetry; apply length_zero_iff_nil, weight_filter_none;
      intros r _ [_ ?]; done.
Qed.

Lemma master_record_counts_witness :
  Forall (fun rec =>
            Ledger_Row_Count rec =
              length (filter (fun r => ledger_invoice_key r = Invoice_Number rec
                                       ∧ Invoice_Number rec ≠ "")
                        demo_ledger_rows)
            ∧ Invoice_Line_Count rec =
                length (filter (fun r => invoice_guid_key r = Invoice_GUID rec
                                         ∧ Invoice_GUID rec ≠ "")
                          demo_invoice_rows)
            ∧ Manifest_Row_Count rec =
                length (filter (fun r => manifest_guid_key r = Invoice_GUID rec
                                         ∧ Invoice_GUID rec ≠ "")
                          demo_manifest_rows))
         demo_rows.
Proof.
  apply (master_record_counts "2016" demo_ledger_rows demo_invoice_rows
           demo_manifest_rows).
  vm_compute. reflexivity.
Defined.

(** X11. A record without a GUID is a ledger-only record: its invoice
    number is a non-empty ledger key, it has at least one ledger row, and
    every invoice and manifest field has its fixed empty value. *)
Theorem ledger_only_record_shape (year : string)
    (ledger_rows invoice_rows manifest_rows : list Row)
    (rows : list MasterRecord) (rec : MasterRecord) :
  master_rows year (build_ledger_index ledger_rows)
    (build_invoice_indices invoice_rows).1
    (build_manifest_index manifest_rows) = Ok rows ->
  rec ∈ rows -> Invoice_GUID rec = "" ->
  Invoice_Number rec ≠ ""
  ∧ (exists r, r ∈ ledger_rows ∧ ledger_invoice_key r = Invoice_Number rec)
  ∧ (forall r, r ∈ invoice_rows -> invoice_guid_key r ≠ "" ->
       invoice_number_key
         (first_or_empty
            (filter (fun r' => invoice_guid_key r' = invoice_guid_key r)
               invoice_rows)) ≠ Invoice_Number rec)
  ∧ 1 <= Ledger_Row_Count rec
  ∧ In_Ledger rec = "Y"
  ∧ Invoice_Type rec = "" ∧ Invoice_Date rec = ""
  ∧ Invoice_Line_Count rec = 0
  ∧ Invoice_Line_Total rec = "0.00" ∧ Invoice_Tax_Total rec = "0.00"
  ∧ In_Manifest rec = "N" ∧ Manifest_Row_Count rec = 0
  ∧ PDF_Present rec = "N" ∧ PDF_Count rec = 0 ∧ PDF_Paths rec = "".
Proof.
  intros Hrows Hin Hg.
  destruct (master_rows_elem _ _ _ _ _ _ Hrows Hin)
    as [(g & _ & Hne & Hrec)|(k & HkL & Hkn & Hk & Hrec)].
  - apply guid_record_eq in Hrec as (lt & tt & gr & nt & gs & ->).
    cbn in Hg. done.
  - apply ledger_only_record_eq in Hrec as (gr & nt & gs & ->). cbn.
    apply elem_of_dom in HkL as [l Hl].
    pose proof (build_index_Some ledger_invoice_key _ _ _ Hl)
      as (_ & Hfil & Hnil).
    split; [done|]. split.
    { destruct l as [|r l]; [done|].
      assert (r ∈ r :: l) as Hr by left.
      rewrite Hfil in Hr. apply list_elem_of_filter in Hr as [? ?]. eauto. }
    split.
    { intros r Hr Hrg Heq. apply Hkn.
      apply elem_invnums_from_guid.
      rewrite build_invoice_indices_eq. cbn [fst].
      destruct (filter (fun r' => invoice_guid_key r' = invoice_guid_key r)
                  invoice_rows) as [|r0 rest] eqn:E.
      { assert (r ∈ @nil Row) as Hbad; [|by inversion Hbad].
        rewrite <- E. by apply list_elem_of_filter. }
      exists (invoice_guid_key r), r0, rest. split; [|done].
      rewrite build_index_lookup, decide_False, E by done. done. }
    rewrite Hl. cbn. split; [destruct l; [done|simpl; lia]|]. done.
Qed.

Lemma ledger_only_record_shape_witness :
  exists rec,
    rec ∈ demo_rows ∧ Invoice_Number rec = "INV-2" ∧ In_Ledger rec = "Y"
    ∧ In_Manifest rec = "N" ∧ PDF_Paths rec = "".
Proof.
  destruct (demo_rows !! 2) as [rec|] eqn:E; [|vm_compute in E; discriminate E].
  assert (rec ∈ demo_rows) as Hin by (by apply list_elem_of_lookup_2 with 2).
  assert (Invoice_GUID rec = "") as Hg
    by (vm_compute in E; injection E as <-; reflexivity).
  destruct (ledger_only_record_shape "2016" demo_ledger_rows demo_invoice_rows
              demo_manifest_rows demo_rows rec
              ltac:(vm_compute; reflexivity) Hin Hg)
    as (_ & _ & _ & _ & Hl & _ & _ & _ & _ & _ & Hm & _ & _ & _ & Hp).
  exists rec. split; [exact Hin|]. split; [|done].
  vm_compute in E. injection E as <-. reflexivity.
Defined.

(** X12. The descriptive fields of a record are read from the first row,
    in file order, of the group it stands for: for a record with a GUID the
    first invoice row with that GUID (number, type, date, contact,
    description, currency); for a ledger-only record the first ledger row
    with its invoice number (contact, description, currency). *)
Theorem master_record_first_row (year : string)
    (ledger_rows invoice_rows manifest_rows : list Row)
    (rows : list MasterRecord) (rec : MasterRecord) :
  master_rows year (build_ledger_index ledger_rows)
    (build_invoice_indices invoice_rows).1
    (build_manifest_index manifest_rows) = Ok rows ->
  rec ∈ rows ->
  let first :=
    if decide (Invoice_GUID rec = "") then
      first_or_empty
        (filter (fun r => ledger_invoice_key r = Invoice_Number rec) ledger_rows)
    else
      first_or_empty
        (filter (fun r => invoice_guid_key r = Invoice_GUID rec) invoice_rows) in
  Invoice_Contact rec = norm (dict_get first "Contact")
  ∧ Invoice_Description rec = norm (dict_get first "Description")
  ∧ Invoice_Currency rec = norm (dict_get first "Currency")
  ∧ (Invoice_GUID rec ≠ "" ->
       Invoice_Number rec = invoice_number_key first
       ∧ Invoice_Type rec = norm (dict_get first "Type")
       ∧ Invoice_Date rec = norm (dict_get first "Date")).
Proof.
  intros Hrows Hin.
  destruct (master_rows_elem _ _ _ _ _ _ Hrows Hin)
    as [(g & _ & Hg & Hrec)|(k & _ & _ & Hk & Hrec)].
  - apply guid_record_eq in Hrec as (lt & tt & gr & nt & gs & ->). cbn.
    rewrite decide_False by done.
    rewrite invoice_group_filter.
    rewrite (list_filter_iff _ (fun r => invoice_guid_key r = g))
      by (intros r; split; [by intros [? _]|done]).
    done.
  - apply ledger_only_record_eq in Hrec as (gr & nt & gs & ->). cbn.
    rewrite (index_group_filter ledger_invoice_key).
    rewrite (list_filter_iff _ (fun r => ledger_invoice_key r = k))
      by (intros r; split; [by intros [? _]|done]).
    done.
Qed.

Lemma master_record_first_row_witness :
  exists rec,
    rec ∈ demo_rows ∧ Invoice_GUID rec = "guid-1"
    ∧ Invoice_Number rec = "INV-1".
Proof.
  destruct (demo_rows !! 0) as [rec|] eqn:E; [|vm_compute in E; discriminate E].
  assert (rec ∈ demo_rows) as Hin by (by apply list_elem_of_lookup_2 with 0).
  destruct (master_record_first_row "2016" demo_ledger_rows demo_invoice_rows
              demo_manifest_rows demo_rows rec
              ltac:(vm_compute; reflexivity) Hin)
    as (_ & _ & _ & Hn).
  assert (Invoice_GUID rec = "guid-1") as Hg
    by (vm_compute in E; injection E as <-; reflexivity).
  exists rec. split; [exact Hin|]. split; [exact Hg|].
  destruct Hn as (-> & _); [by rewrite Hg|].
  rewrite Hg. vm_compute. reflexivity.
Defined.

Lemma size_dom_index (key : Row -> string) (rows : list Row) :
  size (dom (build_index key rows)) <= length rows.
Proof.
  etrans; [apply (subseteq_size _ (list_to_set (remove_dups (key <$> rows))))|].
  - intros k (_ & r & Hr & <-)%build_index_dom.
    apply elem_of_list_to_set, elem_of_remove_dups, list_elem_of_fmap. eauto.
  - rewrite size_list_to_set by apply NoDup_remove_dups.
    etrans; [apply length_remove_dups|]. by rewrite length_fmap.
Qed.

(** X13. The summary of a finished run: the number of master rows is the
    number of GUID keys plus the number of ledger-only invoice numbers; the
    three input counts are the lengths of the inputs; there are at most as
    many GUID keys as invoice and manifest rows, and at most as many
    ledger-only numbers as ledger rows; the file name recorded is the one
    the CSV is stored under. *)
Theorem summary_counts (year : string)
    (ledger_rows invoice_rows manifest_rows : list Row) (out : Output) :
  reconcile year ledger_rows invoice_rows manifest_rows = Ok out ->
  let s := summary out in
  summary_master_rows s
    = summary_guid_keys s + summary_ledger_only_invoice_numbers s
  ∧ summary_ledger_rows s = length ledger_rows
  ∧ summary_invoice_rows s = length invoice_rows
  ∧ summary_manifest_rows s = length manifest_rows
  ∧ summary_guid_keys s <= length invoice_rows + length manifest_rows
  ∧ summary_ledger_only_invoice_numbers s <= length ledger_rows
  ∧ summary_year s = year
  ∧ summary_kv_filename s = kv_filename out.
Proof.
  intros H s. subst s. unfold reconcile in H.
  pose proof (build_invoice_indices_eq invoice_rows) as EI.
  destruct (build_invoice_indices invoice_rows) as [by_guid by_invnum].
  injection EI as -> ->.
  destruct (master_rows _ _ _ _) as [rows|] eqn:Hrows; [cbn in H|done].
  injection H as <-. cbn.
  apply master_rows_Ok in Hrows as (p1 & p2 & -> & H1 & H2).
  apply Forall2_length in H1, H2.
  rewrite sorted_length in H1, H2.
  split.
  { rewrite length_app, <- H1, <- H2. reflexivity. }
  do 3 (split; [done|]). split.
  { unfold guid_keys. rewrite size_union_alt.
    set (X := dom (build_index invoice_guid_key invoice_rows)).
    set (Y := dom (build_manifest_index manifest_rows)).
    assert (size X <= length invoice_rows)
      by apply (size_dom_index invoice_guid_key).
    assert (size Y <= length manifest_rows)
      by apply (size_dom_index manifest_guid_key).
    assert (size (Y ∖ X) <= size Y).
    { apply subseteq_size. intros x [? _]%elem_of_difference. done. }
    lia. }
  split; [|done].
  unfold ledger_only_invnums.
  etrans; [|apply (size_dom_index ledger_invoice_key)].
  apply subseteq_size. intros x [? _]%elem_of_difference. done.
Qed.

Lemma summary_counts_witness :
  exists out,
    reconcile "2016" demo_ledger_rows demo_invoice_rows demo_manifest_rows
      = Ok out
    ∧ summary_master_rows (summary out) = 3
    ∧ summary_guid_keys (summary out) = 2
    ∧ summary_ledger_only_invoice_numbers (summary out) = 1.
Proof.
  destruct (reconcile "2016" demo_ledger_rows demo_invoice_rows
              demo_manifest_rows) as [out|] eqn:E;
    [|vm_compute in E; discriminate E].
  pose proof (summary_counts _ _ _ _ _ E) as (Hsum & _).
  exists out. split; [reflexivity|].
  assert (summary_guid_keys (summary out) = 2
          ∧ summary_ledger_only_invoice_numbers (summary out) = 1) as [Hg Hl]
    by (vm_compute in E; injection E as <-; split; reflexivity).
  clear E. split; [|split; [exact Hg|exact Hl]].
  rewrite Hsum, Hg, Hl. reflexivity.
Defined.

(** X14. The PDF paths written for a GUID are its distinct non-empty
    manifest paths, each once, in strictly ascending order, joined by "; ";
    their number is [PDF_Count]. *)
Theorem pdf_paths_listing (year : string) (L I M : Index) (guid : string)
    (r : MasterRecord) :
  guid_record year L I M guid = Ok r ->
  exists ps,
    PDF_Paths r = join "; " ps
    ∧ PDF_Count r = length ps
    ∧ StronglySorted (strict String.le) ps
    ∧ forall p, p ∈ ps <->
        p ≠ "" ∧ exists row, row ∈ default [] (M !! guid)
                             ∧ manifest_pdf_path row = p.
Proof.
  intros Hr. exists (pdf_paths_of (default [] (M !! guid))).
  unfold guid_record in Hr.
  destruct (sum_field _ line_candidates) as [lt|]; [cbn in Hr|done].
  destruct (sum_field _ tax_candidates) as [tt|]; [cbn in Hr|done].
  destruct (sum_field _ gross_candidates) as [gr|]; [cbn in Hr|done].
  destruct (sum_field _ net_candidates) as [nt|]; [cbn in Hr|done].
  destruct (sum_field _ gst_candidates) as [gs|]; [cbn in Hr|done].
  injection Hr as <-. cbn.
  split; [done|]. split; [done|]. split.
  - unfold pdf_paths_of. apply sorted_strict, NoDup_elements.
  - apply pdf_paths_elem.
Qed.

Lemma pdf_paths_listing_witness :
  exists r,
    guid_record "2016" ∅ ∅ demo_manifest_index "guid-1" = Ok r
    ∧ exists ps, PDF_Paths r = join "; " ps ∧ PDF_Count r = length ps.
Proof.
  destruct (guid_record "2016" ∅ ∅ demo_manifest_index "guid-1") as [r|] eqn:E;
    [|vm_compute in E; discriminate E].
  destruct (pdf_paths_listing _ _ _ _ _ _ E) as (ps & Hp & Hc & _).
  clear E. exists r. split; [reflexivity|]. exists ps.
  split; [exact Hp|exact Hc].
Defined.

(** ** The rows of the fallback parser *)

Section fallback_rows.

Let put (m : Row) (kv : string * string) : Row := <[kv.1 := Some kv.2]> m.

Lemma foldl_put_lookup l (m0 : Row) k v :
  foldl put m0 l !! k = Some v ->
  m0 !! k = Some v ∨ exists s, v = Some s ∧ (k, s) ∈ l.
Proof.
  revert m0. induction l as [|[k' s'] l IH]; intros m0; simpl; [by left|].
  intros [H|(s & -> & Hin)]%IH.
  - unfold put in H. simpl in H.
    destruct (decide (k' = k)) as [->|Hne].
    + rewrite lookup_insert_eq in H. injection H as <-.
      right. exists s'. split; [done|left].
    + rewrite lookup_insert_ne in H by done. by left.
  - right. exists s. split; [done|by right].
Qed.

Lemma foldl_put_dom l (m0 : Row) :
  dom (foldl put m0 l) = dom m0 ∪ list_to_set l.*1.
Proof.
  revert m0. induction l as [|[k s] l IH]; intros m0; simpl.
  - by rewrite (right_id_L ∅ (∪)).
  - rewrite IH. unfold put. simpl. rewrite dom_insert_L.
    by rewrite (comm_L (∪) {[k]} (dom m0)), (assoc_L (∪)).
Qed.

Lemma foldl_put_absent l (m0 : Row) k :
  k ∉ l.*1 -> foldl put m0 l !! k = m0 !! k.
Proof.
  revert m0. induction l as [|[k' s'] l IH]; intros m0; simpl; [done|].
  intros [Hne Hin]%not_elem_of_cons. rewrite IH by done.
  unfold put. simpl. by rewrite lookup_insert_ne.
Qed.

Lemma foldl_put_present l (m0 : Row) i k s :
  NoDup l.*1 -> l !! i = Some (k, s) -> foldl put m0 l !! k = Some (Some s).
Proof.
  revert m0 i. induction l as [|[k' s'] l IH]; intros m0 i; simpl; [done|].
  intros [Hk Hnd]%NoDup_cons Hi. destruct i as [|i]; simpl in Hi.
  - injection Hi as -> ->. rewrite foldl_put_absent by done.
    unfold put. simpl. by rewrite lookup_insert_eq.
  - by apply (IH _ i).
Qed.

Lemma dict_zip_facts header parts :
  length parts = length header ->
  let row := Loader.dict_zip header parts in
  dom row = list_to_set header
  ∧ (forall k v, row !! k = Some v -> exists s, v = Some s ∧ s ∈ parts)
  ∧ (NoDup header -> forall i k, header !! i = Some k ->
       row !! k = Some (parts !! i)).
Proof.
  intros Hlen row. unfold row, Loader.dict_zip. fold put.
  assert ((zip header parts).*1 = header) as Hfst by (apply fst_zip; lia).
  split; [|split].
  - by rewrite foldl_put_dom, Hfst, dom_empty_L, (left_id_L ∅ (∪)).
  - intros k v [H|(s & -> & Hin)]%foldl_put_lookup; [done|].
    exists s. split; [done|].
    apply list_elem_of_lookup in Hin as [i Hi].
    apply lookup_zip_with_Some in Hi as (? & ? & [= <- <-] & _ & Hp).
    by apply list_elem_of_lookup_2 in Hp.
  - intros Hnd i k Hi.
    destruct (lookup_lt_is_Some_2 parts i) as [s Hs].
    { rewrite Hlen. by apply lookup_lt_Some in Hi. }
    rewrite Hs. apply (foldl_put_present _ _ i); [by rewrite Hfst|].
    apply lookup_zip_with_Some. by exists k, s.
Qed.

Lemma fields_stripped ln s : s ∈ Loader.fields ln -> Str.strip s = s.
Proof.
  unfold Loader.fields. intros (f & -> & _)%list_elem_of_fmap.
  apply strip_idem.
Qed.

End fallback_rows.

(** X15. Every row the fallback parser returns comes from one non-blank
    line after the header line whose field count is the header's; its keys
    are exactly the header names; every cell is a text (never [None])
    without surrounding white space taken from that line; and when the
    header names are distinct, the cell under the i-th name is the i-th
    field of the line.  There are fewer rows than non-blank lines. *)
Theorem fallback_rows_shape (text : string) :
  let lines :=
    filter (fun ln => Str.is_empty (Str.strip ln) = false)
      (Loader.splitlines text) in
  length (Loader.fallback_parse text) <= pred (length lines)
  ∧ forall row, row ∈ Loader.fallback_parse text ->
      exists first rest ln,
        lines = first :: rest
        ∧ ln ∈ rest
        ∧ length (Loader.fields ln) = length (Loader.fields first)
        ∧ dom row = list_to_set (Loader.fields first)
        ∧ (forall k v, row !! k = Some v ->
             exists s, v = Some s ∧ s ∈ Loader.fields ln ∧ Str.strip s = s)
        ∧ (NoDup (Loader.fields first) -> forall i k,
             Loader.fields first !! i = Some k ->
             row !! k = Some (Loader.fields ln !! i)).
Proof.
  intros lines. rewrite fallback_parse_spec. unfold fallback_spec.
  fold lines. destruct lines as [|first rest]; [split; [done|]|split].
  - intros row Hrow. by inversion Hrow.
  - rewrite length_fmap. etrans; [apply length_filter|].
    by rewrite length_fmap.
  - intros row (parts & -> & Hin)%list_elem_of_fmap.
    apply list_elem_of_filter in Hin as [Hlen Hin].
    apply list_elem_of_fmap in Hin as (ln & -> & Hln).
    exists first, rest, ln.
    destruct (dict_zip_facts (Loader.fields first) (Loader.fields ln) Hlen)
      as (Hdom & Hval & Hpos).
    split; [done|]. split; [done|]. split; [done|]. split; [done|].
    split; [|done].
    intros k v (s & -> & Hs)%Hval. exists s. split; [done|].
    split; [done|]. by apply (fields_stripped ln).
Qed.

Lemma fallback_rows_shape_witness :
  let text := "a , b" +:+ String Loader.LF "1,2,3" +:+ String Loader.LF " x ,y" in
  Loader.fallback_parse text = [mkrow [("a", "x"); ("b", "y")]]
  ∧ exists first rest ln,
      filter (fun ln => Str.is_empty (Str.strip ln) = false)
        (Loader.splitlines text) = first :: rest
      ∧ ln ∈ rest
      ∧ dom (mkrow [("a", "x"); ("b", "y")]) = list_to_set (Loader.fields first).
Proof.
  intros text.
  assert (Loader.fallback_parse text = [mkrow [("a", "x"); ("b", "y")]]) as E
    by (vm_compute; reflexivity).
  split; [exact E|].
  destruct (proj2 (fallback_rows_shape text) (mkrow [("a", "x"); ("b", "y")]))
    as (first & rest & ln & H1 & H2 & _ & H4 & _).
  - rewrite E. left.
  - exists first, rest, ln. split; [exact H1|]. split; [exact H2|exact H4].
Defined.

(** ** Reading the written amounts back *)

Section read_back.
Local Open Scope Z_scope.

Lemma amount_char_not_comma c : amount_char c = true -> Ascii.eqb c "," = false.
Proof.
  destruct c as [[] [] [] [] [] [] [] []]; try discriminate; reflexivity.
Qed.

Lemma amount_text_no_comma t :
  amount_text t = true -> Str.remove_char "," t = t.
Proof.
  induction t as [|c t IH]; [done|]. cbn [amount_text Str.remove_char].
  intros [Hc Ht]%andb_prop. by rewrite (amount_char_not_comma c Hc), IH.
Qed.

(** The text that [format_2f] writes for a finite value with [q]
    hundredths is read by [safe_decimal] as that value. *)
Lemma safe_decimal_amount (s : bool) (q : N) :
  Z.of_N q < 10 ^ 28 ->
  safe_decimal (Some (Dec.sign_str s +:+ Dec.str_of_N (q / 100) +:+ "." +:+
                      Dec.pad2 (q mod 100)))
    = Ok (Finite s q (-2)).
Proof.
  intros Hq.
  pose proof (of_str_amount s q Hq) as Hof.
  assert (q mod 100 < 100)%N as Hb by (apply N.mod_upper_bound; lia).
  destruct (pad2_facts _ Hb) as (Hfd & _ & _).
  pose proof (str_of_N_digits (q / 100)) as Hid.
  destruct (str_of_N_cons (q / 100)) as (c & r & Hip & Hc).
  set (text := Dec.sign_str s +:+ Dec.str_of_N (q / 100) +:+ "." +:+
               Dec.pad2 (q mod 100)) in *.
  assert (amount_text text = true) as Htext.
  { unfold text. rewrite !amount_text_app.
    rewrite (digits_only_amount _ Hid), (digits_only_amount _ Hfd).
    by destruct s. }
  assert (Str.is_empty text = false) as Hne.
  { unfold text. rewrite Hip. by destruct s. }
  unfold safe_decimal, norm, Str.strip.
  rewrite (amount_text_lstrip _ Htext), (amount_text_rstrip _ Htext), Hne.
  by rewrite (amount_text_no_comma _ Htext), Hof.
Qed.

Lemma round_half_even_near (c : N) (drop : Z) :
  0 < drop ->
  let q := Dec.round_half_even c drop in
  let p := 10 ^ drop in
  2 * Z.abs (Z.of_N c - Z.of_N q * p) <= p
  ∧ (2 * Z.abs (Z.of_N c - Z.of_N q * p) = p -> Z.even (Z.of_N q) = true)
  ∧ Z.of_N q <= Z.of_N c.
Proof.
  intros Hd q p. unfold q, Dec.round_half_even.
  pose proof (pow10_Z drop ltac:(lia)) as Hp. fold p in Hp.
  assert (10 <= p) as Hp10.
  { unfold p. replace drop with (1 + (drop - 1)) by lia.
    rewrite Z.pow_add_r by lia.
    pose proof (Z.pow_pos_nonneg 10 (drop - 1) ltac:(lia) ltac:(lia)). lia. }
  set (pn := Dec.pow10 drop) in *.
  assert (pn ≠ 0%N) as Hpn by lia.
  pose proof (N.div_mod c pn Hpn) as Hdm.
  pose proof (N.mod_upper_bound c pn Hpn) as Hr.
  set (qn := (c / pn)%N) in *. set (r := (c mod pn)%N) in *.
  assert (Z.of_N c = p * Z.of_N qn + Z.of_N r) as Hc by (rewrite <- Hp; lia).
  assert (Z.of_N r < p) as Hrp by lia.
  destruct (N.compare_spec (2 * r) pn) as [He|Hl|Hg].
  - assert (2 * Z.of_N r = p) as He' by lia.
    destruct (N.even qn) eqn:Hev.
    + split; [lia|]. split; [|nia].
      intros _. rewrite <- Hev. clear.
      destruct qn as [|[]]; reflexivity.
    + split; [rewrite N2Z.inj_add; nia|]. split; [|rewrite N2Z.inj_add; nia].
      intros _. rewrite N2Z.inj_add. change (Z.of_N 1) with 1.
      rewrite Z.even_add. 
      assert (Z.even (Z.of_N qn) = false) as ->
        by (rewrite <- Hev; clear; destruct qn as [|[]]; reflexivity).
      reflexivity.
  - split; [lia|]. split; [lia|nia].
  - split; [rewrite N2Z.inj_add; nia|].
    split; [rewrite N2Z.inj_add; nia|rewrite N2Z.inj_add; nia].
Qed.

End read_back.

(** X16. An amount that the report writes is read back by [safe_decimal]
    as the value that was written: for a plain amount with at most two
    decimals (below 10^28 hundredths) the text of [format_2f] parses to the
    amount rescaled to two decimals, which has the same value. *)
Theorem report_amount_round_trip (d : Decimal) (u : Z) :
  plain_units 2 d = Some u -> (Z.abs u < 10 ^ 28)%Z ->
  safe_decimal (Some (Dec.format_2f d)) = Ok (Dec.rescale d (-2))
  ∧ plain_units 2 (Dec.rescale d (-2)) = Some u.
Proof.
  intros (s & c & e & -> & He & ->)%(plain_units_Some 2) Hu.
  rewrite (abs_units 2) in Hu by lia.
  assert (exists q, Dec.rescale (Finite s c e) (-2) = Finite s q (-2)
                    ∧ Z.of_N q = (Z.of_N c * 10 ^ (e + 2))%Z) as (q & Hq & Hv).
  { unfold Dec.rescale. destruct (N.eqb_spec c 0) as [->|Hc].
    - exists 0%N. split; [done|]. simpl. lia.
    - destruct (Z.leb_spec (-2) e); [|lia].
      eexists. split; [done|]. rewrite N2Z.inj_mul, pow10_Z by lia.
      by replace (e - -2)%Z with (e + 2)%Z by lia. }
  unfold Dec.format_2f. rewrite Hq. split.
  - apply safe_decimal_amount. lia.
  - rewrite (plain_units_Finite 2) by lia. f_equal.
    rewrite Hv. change (10 ^ (-2 + 2))%Z with 1%Z. lia.
Qed.

Lemma report_amount_round_trip_witness :
  safe_decimal (Some (Dec.format_2f (Finite true 1575 (-1))))
    = Ok (Finite true 15750 (-2))
  ∧ plain_units 2 (Finite true 15750 (-2)) = Some (-15750)%Z.
Proof.
  apply (report_amount_round_trip (Finite true 1575 (-1)) (-15750)%Z);
    [vm_compute; reflexivity|lia].
Defined.

(** X17. A finite amount with more than two decimals is written rounded
    to the nearest hundredth, a tie going to the even hundredth: the
    written hundredths [q] differ from the exact value by at most half a
    hundredth, and [safe_decimal] reads the written text back as [q]
    hundredths. *)
Theorem report_amount_rounding (s : bool) (c : N) (e : Z) :
  (e < -2)%Z -> (Z.of_N c < 10 ^ 28)%Z ->
  exists q,
    Dec.rescale (Finite s c e) (-2) = Finite s q (-2)
    ∧ safe_decimal (Some (Dec.format_2f (Finite s c e))) = Ok (Finite s q (-2))
    ∧ (2 * Z.abs (Z.of_N c - Z.of_N q * 10 ^ (-2 - e)) <= 10 ^ (-2 - e))%Z
    ∧ ((2 * Z.abs (Z.of_N c - Z.of_N q * 10 ^ (-2 - e)) = 10 ^ (-2 - e))%Z ->
         Z.even (Z.of_N q) = true).
Proof.
  intros He Hc.
  assert (exists q, Dec.rescale (Finite s c e) (-2) = Finite s q (-2)
            ∧ (Z.of_N q <= Z.of_N c)%Z
            ∧ (2 * Z.abs (Z.of_N c - Z.of_N q * 10 ^ (-2 - e))
               <= 10 ^ (-2 - e))%Z
            ∧ ((2 * Z.abs (Z.of_N c - Z.of_N q * 10 ^ (-2 - e))
                = 10 ^ (-2 - e))%Z -> Z.even (Z.of_N q) = true))
    as (q & Hq & Hle & Hnear & Htie).
  { unfold Dec.rescale. destruct (N.eqb_spec c 0) as [->|Hc0].
    - exists 0%N. split; [done|]. split; [done|].
      pose proof (Z.pow_pos_nonneg 10 (-2 - e) ltac:(lia) ltac:(lia)).
      split; [simpl; lia|]. intros _. reflexivity.
    - destruct (Z.leb_spec (-2) e); [lia|].
      exists (Dec.round_half_even c (-2 - e)).
      destruct (round_half_even_near c (-2 - e) ltac:(lia)) as (H1 & H2 & H3).
      done. }
  exists q. split; [done|]. split; [|done].
  unfold Dec.format_2f. rewrite Hq. apply safe_decimal_amount. lia.
Qed.

Lemma report_amount_rounding_witness :
  exists q,
    Dec.rescale (Finite false 12345 (-3)) (-2) = Finite false q (-2)
    ∧ safe_decimal (Some (Dec.format_2f (Finite false 12345 (-3))))
        = Ok (Finite false q (-2))
    ∧ (2 * Z.abs (12345 - Z.of_N q * 10) <= 10)%Z.
Proof.
  destruct (report_amount_rounding false 12345 (-3) ltac:(lia) ltac:(lia))
    as (q & H1 & H2 & H3 & _).
  exists q. split; [exact H1|]. split; [exact H2|exact H3].
Defined.

(** ** What [sum_field] reads *)

Section amount_cell_facts.
Context (row : Row).

Lemma amount_cell_blank candidates :
  amount_cell row candidates = None <->
  Forall (fun c => norm (dict_get row c) = "") candidates.
Proof.
  induction candidates as [|c cs IH]; simpl; [split; [constructor|done]|].
  rewrite Forall_cons, <- IH. unfold dict_get.
  destruct (row !! c) as [v|]; [|split; [done|by intros [_ ?]]].
  destruct (Str.is_empty (norm v)) eqn:E.
  - apply is_empty_true in E. split; [done|by intros [_ ?]].
  - apply is_empty_false in E. split; [done|by intros [? _]].
Qed.

Lemma amount_cell_skip pre rest :
  Forall (fun c => norm (dict_get row c) = "") pre ->
  amount_cell row (pre ++ rest) = amount_cell row rest.
Proof.
  induction 1 as [|c pre Hc _ IH]; [done|]. simpl. unfold dict_get in Hc.
  destruct (row !! c) as [v|]; [|done].
  apply is_empty_true in Hc. by rewrite Hc.
Qed.

Lemma amount_cell_agree (row' : Row) candidates :
  (forall col, col ∈ candidates -> row !! col = row' !! col) ->
  amount_cell row candidates = amount_cell row' candidates.
Proof.
  induction candidates as [|c cs IH]; intros Hag; [done|]. simpl.
  rewrite <- (Hag c) by left. rewrite IH by (intros col ?; apply Hag; by right).
  done.
Qed.

End amount_cell_facts.

(** X18. [sum_field] depends on the rows only through the candidate
    columns: two row lists that agree, row by row, on every candidate header
    give the same result, whatever their other columns hold. *)
Theorem sum_field_reads_only_candidates (rows rows' : list Row)
    (candidates : list string) :
  Forall2 (fun r r' => forall col, col ∈ candidates -> r !! col = r' !! col)
    rows rows' ->
  sum_field rows candidates = sum_field rows' candidates.
Proof.
  intros H. unfold sum_field. generalize Dec.zero.
  induction H as [|r r' rows rows' Hr _ IH]; intros total; [done|].
  simpl. unfold sum_step. rewrite (amount_cell_agree r r' candidates Hr).
  destruct (amount_cell r' candidates) as [v|]; [|apply IH].
  destruct (safe_decimal v) as [d|]; [cbn|done].
  destruct (Dec.add total d); [cbn; apply IH|done].
Qed.

Lemma sum_field_reads_only_candidates_witness :
  sum_field [mkrow [("Gross", "10.50"); ("Contact", "ACME")]] gross_candidates
  = sum_field [mkrow [("Gross", "10.50"); ("Net", "9.00")]] gross_candidates.
Proof.
  apply sum_field_reads_only_candidates.
  constructor; [|constructor].
  intros col Hcol. unfold gross_candidates in Hcol.
  repeat (apply elem_of_cons in Hcol as [->|Hcol]; [vm_compute; reflexivity|]).
  by apply elem_of_nil in Hcol.
Defined.

(** X19. For each row [sum_field] takes the first candidate header whose
    cell is not blank: headers before it that are missing or whose cell is
    [None], empty or white space only are passed over, headers after it are
    not looked at; a row in which every candidate is blank adds nothing. *)
Theorem sum_field_first_non_blank (row : Row) (pre post : list string)
    (col : string) (v : value) (rows : list Row) (candidates : list string) :
  (Forall (fun c => norm (dict_get row c) = "") pre ->
   row !! col = Some v -> norm v ≠ "" ->
   amount_cell row (pre ++ col :: post) = Some v
   ∧ sum_field [row] (pre ++ col :: post) = sum_field [row] [col])
  ∧ (Forall (fun r => Forall (fun c => norm (dict_get r c) = "") candidates)
       rows ->
     sum_field rows candidates = Ok Dec.zero).
Proof.
  split.
  - intros Hpre Hcol Hv.
    assert (amount_cell row (pre ++ col :: post) = Some v) as Hcell.
    { rewrite amount_cell_skip by done. simpl. rewrite Hcol.
      apply is_empty_false in Hv. by rewrite Hv. }
    split; [done|]. unfold sum_field. simpl. unfold sum_step.
    rewrite Hcell. simpl. rewrite Hcol.
    apply is_empty_false in Hv. by rewrite Hv.
  - intros H. unfold sum_field. generalize Dec.zero.
    induction H as [|r rows Hr _ IH]; intros total; [done|].
    simpl. unfold sum_step.
    apply amount_cell_blank in Hr. rewrite Hr. apply IH.
Qed.

Lemma sum_field_first_non_blank_witness :
  amount_cell (mkrow [("Gross (AUD)", "  "); ("Gross", "50"); ("Gross (Source)", "70")])
    gross_candidates = Some (Some "50")
  ∧ sum_field [mkrow [("Contact", "ACME")]; mkrow [("Gross", " ")]]
      gross_candidates = Ok Dec.zero.
Proof.
  split.
  - apply (sum_field_first_non_blank
             (mkrow [("Gross (AUD)", "  "); ("Gross", "50"); ("Gross (Source)", "70")])
             ["Gross (AUD)"] ["Gross (Source)"] "Gross" (Some "50") [] []).
    + constructor; [vm_compute; reflexivity|constructor].
    + vm_compute; reflexivity.
    + vm_compute. discriminate.
  - apply (sum_field_first_non_blank ∅ [] [] "" None).
    repeat constructor.
Defined.

(** ** The loader, case by case *)

(** X20. [download_csv] raises only what its collaborators raise: the
    error of the fetch, or an error of the reader other than a CSV error
    (which the fallback absorbs).  When it returns, the rows are the
    reader's own, in the reader's order, or the fallback's when the reader
    gave up with a CSV error, or none for an empty locator. *)
Theorem download_csv_cases (urlopen : string -> result string)
    (DictReader : string -> result (list Row)) (url label : string) :
  (forall e, Loader.download_csv urlopen DictReader url label = Raise e <->
     url ≠ ""
     ∧ (urlopen url = Raise e
        ∨ exists text, urlopen url = Ok text ∧ DictReader text = Raise e
                       ∧ e ≠ CsvError))
  ∧ (forall rows, Loader.download_csv urlopen DictReader url label = Ok rows <->
       (url = "" ∧ rows = [])
       ∨ (url ≠ ""
          ∧ exists text, urlopen url = Ok text
              ∧ (DictReader text = Ok rows
                 ∨ (DictReader text = Raise CsvError
                    ∧ rows = Loader.fallback_parse text)))).
Proof.
  unfold Loader.download_csv. destruct url as [|c url]; cbn [Str.is_empty].
  - split.
    + intros e. split; [done|]. by intros [? _].
    + intros rows. split.
      * intros [= <-]. by left.
      * intros [[_ ->]|[? _]]; done.
  - destruct (urlopen (String c url)) as [text|e0]; cbn.
    + destruct (DictReader text) as [rows0|e0] eqn:Hr.
      * split.
        -- intros e. split; [done|].
           intros (_ & [?|(t & [= <-] & He & _)]); [done|].
           rewrite Hr in He. done.
        -- intros rows. split.
           ++ intros [= <-]. right. split; [done|]. exists text.
              split; [done|]. by left.
           ++ intros [[? _]|(_ & t & [= <-] & [He|[He _]])]; [done| |];
                rewrite Hr in He; [by injection He as -> | done].
      * split.
        -- intros e. split.
           ++ destruct e0; intros [= <-]; (split; [done|]); right;
                exists text; done.
           ++ intros (_ & [?|(t & [= <-] & He & Hne)]); [done|].
              rewrite Hr in He. injection He as ->. by destruct e.
        -- intros rows. split.
           ++ destruct e0; try done. intros [= <-]. right. split; [done|].
              exists text. split; [done|]. by right.
           ++ intros [[? _]|(_ & t & [= <-] & [He|[He ->]])]; [done| |];
                rewrite Hr in He; [done|]. by injection He as ->.
    + split.
      * intros e. split.
        -- intros [= <-]. split; [done|]. by left.
        -- intros (_ & [[= <-]|(t & ? & _)]); done.
      * intros rows. split; [done|].
        intros [[? _]|(_ & t & ? & _)]; done.
Qed.

(** ** What the manifest cannot change *)

(** X21. The ledger-only records do not depend on the manifest: two runs
    on the same ledger and invoices, with any two manifests, give the same
    records without a GUID, in the same order. *)
Theorem ledger_only_rows_ignore_manifest (year : string)
    (ledger_rows invoice_rows manifest_rows manifest_rows' : list Row)
    (rows rows' : list MasterRecord) :
  master_rows year (build_ledger_index ledger_rows)
    (build_invoice_indices invoice_rows).1
    (build_manifest_index manifest_rows) = Ok rows ->
  master_rows year (build_ledger_index ledger_rows)
    (build_invoice_indices invoice_rows).1
    (build_manifest_index manifest_rows') = Ok rows' ->
  filter (fun r => Invoice_GUID r = "") rows
    = filter (fun r => Invoice_GUID r = "") rows'.
Proof.
  intros H H'.
  destruct (master_rows_groups _ _ _ _ _ H)
    as (p1 & p2 & _ & _ & -> & _ & _ & _ & H2).
  destruct (master_rows_groups _ _ _ _ _ H')
    as (p1' & p2' & _ & _ & -> & _ & _ & _ & H2').
  apply mapM_Ok in H2, H2'. rewrite H2 in H2'. by injection H2' as ->.
Qed.

Lemma ledger_only_rows_ignore_manifest_witness :
  exists rows',
    master_rows "2016" (build_ledger_index demo_ledger_rows)
      (build_invoice_indices demo_invoice_rows).1 (build_manifest_index [])
      = Ok rows'
    ∧ filter (fun r => Invoice_GUID r = "") demo_rows
      = filter (fun r => Invoice_GUID r = "") rows'.
Proof.
  destruct (master_rows "2016" (build_ledger_index demo_ledger_rows)
              (build_invoice_indices demo_invoice_rows).1
              (build_manifest_index [])) as [rows'|] eqn:E;
    [|vm_compute in E; discriminate E].
  exists rows'. split; [reflexivity|].
  apply (ledger_only_rows_ignore_manifest "2016" demo_ledger_rows
           demo_invoice_rows demo_manifest_rows [] demo_rows rows');
    [vm_compute; reflexivity|exact E].
Defined.

(** ** Every keyed invoice and manifest row is counted once *)

Section count_totals.
Context (key : Row -> string) (rows : list Row) (ks : list string).
Hypothesis ks_NoDup : NoDup ks.
Hypothesis ks_non_empty : forall k, k ∈ ks -> k ≠ "".
Hypothesis ks_cover : forall r, r ∈ rows -> key r ≠ "" -> key r ∈ ks.

Lemma group_sizes_total :
  sum_list ((fun k => length (default [] (build_index key rows !! k))) <$> ks)
    = length (filter (fun r => key r ≠ "") rows).
Proof.
  apply Nat2Z.inj. rewrite <- sum_Z_of_nat, <- sum_Z_ones.
  rewrite (filter_ext_elem (fun r => key r ≠ "") (fun r => key r ∈ ks)).
  2:{ intros r Hr. split; [by apply ks_cover|apply ks_non_empty]. }
  rewrite <- (weight_groups (fun _ => 1%Z) key) by done.
  apply sum_Z_ext. intros k Hk.
  by rewrite <- sum_Z_ones, build_index_group, decide_False
    by by apply ks_non_empty.
Qed.

End count_totals.

Lemma sum_list_zero {A} (f : A -> nat) (l : list A) :
  Forall (fun x => f x = 0) l -> sum_list (f <$> l) = 0.
Proof.
  induction 1 as [|x l Hx _ IH]; [done|].
  change (f x + sum_list (f <$> l) = 0). by rewrite Hx, IH.
Qed.

Lemma Forall2_fmap_eq {A B C} (R : A -> B -> Prop) (f : A -> C) (g : B -> C)
    (l : list A) (k : list B) :
  (forall x y, R x y -> f x = g y) -> Forall2 R l k -> f <$> l = g <$> k.
Proof.
  intros Hfg. induction 1 as [|x y l k Hxy _ IH]; [done|].
  rewrite !fmap_cons. by rewrite (Hfg x y Hxy), IH.
Qed.

(** X22. Over the whole master list, the invoice line counts add up to
    the number of invoice rows that have a GUID, and the manifest row counts
    to the number of manifest rows that have a GUID: each such row is
    counted in exactly one record. *)
Theorem invoice_and_manifest_rows_counted_once (year : string)
    (ledger_rows invoice_rows manifest_rows : list Row)
    (rows : list MasterRecord) :
  master_rows year (build_ledger_index ledger_rows)
    (build_invoice_indices invoice_rows).1
    (build_manifest_index manifest_rows) = Ok rows ->
  sum_list (Invoice_Line_Count <$> rows)
    = length (filter (fun r => invoice_guid_key r ≠ "") invoice_rows)
  ∧ sum_list (Manifest_Row_Count <$> rows)
    = length (filter (fun r => manifest_guid_key r ≠ "") manifest_rows).
Proof.
  intros H.
  destruct (master_rows_groups _ _ _ _ _ H)
    as (p1 & p2 & -> & _ & _ & _ & _ & H1 & H2).
  set (ks := sorted (elements
                (guid_keys (build_invoice_indices invoice_rows).1
                   (build_manifest_index manifest_rows)))) in *.
  assert (NoDup ks) as Hnd by apply sorted_NoDup, NoDup_elements.
  assert (forall k, k ∈ ks -> k ≠ "") as Hne.
  { intros k Hk. apply sorted_elem, elem_of_elements in Hk.
    by apply (guid_keys_non_empty invoice_rows manifest_rows). }
  assert (Forall (fun r => Invoice_Line_Count r = 0) p2
          ∧ Forall (fun r => Manifest_Row_Count r = 0) p2) as [Hz1 Hz2].
  { clear - H2. induction H2 as [|k r ks' p2 Hr _ IH]; [by split|].
    destruct IH as [IH1 IH2].
    apply ledger_only_record_eq in Hr as (? & ? & ? & ->).
    split; constructor; done. }
  rewrite !fmap_app, !sum_list_with_app.
  rewrite (sum_list_zero _ _ Hz1), (sum_list_zero _ _ Hz2), !Nat.add_0_r.
  split.
  - rewrite <- (Forall2_fmap_eq _
                  (fun g => length (default []
                     ((build_invoice_indices invoice_rows).1 !! g)))
                  Invoice_Line_Count _ _ ltac:(
                    intros g r (?&?&?&?&?& ->)%guid_record_eq; reflexivity) H1).
    rewrite build_invoice_indices_eq. cbn [fst].
    apply group_sizes_total; [done|done|].
    intros r Hr Hk. apply sorted_elem, elem_of_elements.
    unfold guid_keys. apply elem_of_union_l.
    rewrite build_invoice_indices_eq. cbn [fst].
    apply build_index_dom. eauto.
  - rewrite <- (Forall2_fmap_eq _
                  (fun g => length (default []
                     (build_manifest_index manifest_rows !! g)))
                  Manifest_Row_Count _ _ ltac:(
                    intros g r (?&?&?&?&?& ->)%guid_record_eq; reflexivity) H1).
    apply (group_sizes_total manifest_guid_key); [done|done|].
    intros r Hr Hk. apply sorted_elem, elem_of_elements.
    unfold guid_keys. apply elem_of_union_r.
    apply (proj2 (build_index_dom manifest_guid_key _ _)). eauto.
Qed.

Lemma invoice_and_manifest_rows_counted_once_witness :
  sum_list (Invoice_Line_Count <$> demo_rows) = 1
  ∧ sum_list (Manifest_Row_Count <$> demo_rows) = 2.
Proof.
  destruct (invoice_and_manifest_rows_counted_once "2016" demo_ledger_rows
              demo_invoice_rows demo_manifest_rows demo_rows
              ltac:(vm_compute; reflexivity)) as [H1 H2].
  split; [rewrite H1|rewrite H2]; vm_compute; reflexivity.
Defined.
